(* ===== verification/_CoqProject ===== *)
-Q . S2P
Prelude.v
JsValue.v
DraftStore.v
ProductModalView.v
DetailModalView.v
ModalLifecycle.v
ProductPage.v
PageDialogs.v
PageRequests.v
