(* ===== verification/Prelude.v ===== *)
(** * A verification development for the product admin console
      (chia-zz/hex_react_week4)

    ** The program

    The repository is a React single-page application that administers
    a product catalogue through a remote REST API.  Four source files
    are under [src/]:
    - [src/App.jsx]: the router, two routes ([/] the login page, which is
      not in the sources, and [/products]);
    - [src/pages/ProductPage.jsx]: the page component.  Its React state is
      the product list, the draft [tempProduct], the two dialog flags
      [isProductModalOpen] and [isDetailModalOpen], the [modalMode], the
      [isLoading] flag and the [pagination] object.  Its handlers are the
      draft edits ([handleModalInputChange], [handleImageChange],
      [handleAddImage], [handleRemoveImage]), the dialog intents
      ([openModal], [closeModal], [handleOpenDetail], [handleCloseDetail])
      and the asynchronous API calls ([getData], [checkLogin],
      [handleDelete], [handleUpload], [handleModalSubmit],
      [handleLogout]);
    - [src/components/ProductModal.jsx]: the create/edit dialog.  It owns
      a Bootstrap [Modal] widget through three effects (construct once,
      show/hide on [isOpen], forward the widget's [hidden.bs.modal] event
      to [onClose] guarded by [isOpen]) and renders the form whose
      controls call the page's handlers;
    - [src/components/DetailModal.jsx]: the read-only detail dialog, with
      the same three effects.

    ** The development, file by file (in [_CoqProject] order)

    - [Prelude] (this file): the shared library: runs of a step function
      and labelled traces of a step relation with their invariant and
      concatenation lemmas, list lemmas for [pop], the [admin] hint
      databases, and tactics.
    - [JsValue]: the JavaScript values the code manipulates ([undefined],
      numbers, strings, arrays, objects as [gmap string jsval] with
      [o.[k]] reading [undefined] for a missing key), the built-ins it
      calls ([Number]/unary [+] on strings, i.e. ECMAScript
      StringToNumber in [Module StringToNumber]; [String(n)] on integers
      in [Module NumberToString]; [===] against a literal, truthiness,
      [?.length], indexing, array spread, index assignment, [pop]) and
      an exception monad [result] for the [TypeError]s they throw;
      and what React does with a value rendered as a child
      ([react_child]: an object is not a valid child and throws).
    - [DraftStore] ([Module DraftStore]): the draft [tempProduct] and the
      page's updaters on it (ProductPage.jsx lines 27-39, 141-144,
      167-203): [addNewProduct], [handleModalInputChange] with
      [finalValue], [handleImageChange], [handleAddImage],
      [handleRemoveImage], [setUploadedImage]; and [draft_wf], the
      spec's well-formedness of a draft, stated field by field.
    - [ProductModalView] ([Module ProductModalView]): the render of
      ProductModal.jsx (lines 75-356) as data: the controls with their
      [type], [name], bound value and [onChange], the previews, the add
      and remove buttons under their guards [canAddImage] and
      [canRemoveImage], the header's close button and the footer's
      cancel and confirm buttons ([dialog_buttons], the confirm label
      following [modalMode]); and [ui_apply], the draft edit caused by a user
      event on a rendered control or button (the browser's value
      sanitization of number, url and text inputs included: [sanitize],
      with [valid_float] and the double-range check [in_double_range]
      for numbers).
    - [ModalLifecycle]: [Module BsModal], the Bootstrap modal widget
      (four phases; [show]/[hide] ignored during a transition;
      [hidden.bs.modal] at the end of a hide), modelled from the spec and
      Bootstrap's documentation; [Module Lifecycle], the three effects
      of ProductModal.jsx lines 18-73 (DetailModal.jsx has the same
      code) as a step function over the parent's state, which is
      abstract through a [binding] (its [isOpen] and its [onClose], with
      the law that [onClose] closes) and instantiated by the page's
      boolean flag ([flag_binding], [closeModal]).
    - [DetailModalView] ([Module DetailModalView]): the render of
      DetailModal.jsx (lines 65-152) as data, with the [TypeError] of
      [imagesUrl.map] on a non-empty string and React's error on an
      object in a field shown as text ([detail_children]).
    - [ProductPage] ([Module ProductPage]): the page as a whole.  Its
      state is a [world]: the React state ([page], lines 41-50), the
      route, the [hexToken] cookie (as the token string), the
      [Authorization] header, the toasts, the API requests in flight
      (each with the continuation its [await] resumes) and whether the
      page has crashed.  Handlers are computations in a state monad
      [M] over the world.  Each [async] handler is split at its
      [await]: [getData]/[getData_resume], [checkLogin]/
      [checkLogin_resume] (with [isAuth]), [handleDelete]/
      [handleDelete_resume], [handleUpload]/[handleUpload_resume],
      [handleModalSubmit]/[handleModalSubmit_resume]; the synchronous
      ones are [onMount] (the mount effect), [handleLogout],
      [openModal], [closeModal], [handleOpenDetail],
      [handleCloseDetail], and [draft_edit], which applies the dialog's
      [ui_apply].  [dispatch] wires the page's events to the handlers
      the screen offers.  [handle] runs a handler, or, for a reply from
      the network, the continuation of the matching request.  [step]
      is [handle] followed by [commit], the re-render of the table
      ([table_render], ProductPage.jsx lines 258-307) and both dialogs,
      which takes the page down if it throws.  [reachable] collects the
      worlds reached from [start] (the mount).  Which events are
      offered depends on a [screen]: in this file [flag_screen] reads it
      off the page's two flags.
    - [PageDialogs] ([Module PageDialogs]): the page with both dialogs
      mounted.  Each dialog is a [Lifecycle] dialog whose [binding] is
      the page's flag and its close callback ([product_binding],
      [detail_binding]).  Every page step re-renders both dialogs, or
      unmounts them when the page leaves ([sync]).  A widget event whose
      [performClose] calls [onClose] runs the page's close handler
      ([product_widget], [detail_widget]).  What the user can reach is
      read off the widgets ([app_screen]).  DetailModal.jsx's effects
      (lines 8-63) are [detail_modal], the [Lifecycle] step bound to the
      detail flag.  [settled_step] is a page event followed by the end
      of both widgets' transitions (the user lets animations finish).
    - [PageRequests] ([Module PageRequests]): the spinner
      ([spinner_visible], ProductPage.jsx line 236) and the requests in
      flight.  [drain] lets the server answer the oldest pending
      request, with any answer policy, until none is left; it runs on
      fuel, and the fuel it needs is [weight], the number of pending
      requests with those whose continuation fetches again ([checkLogin]
      on mount, [handleDelete], [handleModalSubmit]) counted twice.
      That is enough because each answer removes its request and adds
      at most one [getData], whose own weight is 1 (lemma
      [step_weight]).

    ** What the theorems show (see PROJECT.json for the list of claims)

    - DraftStore: price fields store [Number(value)] and only that field
      changes (C1); the radio values give 0 and 1 (C2) but any other
      value stores a number other than 0 and 1, against the spec (C3);
      remove undoes add (C5); an in-range image edit replaces one slot
      (C6); on a draft without an image list the updaters throw (C7).
    - ProductModalView: every sequence of edits the dialog offers keeps
      a draft well formed (C8) and never throws, the add button cannot
      be used twice in a row (C10), remove on an empty list is a no-op
      and hidden (C11), and the url input rendered for image slot [j]
      shows that slot and edits that slot only (C12).  A price input
      bound to an integer, changed to the text it shows ([String(n)]),
      stores the same integer back and leaves the draft unchanged (C4,
      a round trip through [String], the input's sanitization and
      [Number]).  The
      bound of five images holds because of the button's guard, not
      because of [handleAddImage] (a finding).
    - ModalLifecycle: freshness of the captured [isOpen]; the [isOpen]
      guard of [performClose] never reports a close the parent already
      made (C13); a dismissal is reported once and the dialog reopens
      (C14); widget and parent agree at rest in every run without a
      close during the fade-in (C15), and in every reachable state a
      close during the fade-in does leave the dialog shown with the
      parent closed, after which neither a closed re-render nor the
      close button hides it (C16, a finding); the widget is disposed exactly once (C17); every step
      refines the spec's two-state controller (C18).
    - ProductPage: request ids stay distinct (lemma
      [reachable_ids_ok]), so a reply resumes exactly one [await].  After a successful submit the
      dialog closes and page 1 is refetched while the spinner is
      already off (C19, a finding); a failed submit keeps the dialog and
      the draft (C20).  A delete refetches page 1, not the current page
      (C21, against the spec); a failed delete neither redirects nor
      refetches (C22, against the spec's scenario).  A failed fetch
      redirects to the login route (C23).  A late upload writes into whatever draft is
      open when it completes (C25, a finding).  Two submits send two
      create requests (C26).  The refresh button sends its click event
      as the page (C27, a finding).  An oversized file makes no request
      (C28).  Logout clears the session and ends the page (C29).  If the
      server sends rows the page can show (well formed, and no object in
      a field shown as text), the page never crashes and the
      draft stays well formed (C30), and every create or update request
      carries a well-formed product (C9).  A submit in the edit dialog
      sends exactly one update request, for the draft's id with the
      draft as payload (C32).  On mount, no token means a redirect
      and no request, and a token means a session check (C34).  A valid
      check fetches page 1; an invalid one redirects (C35).
    - Number inputs: the browser's sanitization of
      [<input type="number">] keeps a valid floating-point number whose
      value is a finite double and reports [""] otherwise; on valid
      floats the HTML value and the ECMAScript parser agree
      ([valid_float_value]), so a price typed into the dialog is always
      a finite number, "1e400" included (C33; the spec expects NaN
      there, a finding).
    - DetailModalView: the detail dialog throws exactly on a non-empty
      string in [imagesUrl] (C31, a finding) or on an object in a field
      it shows as text.
    - PageDialogs: inside the page each dialog is a reachable dialog of
      the [Lifecycle] model rendered with the page's current state; the
      product dialog's subscribed [performClose] captured
      [isProductModalOpen] and the detail dialog's [isDetailModalOpen],
      and a widget's [onClose] runs [closeModal] or [handleCloseDetail]
      respectively, so the theorems of ModalLifecycle apply to both,
      each with its own flag (C37).  The page model of ProductPage.v, which reads the screen off
      the flags, is exactly the page with its dialogs when every
      animation is let to finish (C38, an equivalence over all runs).
      In every reachable state, Cancel pressed during the fade-in
      leaves the product dialog on screen with the flag false: Cancel
      is then dead, and submit, which the flag-based page model would
      not offer, still sends a request (C39, a finding).
    - PageRequests: the spinner is on only while a list fetch or a
      session check is in flight (C40, an invariant of every reachable
      world); whatever the server answers, the requests in flight drain
      within [weight] answers (C36, termination) and the spinner is then
      off (C24, liveness).  The converse of C40 fails: after a
      successful submit a fetch is in flight with the spinner off (C19).

    ** Modelling choices

    - JavaScript numbers are rationals ([Q]) plus NaN and the two
      infinities.  A decimal literal's value is rounded to the range of
      doubles ([to_double]): from [2^1024 - 2^970] on it is an infinity,
      and at most [2^-1075] in magnitude it is 0; the rounding to 53
      bits of precision is not modelled, nor is [-0].  The claims rest
      on the range (finiteness, C33) and on integers up to [2^53] read
      back from their decimal text (C4), which doubles hold exactly, so
      the missing precision rounding does not affect them.
      [String(n)] is modelled on integers (the form of
      Number::toString below 10^21).
    - Strings are Stdlib [string]s (8-bit code units); white space in
      StringToNumber is the Latin-1 part of ECMAScript's WhiteSpace and
      LineTerminator sets.  The value sanitization of text inputs
      (line breaks stripped) and url inputs (line breaks, then leading
      and trailing ASCII white space, stripped) is modelled; a textarea
      has none.
    - Arrays are values: the code copies every array before changing
      it, so sharing is not observable.  Array holes are read as
      [undefined]; the dialog only ever writes indices in range (C6,
      C8), where this makes no difference.
    - React's functional updaters [setX (pre => ...)] are functions from
      the previous value to the next; an updater that throws returns
      [Throw].  Each event runs to completion together with the
      re-render and effects it causes (the spec's single-threaded,
      run-to-completion model); passive effects are taken to run before
      the next event.

    - The page's environment: an API call either resolves with the data
      the page reads ([reply]) or rejects, in any order the network
      chooses ([Respond]).  A reply still runs its continuation after
      the page has left [/products]: its toasts and redirects happen.
      React's render after the continuation is skipped off the route.
      The buttons of the page need both dialogs off screen (the
      backdrop covers them), and a dialog's controls need it on screen.
      ProductPage.v judges this by the flags; PageDialogs.v judges it by
      the widgets, which differ from the flags after a close during the
      fade-in.
      The regular expression that reads the cookie is not modelled.
    - A reply is abstracted by what the continuation reads.  The API
      functions resolve with axios responses, whose [data] is always
      defined (the parsed body), so [res.data.imageUrl] reads
      [undefined] on a reply without that field ([RDone], [RList])
      rather than throwing.  [RList ps pg] is a reply whose
      [Object.values(res.data.products)] is [ps]: a number there gives
      [[]], i.e. [RList []]; a string (its characters as rows) is not
      represented.  A reply without [products] makes [Object.values]
      throw, the failure path of [getData_resume].
    - The Pagination widget and the login page are imported but are
      not in the sources.  [onChangePage] is modelled from the spec as
      a page number.

    ** Not yet modelled (plan for the next sittings)

    - The table's [key={item.id}]: a duplicate key only makes React
      warn, and the rows are modelled as a list.
    - DetailModal's placeholder for a falsy [tempProduct] (lines
      154-156): the draft is always an object, so it never shows.
    - App.jsx (two static routes) is modelled only as the [route] of
      the page's world: leaving [/products] unmounts the page.  The
      login page it routes to is not in the sources. *)

From stdpp Require Export base list gmap strings.
#[export] Set Default Goal Selector "!".

Create HintDb admin discriminated.
Create Rewrite HintDb admin_rw.

Declare Scope admin_scope.
Delimit Scope admin_scope with admin.

(** ** Runs of a step function

    The page's event handlers are deterministic functions of the state
    and the event; a sequence of events is folded over the state. *)
Section Run.
Context {St Lb : Type} (f : St -> Lb -> St).

Definition run (s : St) (ls : list Lb) : St := fold_left f ls s.

Lemma run_nil s : run s [] = s.
Proof. reflexivity. Qed.

Lemma run_cons s l ls : run s (l :: ls) = run (f s l) ls.
Proof. reflexivity. Qed.

Lemma run_app s ls1 ls2 : run s (ls1 ++ ls2) = run (run s ls1) ls2.
Proof. unfold run. by rewrite fold_left_app. Qed.

(** An invariant of every step is an invariant of every run whose
    events all satisfy the step's precondition. *)
Lemma run_invariant (P : St -> Prop) (ok : Lb -> St -> Prop) :
  (forall s l, P s -> ok l s -> P (f s l)) ->
  forall ls s,
    P s ->
    (forall n l, ls !! n = Some l -> ok l (run s (take n ls))) ->
    P (run s ls).
Proof.
  intros Hstep ls. induction ls as [|l ls IH]; intros s Hs Hok; [done|].
  rewrite run_cons. apply IH.
  - apply Hstep; [done|]. by apply (Hok 0).
  - intros n l' Hn. apply (Hok (S n)). done.
Qed.
End Run.

#[export] Hint Rewrite @run_nil @run_cons @run_app : admin_rw.

(** ** Labelled traces of a step relation

    The dialog controller is a step relation whose labels are the events
    that drive it; [trace step s ls s'] says that the events [ls] take
    [s] to [s']. *)
Section Trace.
Context {St Lb : Type} (step : St -> Lb -> St -> Prop).

Inductive trace : St -> list Lb -> St -> Prop :=
| trace_nil s : trace s [] s
| trace_cons s l s' ls s'' :
    step s l s' -> trace s' ls s'' -> trace s (l :: ls) s''.

Lemma trace_one s l s' : step s l s' -> trace s [l] s'.
Proof. intros H. econstructor; [exact H| constructor]. Qed.

Lemma trace_app s ls1 s' ls2 s'' :
  trace s ls1 s' -> trace s' ls2 s'' -> trace s (ls1 ++ ls2) s''.
Proof. induction 1; simpl; [done|]. intros Ht. econstructor; eauto. Qed.

Lemma trace_app_inv s ls1 ls2 s'' :
  trace s (ls1 ++ ls2) s'' -> exists s', trace s ls1 s' /\ trace s' ls2 s''.
Proof.
  revert s. induction ls1 as [|l ls1 IH]; simpl; intros s H.
  - exists s. split; [constructor|done].
  - inversion H as [|? ? s1 ? ? Hs Ht]; subst.
    destruct (IH _ Ht) as (s' & H1 & H2). exists s'. split; [|done].
    econstructor; eauto.
Qed.

(** Rule induction: a property preserved by every step holds at the
    end of every trace. *)
Lemma trace_invariant (P : St -> Prop) :
  (forall s l s', P s -> step s l s' -> P s') ->
  forall s ls s', trace s ls s' -> P s -> P s'.
Proof. intros Hstep s ls s' Ht. induction Ht; eauto. Qed.
End Trace.

#[export] Hint Constructors trace : admin.
#[export] Hint Resolve trace_one trace_app : admin.

(** ** Generic list facts shared by the array models *)

Lemma removelast_snoc {A} (l : list A) (x : A) : removelast (l ++ [x]) = l.
Proof. apply removelast_last. Qed.

Lemma length_removelast {A} (l : list A) :
  length (removelast l) = length l - 1.
Proof.
  induction l as [|x l IH]; [done|]. destruct l as [|y l]; [done|].
  cbn [removelast length] in *. rewrite IH. simpl. lia.
Qed.

Lemma Forall_removelast {A} (P : A -> Prop) (l : list A) :
  Forall P l -> Forall P (removelast l).
Proof.
  induction 1 as [|x l Hx Hl IH]; [constructor|].
  destruct l as [|y l]; simpl; [constructor|]. by constructor.
Qed.

#[export] Hint Rewrite @removelast_snoc @length_removelast : admin_rw.

(** ** Tactics *)

(** [invc H]: invert [H], substitute and forget it. *)
Ltac invc H := inversion H; subst; clear H.

(** [simpl_admin]: normalise runs, lists and map lookups. *)
Ltac simpl_admin :=
  repeat first
    [ progress autorewrite with admin_rw in *
    | progress simplify_map_eq
    | progress simpl in * ].
