(* ===== verification/JsValue.v ===== *)
(** * JavaScript values and the built-ins the components call

    The components manipulate plain JavaScript data: the draft product
    is an object whose fields hold strings, numbers and an array of
    strings; form events carry strings.  This file models those values,
    the ECMAScript conversion [Number(s)] / [+s] on strings
    (StringToNumber, ECMA-262 7.1.4.1.1, with the literal's value
    rounded to the range of doubles by [to_double]), the operators the code applies
    to them ([===] against a literal, truthiness, [?.length], indexing,
    array spread, index assignment and [pop]), and a small exception
    monad for the [TypeError]s they can throw. *)

From S2P Require Import Prelude.
From Stdlib Require Import QArith_base Qreduction Ascii DecimalNat.
From Stdlib Require String.

Local Close Scope Q_scope.
Local Open Scope Z_scope.

(** ** Numbers *)

(** A JavaScript number: NaN, an infinity, or a finite value.  Finite
    values are exact rationals in reduced form: a literal is rounded to
    the range of doubles ([to_double]) but not to their 53-bit
    precision (see the header of [Prelude]). *)
Inductive jsnum : Type :=
| NaN
| PosInf
| NegInf
| Fin (q : Q).

Definition jsnum_neg (n : jsnum) : jsnum :=
  match n with
  | NaN => NaN
  | PosInf => NegInf
  | NegInf => PosInf
  | Fin q => Fin (Qopp q)
  end.

(** The smallest magnitude that rounds to an infinity under
    round-to-nearest-even: halfway between [Number.MAX_VALUE],
    [(2^53 - 1) * 2^971], and [2^1024]. *)
Definition double_overflow : Q := inject_Z (2 ^ 1024 - 2 ^ 970).

(** The largest magnitude that rounds to zero: half the smallest
    subnormal, [2^-1075] (a tie, rounded to the even zero). *)
Definition double_underflow : Q := Qmake 1 (Z.to_pos (2 ^ 1075)).

(** The number a decimal value denotes once rounded to a double's
    range: an infinity beyond the largest double, zero below the
    smallest subnormal. *)
Definition to_double (q : Q) : jsnum :=
  if Qle_bool double_overflow q then PosInf
  else if Qle_bool q (- double_overflow) then NegInf
  else if Qle_bool q double_underflow && Qle_bool (- double_underflow) q then Fin 0
  else Fin q.

(** An integer inside the range of doubles keeps its value. *)
Lemma to_double_Z z : Z.abs z < 2 ^ 1024 - 2 ^ 970 -> to_double (inject_Z z) = Fin (inject_Z z).
Proof.
  intros Hz. unfold to_double.
  destruct (Qle_bool double_overflow (inject_Z z)) eqn:E1.
  { apply Qle_bool_iff in E1. unfold double_overflow in E1. rewrite <- Zle_Qle in E1. lia. }
  destruct (Qle_bool (inject_Z z) (- double_overflow)) eqn:E2.
  { apply Qle_bool_iff in E2. unfold double_overflow in E2.
    rewrite <- inject_Z_opp, <- Zle_Qle in E2. lia. }
  destruct (Qle_bool (inject_Z z) double_underflow && _) eqn:E3; [|done].
  apply andb_true_iff in E3 as [E3 E4]. apply Qle_bool_iff in E3, E4.
  unfold double_underflow, Qle in E3, E4. simpl in E3, E4.
  assert (z = 0) as -> by lia. reflexivity.
Qed.

(** ** StringToNumber *)
Module StringToNumber.

(** StrWhiteSpaceChar restricted to 8-bit code units: TAB, LF, VT, FF,
    CR, SPACE and NO-BREAK SPACE. *)
Definition is_ws (c : ascii) : bool :=
  match nat_of_ascii c with
  | 9 | 10 | 11 | 12 | 13 | 32 | 160 => true
  | _ => false
  end%nat.

Fixpoint trim_start (cs : list ascii) : list ascii :=
  match cs with
  | c :: cs' => if is_ws c then trim_start cs' else cs
  | [] => []
  end.

(** StrWhiteSpace_opt on both sides of the literal. *)
Definition trim (cs : list ascii) : list ascii :=
  reverse (trim_start (reverse (trim_start cs))).

(** The value of a digit in [base] (2, 8, 10 or 16), letters in either
    case. *)
Definition digit_value (base : Z) (c : ascii) : option Z :=
  let n := Z.of_nat (nat_of_ascii c) in
  let d :=
    if (48 <=? n) && (n <=? 57) then Some (n - 48)
    else if (97 <=? n) && (n <=? 122) then Some (n - 87)
    else if (65 <=? n) && (n <=? 90) then Some (n - 55)
    else None in
  match d with
  | Some v => if v <? base then Some v else None
  | None => None
  end.

(** The longest run of digits at the head of [cs], accumulated into
    [acc]; returns the value, the number of digits read and the rest. *)
Fixpoint take_digits (base : Z) (cs : list ascii) (acc : Z) (k : nat)
  : Z * nat * list ascii :=
  match cs with
  | c :: cs' =>
      match digit_value base c with
      | Some d => take_digits base cs' (acc * base + d) (S k)
      | None => (acc, k, cs)
      end
  | [] => (acc, k, [])
  end.

(** One or more digits and nothing after them. *)
Definition digits_only (base : Z) (cs : list ascii) : option Z :=
  match take_digits base cs 0 0 with
  | (v, S _, []) => Some v
  | _ => None
  end.

(** [m * 10 ^ e] as a reduced rational. *)
Definition scale10 (m e : Z) : Q :=
  if 0 <=? e then inject_Z (m * 10 ^ e)
  else Qred (Qmake m (Z.to_pos (10 ^ (- e)))).

(** ExponentPart_opt: empty, or [e]/[E], an optional sign, digits. *)
Definition exponent_part (cs : list ascii) : option Z :=
  match cs with
  | [] => Some 0
  | c :: cs' =>
      if Ascii.eqb c "e" || Ascii.eqb c "E" then
        match cs' with
        | s :: ds =>
            if Ascii.eqb s "+" then digits_only 10 ds
            else if Ascii.eqb s "-" then option_map Z.opp (digits_only 10 ds)
            else digits_only 10 cs'
        | [] => None
        end
      else None
  end.

(** StrUnsignedDecimalLiteral without [Infinity]:
    [digits [. digits] [exp]] or [. digits [exp]]. *)
Definition unsigned_decimal (cs : list ascii) : option Q :=
  let '(ip, ni, r1) := take_digits 10 cs 0 0 in
  let '(m, nf, r2) :=
    match r1 with
    | c :: r => if Ascii.eqb c "." then take_digits 10 r ip 0 else (ip, 0%nat, r1)
    | [] => (ip, 0%nat, [])
    end in
  if (ni + nf =? 0)%nat then None
  else match exponent_part r2 with
       | Some e => Some (scale10 m (e - Z.of_nat nf))
       | None => None
       end.

Definition infinity_chars : list ascii := String.list_ascii_of_string "Infinity".

Definition unsigned_literal (cs : list ascii) : option jsnum :=
  if decide (cs = infinity_chars) then Some PosInf
  else option_map to_double (unsigned_decimal cs).

(** StrDecimalLiteral: an optional sign before the unsigned literal. *)
Definition decimal_literal (cs : list ascii) : option jsnum :=
  match cs with
  | c :: r =>
      if Ascii.eqb c "+" then unsigned_literal r
      else if Ascii.eqb c "-" then option_map jsnum_neg (unsigned_literal r)
      else unsigned_literal cs
  | [] => None
  end.

(** NonDecimalIntegerLiteral: [0x], [0o] or [0b] (either case) and one
    or more digits of that base; [None] when [cs] has no such prefix. *)
Definition prefix_base (c : ascii) : option Z :=
  if Ascii.eqb c "x" || Ascii.eqb c "X" then Some 16
  else if Ascii.eqb c "o" || Ascii.eqb c "O" then Some 8
  else if Ascii.eqb c "b" || Ascii.eqb c "B" then Some 2
  else None.

Definition non_decimal_literal (cs : list ascii) : option (option jsnum) :=
  match cs with
  | z :: x :: r =>
      if Ascii.eqb z "0" then
        match prefix_base x with
        | Some b => Some (option_map (fun v => to_double (inject_Z v)) (digits_only b r))
        | None => None
        end
      else None
  | _ => None
  end.

Definition numeric_literal (cs : list ascii) : option jsnum :=
  match non_decimal_literal cs with
  | Some r => r
  | None => decimal_literal cs
  end.

(** StringToNumber: white space only (or nothing) is 0, a literal is
    its value, anything else is NaN. *)
Definition string_to_number (s : string) : jsnum :=
  match trim (String.list_ascii_of_string s) with
  | [] => Fin 0
  | cs => default NaN (numeric_literal cs)
  end.

End StringToNumber.

(** ** Values and objects *)

(** A JavaScript value.  Arrays are held by value: the code never changes
    an array in place that another binding still reads (every updater
    copies with [[...xs]] first), so sharing is not observable.  Other
    objects the code passes around without looking inside (DOM events,
    the pagination object) are references [JRef]. *)
#[warnings="-register-all"]
Inductive jsval : Type :=
| JUndefined
| JNull
| JBool (b : bool)
| JNum (n : jsnum)
| JStr (s : string)
| JArr (xs : list jsval)
| JRef (r : positive).

(** A plain object: a finite map from property names to values.  A
    missing property reads as [undefined]. *)
Abbreviation obj := (gmap string jsval).

Definition js_get (o : obj) (k : string) : jsval := default JUndefined (o !! k).

Declare Scope js_scope.
Delimit Scope js_scope with js.
Notation "o .[ k ]" := (js_get o k) (at level 1, left associativity, format "o .[ k ]") : js_scope.
Open Scope js_scope.

Definition JInt (z : Z) : jsval := JNum (Fin (inject_Z z)).

(** [v === s] for a string literal [s]. *)
Definition js_eq_str (v : jsval) (s : string) : bool :=
  match v with JStr s' => String.eqb s' s | _ => false end.

(** [v === n] for a number literal [n] ([NaN] equals nothing). *)
Definition js_eq_num (v : jsval) (n : Q) : bool :=
  match v with JNum (Fin q) => Qeq_bool q n | _ => false end.

(** ToBoolean. *)
Definition js_truthy (v : jsval) : bool :=
  match v with
  | JUndefined | JNull => false
  | JBool b => b
  | JNum (Fin q) => negb (Qeq_bool q 0)
  | JNum NaN => false
  | JNum _ => true
  | JStr s => negb (String.eqb s "")
  | JArr _ | JRef _ => true
  end.

(** [v?.length]: the length of an array or a string, [undefined]
    ([None]) otherwise. *)
Definition js_length (v : jsval) : option nat :=
  match v with
  | JArr xs => Some (length xs)
  | JStr s => Some (String.length s)
  | _ => None
  end.

(** [v[i]] for an integer index; out of range reads [undefined]. *)
Definition js_index (v : jsval) (i : Z) : jsval :=
  match v with
  | JArr xs => if 0 <=? i then default JUndefined (xs !! Z.to_nat i) else JUndefined
  | JStr s =>
      if 0 <=? i then
        match String.get (Z.to_nat i) s with
        | Some c => JStr (String c EmptyString)
        | None => JUndefined
        end
      else JUndefined
  | _ => JUndefined
  end.

(** ** Exceptions *)

(** [TypeError] of the built-ins; [InvalidChild], the [Error] React
    throws when a render returns an object as a child. *)
Inductive js_error : Type :=
| TypeError
| InvalidChild.

(** The result of JavaScript code that may throw. *)
Inductive result (A : Type) : Type :=
| Ok (a : A)
| Throw (e : js_error).
Arguments Ok {A} a.
Arguments Throw {A} e.

#[export] Instance result_ret : MRet result := fun A a => Ok a.
#[export] Instance result_bind : MBind result :=
  fun A B k r => match r with Ok a => k a | Throw e => Throw e end.

(** ** Values as React children *)

(** What React does with a value rendered as a child: nothing for
    [undefined], [null] and booleans, text for numbers and strings, each
    element of an array; an object is not a valid child. *)
Fixpoint react_child (v : jsval) : bool :=
  match v with
  | JRef _ => false
  | JArr xs => forallb react_child xs
  | _ => true
  end.

(** The fields [ks] of [o], each rendered as a child ([{o.k}]). *)
Definition children_ok (o : obj) (ks : list string) : bool :=
  forallb (fun k => react_child (o.[k])) ks.

(** A render that shows the fields [ks] of [o] as children: [a], or the
    error React throws. *)
Definition with_children {A} (o : obj) (ks : list string) (a : A) : result A :=
  if children_ok o ks then Ok a else Throw InvalidChild.

Lemma result_bind_ok {A B} (a : A) (k : A -> result B) : (Ok a ≫= k) = k a.
Proof. reflexivity. Qed.

Lemma result_bind_throw {A B} e (k : A -> result B) : (Throw e ≫= k) = Throw e.
Proof. reflexivity. Qed.

#[export] Hint Rewrite @result_bind_ok @result_bind_throw : admin_rw.

(** ** Arrays *)

(** [[...v]]: arrays are copied, strings split into their code units;
    spreading anything else throws [TypeError] (it is not iterable). *)
Definition js_spread (v : jsval) : result (list jsval) :=
  match v with
  | JArr xs => Ok xs
  | JStr s => Ok (map (fun c => JStr (String c EmptyString)) (String.list_ascii_of_string s))
  | _ => Throw TypeError
  end.

(** [xs[i] = v]: in range the slot is replaced; beyond the end the
    array grows, the new slots in between are holes, which read (and
    spread) as [undefined]. *)
Definition js_array_set (xs : list jsval) (i : nat) (v : jsval) : list jsval :=
  if decide (i < length xs)%nat then <[i := v]> xs
  else xs ++ replicate (i - length xs) JUndefined ++ [v].

(** [xs.pop()] (its effect on the array; the popped value is unused). *)
Definition js_pop (xs : list jsval) : list jsval := removelast xs.

Lemma length_js_array_set_lt xs i v :
  (i < length xs)%nat -> length (js_array_set xs i v) = length xs.
Proof. intros Hi. unfold js_array_set. rewrite decide_True; [|done]. apply length_insert. Qed.

Lemma js_array_set_lookup_eq xs i v : js_array_set xs i v !! i = Some v.
Proof.
  unfold js_array_set. case_decide.
  - by apply list_lookup_insert_eq.
  - rewrite lookup_app_r; [|lia]. rewrite lookup_app_r; rewrite length_replicate; [|lia].
    by replace (i - length xs - (i - length xs))%nat with 0%nat by lia.
Qed.

Lemma js_array_set_lookup_ne xs i j v :
  (j < length xs)%nat -> i <> j -> js_array_set xs i v !! j = xs !! j.
Proof.
  intros Hj Hij. unfold js_array_set. case_decide.
  - by apply list_lookup_insert_ne.
  - by apply lookup_app_l.
Qed.

Lemma js_pop_snoc xs v : js_pop (xs ++ [v]) = xs.
Proof. apply removelast_snoc. Qed.

#[export] Hint Rewrite js_pop_snoc : admin_rw.

(** ** Number::toString on integers

    A controlled [<input type="number" value={n}>] shows [String(n)];
    for an integer [n] with [|n| < 10^21] that is its decimal digits,
    with a leading [-] when negative. *)
Module NumberToString.
Import StringToNumber.

Fixpoint uint_chars (d : Decimal.uint) : list ascii :=
  match d with
  | Decimal.Nil => []
  | Decimal.D0 d => "0"%char :: uint_chars d
  | Decimal.D1 d => "1"%char :: uint_chars d
  | Decimal.D2 d => "2"%char :: uint_chars d
  | Decimal.D3 d => "3"%char :: uint_chars d
  | Decimal.D4 d => "4"%char :: uint_chars d
  | Decimal.D5 d => "5"%char :: uint_chars d
  | Decimal.D6 d => "6"%char :: uint_chars d
  | Decimal.D7 d => "7"%char :: uint_chars d
  | Decimal.D8 d => "8"%char :: uint_chars d
  | Decimal.D9 d => "9"%char :: uint_chars d
  end.

Definition int_chars (z : Z) : list ascii :=
  (if z <? 0 then ["-"%char] else []) ++ uint_chars (Nat.to_uint (Z.abs_nat z)).

Definition int_to_string (z : Z) : string :=
  String.string_of_list_ascii (int_chars z).

(** A character the printer emits is a decimal digit: no white space,
    no radix-prefix letter. *)
Definition digit_char (c : ascii) : Prop :=
  is_ws c = false /\ prefix_base c = None /\ is_Some (digit_value 10 c).

Lemma uint_chars_digits d : Forall digit_char (uint_chars d).
Proof.
  induction d; simpl; constructor; try done;
    (split; [done|split; [done|eexists; done]]).
Qed.

Lemma take_digits_uint d acc k :
  take_digits 10 (uint_chars d) (Z.of_nat acc) k =
  (Z.of_nat (Nat.of_uint_acc d acc), (k + length (uint_chars d))%nat, []).
Proof.
  revert acc k.
  induction d as [|d IH|d IH|d IH|d IH|d IH|d IH|d IH|d IH|d IH|d IH];
    intros acc k; simpl.
  1: by rewrite Nat.add_0_r.
  all: match goal with
       | |- take_digits _ _ ?e _ = (Z.of_nat (Nat.of_uint_acc _ ?a'), _, _) =>
           replace e with (Z.of_nat a')
             by (rewrite ?Nat.tail_mul_spec; vm_compute (nat_of_ascii _); lia);
           rewrite IH; f_equal; f_equal; lia
       end.
Qed.
Lemma trim_start_id cs : Forall (fun c => is_ws c = false) cs -> trim_start cs = cs.
Proof.
  destruct cs as [|c cs']; [done|]. intros [Hc _]%Forall_cons. simpl. by rewrite Hc.
Qed.

(** A literal without surrounding white space is left as it is. *)
Lemma trim_id cs : Forall (fun c => is_ws c = false) cs -> trim cs = cs.
Proof.
  intros H. unfold trim. rewrite (trim_start_id cs H).
  rewrite trim_start_id; [apply reverse_involutive|].
  by apply Forall_reverse.
Qed.

Lemma unsigned_decimal_uint d :
  uint_chars d <> [] ->
  unsigned_decimal (uint_chars d) = Some (inject_Z (Z.of_nat (Nat.of_uint d))).
Proof.
  intros Hne. unfold unsigned_decimal.
  pose proof (take_digits_uint d 0 0) as Ht. change (Z.of_nat 0) with 0 in Ht. rewrite Ht.
  destruct (length (uint_chars d)) eqn:Hl; [by destruct (uint_chars d)|].
  simpl. unfold scale10. simpl. by rewrite Z.mul_1_r.
Qed.

Lemma unsigned_literal_uint d :
  uint_chars d <> [] ->
  unsigned_literal (uint_chars d) = Some (to_double (inject_Z (Z.of_nat (Nat.of_uint d)))).
Proof.
  intros Hne. unfold unsigned_literal.
  rewrite decide_False; [|unfold infinity_chars; destruct d; simpl in *; congruence].
  by rewrite unsigned_decimal_uint.
Qed.

Lemma uint_chars_nil d : uint_chars d = [] -> Nat.of_uint d = 0%nat.
Proof. by destruct d. Qed.

(** [String] prints at least one digit. *)
Lemma uint_chars_to_uint k : uint_chars (Nat.to_uint k) <> [].
Proof.
  intros E. pose proof E as E'. apply uint_chars_nil in E'. rewrite DecimalNat.Unsigned.of_to in E'.
  subst k. by vm_compute in E.
Qed.

Lemma digit_char_not_ws cs : Forall digit_char cs -> Forall (fun c => is_ws c = false) cs.
Proof. intros H. eapply Forall_impl; [exact H|]. by intros c [? _]. Qed.

(** Digits never start a [0x]/[0o]/[0b] literal. *)
Lemma non_decimal_digits cs : Forall digit_char cs -> non_decimal_literal cs = None.
Proof.
  destruct cs as [|z [|x r]]; [done|done|].
  intros (_ & ((_ & Hx & _) & _)%Forall_cons)%Forall_cons. simpl.
  rewrite Hx. by destruct (Ascii.eqb z "0").
Qed.

(** A literal that starts with a digit has no sign. *)
Lemma decimal_literal_digit c cs :
  digit_char c -> decimal_literal (c :: cs) = unsigned_literal (c :: cs).
Proof.
  intros (_ & _ & Hd). simpl.
  destruct (Ascii.eqb_spec c "+") as [->|]; [by destruct Hd|].
  destruct (Ascii.eqb_spec c "-") as [->|]; [by destruct Hd|done].
Qed.

(** [Number(String(n))] is [n] for an integer that [String] prints as
    digits (below [10^21]); such an integer is far inside the range of
    doubles. *)
Lemma string_to_number_int_to_string (z : Z) :
  Z.abs z < 10 ^ 21 -> string_to_number (int_to_string z) = Fin (inject_Z z).
Proof.
  intros Hz. assert (Z.abs z < 2 ^ 1024 - 2 ^ 970) as Hr.
  { enough (10 ^ 21 < 2 ^ 1024 - 2 ^ 970) by lia. by apply Z.ltb_lt. }
  unfold string_to_number, int_to_string, int_chars.
  rewrite String.list_ascii_of_string_of_list_ascii.
  set (d := Nat.to_uint (Z.abs_nat z)).
  assert (Hd : Z.of_nat (Nat.of_uint d) = Z.abs z)
    by (subst d; rewrite DecimalNat.Unsigned.of_to; lia).
  pose proof (uint_chars_digits d) as Hdig.
  pose proof (unsigned_literal_uint d) as Hlit.
  destruct (uint_chars d) as [|c cs] eqn:E.
  { apply uint_chars_nil in E. rewrite E in Hd.
    destruct (Z.ltb_spec z 0); [lia|]. by replace z with 0 by lia. }
  specialize (Hlit ltac:(done)).
  destruct (Z.ltb_spec z 0) as [Hs|Hs]; simpl app.
  - rewrite trim_id; [|constructor; [done|by apply digit_char_not_ws]].
    unfold numeric_literal. simpl. rewrite Hlit.
    rewrite Hd, to_double_Z by lia.
    replace (inject_Z z) with (inject_Z (- Z.abs z)) by (f_equal; lia). reflexivity.
  - rewrite trim_id; [|by apply digit_char_not_ws].
    unfold numeric_literal. rewrite non_decimal_digits; [|done].
    apply Forall_cons in Hdig as [Hc _].
    rewrite decimal_literal_digit, Hlit; [|done].
    rewrite Hd, Z.abs_eq, to_double_Z by lia. done.
Qed.
End NumberToString.
