(* ===== verification/DraftStore.v ===== *)
(** * DraftStore: the draft product and its state updaters

    [ProductPage] keeps the product being created or edited in the React
    state [tempProduct].  This file models that draft as a JavaScript
    object ([obj]) and each updater the page hands to [setTempProduct]
    as a function from the previous draft to the next
    (src/pages/ProductPage.jsx, lines 27-39, 141-144 and 167-203).  The
    image-list updaters spread [pre.imagesUrl], which throws when the
    draft has no array there; they return a [result]. *)

From S2P Require Import Prelude JsValue.
From Stdlib Require Import QArith_base.
From Stdlib Require String.

Local Close Scope Q_scope.
Local Open Scope js_scope.

Module DraftStore.
Import StringToNumber.

(** [addNewProduct]: the template of a new product. *)
Definition addNewProduct : obj :=
  list_to_map
    [("title", JStr ""); ("category", JStr "");
     ("origin_price", JInt 0); ("price", JInt 0);
     ("unit", JStr ""); ("description", JStr ""); ("content", JStr "");
     ("is_enabled", JInt 1); ("imageUrl", JStr "");
     ("imagesUrl", JArr []); ("trending", JInt 0)].

(** [e.target] of a change event, as [handleModalInputChange]
    destructures it. *)
Record input_target : Type := {
  name : string;
  value : string;
  type : string;
  checked : bool
}.

(** [finalValue]: the prices and [is_enabled] go through [Number] and
    unary [+] (both StringToNumber on a string), a checkbox becomes 1 or
    0, anything else is stored as typed. *)
Definition finalValue (t : input_target) : jsval :=
  if bool_decide (name t ∈ ["price"; "origin_price"]) then
    JNum (string_to_number (value t))
  else if String.eqb (name t) "is_enabled" then
    JNum (string_to_number (value t))
  else if String.eqb (type t) "checkbox" then
    JInt (if checked t then 1 else 0)
  else JStr (value t).

(** [setTempProduct((pre) => ({ ...pre, [name]: finalValue }))] *)
Definition handleModalInputChange (t : input_target) (pre : obj) : obj :=
  <[name t := finalValue t]> pre.

(** [handleImageChange(index, value)]: copy the image list, assign the
    slot, store the copy. *)
Definition handleImageChange (index : nat) (v : string) (pre : obj) : result obj :=
  newImages ← js_spread (pre.["imagesUrl"]);
  mret (<["imagesUrl" := JArr (js_array_set newImages index (JStr v))]> pre).

(** [handleAddImage]: [[...pre.imagesUrl, ""]]. *)
Definition handleAddImage (pre : obj) : result obj :=
  newImages ← js_spread (pre.["imagesUrl"]);
  mret (<["imagesUrl" := JArr (newImages ++ [JStr ""])]> pre).

(** [handleRemoveImage]: copy the list and [pop] it. *)
Definition handleRemoveImage (prev : obj) : result obj :=
  newImages ← js_spread (prev.["imagesUrl"]);
  mret (<["imagesUrl" := JArr (js_pop newImages)]> prev).

(** The updater of a successful [handleUpload]:
    [{ ...pre, imageUrl: res.data.imageUrl }]. *)
Definition setUploadedImage (imageUrl : jsval) (pre : obj) : obj :=
  <["imageUrl" := imageUrl]> pre.

(** ** Shapes of a draft *)

Definition is_number (v : jsval) : Prop :=
  match v with JNum _ => True | _ => False end.

Definition is_string (v : jsval) : Prop :=
  match v with JStr _ => True | _ => False end.

(** The image list of the draft is an array of strings. *)
Definition images_of (p : obj) : option (list jsval) :=
  match p.["imagesUrl"] with JArr xs => Some xs | _ => None end.

(** What the spec asks of each field of a draft: both prices are
    numbers, [is_enabled] is 0 or 1, the image list is an array of at
    most five strings; other fields are free. *)
Definition field_ok (k : string) (v : jsval) : Prop :=
  if decide (k = "price" \/ k = "origin_price") then is_number v
  else if decide (k = "is_enabled") then v = JInt 0 \/ v = JInt 1
  else if decide (k = "imagesUrl") then
    match v with JArr xs => length xs <= 5 /\ Forall is_string xs | _ => False end
  else True.

(** A well-formed draft: every field is as the spec asks (a missing
    field reads [undefined], so the four constrained fields exist). *)
Definition draft_wf (p : obj) : Prop := forall k, field_ok k (p.[k]).

(** ** Lemmas on the updaters *)

Lemma js_get_insert_eq (p : obj) k v : (<[k := v]> p).[k] = v.
Proof. unfold js_get. by rewrite lookup_insert_eq. Qed.

Lemma js_get_insert_ne (p : obj) k k' v : k <> k' -> (<[k := v]> p).[k'] = p.[k'].
Proof. intros Hne. unfold js_get. by rewrite lookup_insert_ne. Qed.

#[export] Hint Rewrite js_get_insert_eq : admin_rw.

Lemma images_of_spread (p : obj) xs :
  images_of p = Some xs -> js_spread (p.["imagesUrl"]) = Ok xs.
Proof. unfold images_of. by destruct (p.["imagesUrl"]); intros; simplify_eq. Qed.

Lemma images_of_insert (p : obj) xs : images_of (<["imagesUrl" := JArr xs]> p) = Some xs.
Proof. unfold images_of. by rewrite js_get_insert_eq. Qed.

Lemma images_of_insert_ne (p : obj) k v :
  k <> "imagesUrl" -> images_of (<[k := v]> p) = images_of p.
Proof. intros Hk. unfold images_of. by rewrite js_get_insert_ne. Qed.

#[export] Hint Rewrite images_of_insert : admin_rw.

(** The image updaters on a draft with an image list. *)
Lemma handleAddImage_ok (p : obj) xs :
  images_of p = Some xs ->
  handleAddImage p = Ok (<["imagesUrl" := JArr (xs ++ [JStr ""])]> p).
Proof. intros H. unfold handleAddImage. by rewrite (images_of_spread p xs H). Qed.

Lemma handleRemoveImage_ok (p : obj) xs :
  images_of p = Some xs ->
  handleRemoveImage p = Ok (<["imagesUrl" := JArr (removelast xs)]> p).
Proof. intros H. unfold handleRemoveImage. by rewrite (images_of_spread p xs H). Qed.

Lemma handleImageChange_ok (p : obj) xs i v :
  images_of p = Some xs ->
  handleImageChange i v p = Ok (<["imagesUrl" := JArr (js_array_set xs i (JStr v))]> p).
Proof. intros H. unfold handleImageChange. by rewrite (images_of_spread p xs H). Qed.

Lemma finalValue_price t :
  name t = "price" \/ name t = "origin_price" ->
  finalValue t = JNum (string_to_number (value t)).
Proof.
  intros Hn. unfold finalValue. rewrite bool_decide_eq_true_2; [done|].
  destruct Hn as [-> | ->]; set_solver.
Qed.

Lemma finalValue_is_enabled t :
  name t = "is_enabled" -> finalValue t = JNum (string_to_number (value t)).
Proof. intros Hn. unfold finalValue. by rewrite Hn. Qed.

(** [{ ...pre, imagesUrl }] with the array [pre] already holds. *)
Lemma insert_images_id (p : obj) xs :
  images_of p = Some xs -> <["imagesUrl" := JArr xs]> p = p.
Proof.
  unfold images_of, js_get. intros H. apply insert_id.
  destruct (p !! "imagesUrl") as [[]|]; simplify_eq/=; done.
Qed.

Lemma field_ok_other k v :
  k <> "price" -> k <> "origin_price" -> k <> "is_enabled" -> k <> "imagesUrl" ->
  field_ok k v.
Proof.
  intros H1 H2 H3 H4. unfold field_ok.
  rewrite decide_False; [|intuition]. by rewrite !decide_False.
Qed.

Lemma field_ok_price k n : k = "price" \/ k = "origin_price" -> field_ok k (JNum n).
Proof. intros Hk. unfold field_ok. by rewrite decide_True. Qed.

Lemma field_ok_enabled (b : bool) :
  field_ok "is_enabled" (JInt (if b then 1 else 0)).
Proof. unfold field_ok. rewrite decide_False; [|intuition congruence]. rewrite decide_True; [|done]. destruct b; auto. Qed.

Lemma field_ok_images ys :
  length ys <= 5 -> Forall is_string ys -> field_ok "imagesUrl" (JArr ys).
Proof.
  intros. unfold field_ok. rewrite decide_False; [|intuition congruence].
  by rewrite decide_False, decide_True.
Qed.

(** Storing an acceptable value keeps a draft well formed. *)
Lemma draft_wf_insert (p : obj) k v :
  draft_wf p -> field_ok k v -> draft_wf (<[k := v]> p).
Proof.
  intros Hp Hv k'. destruct (decide (k = k')) as [<-|Hne].
  - by rewrite js_get_insert_eq.
  - rewrite js_get_insert_ne; [apply Hp|done].
Qed.

(** The image list of a well-formed draft. *)
Lemma draft_wf_images (p : obj) :
  draft_wf p -> exists xs, images_of p = Some xs /\ length xs <= 5 /\ Forall is_string xs.
Proof.
  intros Hp. specialize (Hp "imagesUrl"). unfold field_ok in Hp.
  rewrite decide_False in Hp; [|intuition congruence].
  rewrite decide_False, decide_True in Hp; [|done|done].
  unfold images_of. destruct (p.["imagesUrl"]); try done. eauto.
Qed.

(** The template of a new product is well formed. *)
Lemma draft_wf_addNewProduct : draft_wf addNewProduct.
Proof.
  intros k. unfold field_ok.
  case_decide as H1; [by destruct H1 as [-> | ->]|].
  case_decide as H2; [subst; by right|].
  case_decide as H3; [subst; split; [simpl; lia|constructor]|].
  exact I.
Qed.

#[export] Hint Resolve draft_wf_insert field_ok_price field_ok_enabled field_ok_images : admin.

(** ** Properties of the updaters *)

(** C1: Numeric coercion of the prices: whatever text is typed into
    the price or original-price field, the draft stores the number
    [Number(value)] reads from it, never the text; the other fields of
    the draft are unchanged. *)
Theorem handleModalInputChange_price (t : input_target) (pre : obj) :
  name t = "price" \/ name t = "origin_price" ->
  (handleModalInputChange t pre).[name t] = JNum (string_to_number (value t)) /\
  forall k, k <> name t -> (handleModalInputChange t pre).[k] = pre.[k].
Proof.
  intros Hn. unfold handleModalInputChange. split.
  - by rewrite js_get_insert_eq, finalValue_price.
  - intros k Hk. by apply js_get_insert_ne.
Qed.

(** C2: The enable flag after a radio choice: choosing the radio
    button with value "1" stores the number 1, the one with value "0"
    stores 0. *)
Theorem handleModalInputChange_is_enabled_radio (t : input_target) (pre : obj) :
  name t = "is_enabled" -> value t = "1" \/ value t = "0" ->
  (handleModalInputChange t pre).["is_enabled"] =
    JInt (if String.eqb (value t) "1" then 1 else 0).
Proof.
  intros Hn Hv. unfold handleModalInputChange. rewrite <- Hn, js_get_insert_eq.
  rewrite finalValue_is_enabled; [|done]. by destruct Hv as [-> | ->].
Qed.

(** C3: Unary plus does not confine [is_enabled] to 0 and 1: a change
    event on [is_enabled] whose value does not read as 0 or 1 (for
    instance "yes", read as NaN, or "2") stores that number, so the
    flag is then neither 0 nor 1.  The spec asks for {0,1} for any
    input. *)
Theorem handleModalInputChange_is_enabled_other (t : input_target) (pre : obj) :
  name t = "is_enabled" ->
  string_to_number (value t) <> Fin 0 -> string_to_number (value t) <> Fin 1 ->
  (handleModalInputChange t pre).["is_enabled"] <> JInt 0 /\
  (handleModalInputChange t pre).["is_enabled"] <> JInt 1.
Proof.
  intros Hn H0 H1. unfold handleModalInputChange. rewrite <- Hn, js_get_insert_eq.
  rewrite finalValue_is_enabled; [|done].
  split; intros E; injection E as E; [apply H0|apply H1]; by rewrite E.
Qed.

(** C5: Adding an image slot and removing the last one gives back the
    draft as it was: [handleRemoveImage] undoes [handleAddImage]. *)
Theorem handleAddImage_handleRemoveImage (p : obj) xs :
  images_of p = Some xs -> (handleAddImage p ≫= handleRemoveImage) = Ok p.
Proof.
  intros H. rewrite (handleAddImage_ok p xs H). simpl.
  rewrite (handleRemoveImage_ok _ (xs ++ [JStr ""])); [|apply images_of_insert].
  rewrite removelast_snoc, insert_insert_eq. by rewrite insert_images_id.
Qed.

(** C6: Editing an image slot in range replaces exactly that slot: the
    list keeps its length, slot [i] holds the new text, every other
    slot and every other field is unchanged. *)
Theorem handleImageChange_in_range (p : obj) xs i v :
  images_of p = Some xs -> i < length xs ->
  exists p', handleImageChange i v p = Ok p' /\
    (exists ys, images_of p' = Some ys /\ length ys = length xs /\
       ys !! i = Some (JStr v) /\ forall j, j <> i -> ys !! j = xs !! j) /\
    forall k, k <> "imagesUrl" -> p'.[k] = p.[k].
Proof.
  intros H Hi. rewrite (handleImageChange_ok p xs i v H). eexists; split; [done|]. split.
  - eexists; split; [apply images_of_insert|]. split; [by apply length_js_array_set_lt|].
    split; [apply js_array_set_lookup_eq|].
    intros j Hj. destruct (decide (j < length xs)) as [Hlt|Hge].
    + by apply js_array_set_lookup_ne.
    + unfold js_array_set. rewrite decide_True; [|done].
      rewrite list_lookup_insert_ne; [done|lia].
  - intros k Hk. by apply js_get_insert_ne.
Qed.

(** C7: The image updaters on a draft without an image list (a
    product the API returned without [imagesUrl]): spreading
    [undefined] throws [TypeError] in each of them. *)
Theorem image_updaters_throw (p : obj) :
  p.["imagesUrl"] = JUndefined ->
  handleAddImage p = Throw TypeError /\ handleRemoveImage p = Throw TypeError /\
  forall i v, handleImageChange i v p = Throw TypeError.
Proof.
  intros H. unfold handleAddImage, handleRemoveImage, handleImageChange.
  rewrite H. done.
Qed.

(** ** Witnesses on concrete drafts *)

(** Typing "35" into the price of a new product stores the number 35. *)
Lemma handleModalInputChange_price_witness :
  let t := {| name := "price"; value := "35"; type := "number"; checked := false |} in
  (name t = "price" \/ name t = "origin_price") /\
  (handleModalInputChange t addNewProduct).[name t] = JNum (string_to_number (value t)) /\
  (forall k, k <> name t -> (handleModalInputChange t addNewProduct).[k] = addNewProduct.[k]).
Proof.
  intros t. split; [by left|]. apply (handleModalInputChange_price t addNewProduct). by left.
Defined.

Lemma handleModalInputChange_is_enabled_radio_witness :
  let t := {| name := "is_enabled"; value := "0"; type := "radio"; checked := true |} in
  name t = "is_enabled" /\ (value t = "1" \/ value t = "0") /\
  (handleModalInputChange t addNewProduct).["is_enabled"] =
    JInt (if String.eqb (value t) "1" then 1 else 0).
Proof.
  intros t. split; [done|]. split; [by right|].
  apply handleModalInputChange_is_enabled_radio; [done|by right].
Defined.

Lemma handleModalInputChange_is_enabled_other_witness :
  let t := {| name := "is_enabled"; value := "yes"; type := "radio"; checked := true |} in
  name t = "is_enabled" /\ string_to_number (value t) <> Fin 0 /\
  string_to_number (value t) <> Fin 1 /\
  (handleModalInputChange t addNewProduct).["is_enabled"] <> JInt 0 /\
  (handleModalInputChange t addNewProduct).["is_enabled"] <> JInt 1.
Proof.
  intros t. assert (Hn : string_to_number (value t) = NaN) by reflexivity.
  split; [done|]. split; [by rewrite Hn|]. split; [by rewrite Hn|].
  apply handleModalInputChange_is_enabled_other; by rewrite ?Hn.
Defined.

Lemma handleAddImage_handleRemoveImage_witness :
  let p := <["imagesUrl" := JArr [JStr "a"; JStr "b"]]> addNewProduct in
  images_of p = Some [JStr "a"; JStr "b"] /\ (handleAddImage p ≫= handleRemoveImage) = Ok p.
Proof.
  intros p. assert (H : images_of p = Some [JStr "a"; JStr "b"]) by apply images_of_insert.
  split; [exact H|]. exact (handleAddImage_handleRemoveImage p _ H).
Defined.

Lemma handleImageChange_in_range_witness :
  let p := <["imagesUrl" := JArr [JStr "a"; JStr "b"]]> addNewProduct in
  images_of p = Some [JStr "a"; JStr "b"] /\ 1 < length [JStr "a"; JStr "b"] /\
  exists p', handleImageChange 1 "c" p = Ok p' /\
    (exists ys, images_of p' = Some ys /\ length ys = 2 /\
       ys !! 1 = Some (JStr "c") /\ forall j, j <> 1 -> ys !! j = [JStr "a"; JStr "b"] !! j) /\
    forall k, k <> "imagesUrl" -> p'.[k] = p.[k].
Proof.
  intros p. assert (H : images_of p = Some [JStr "a"; JStr "b"]) by apply images_of_insert.
  split; [exact H|]. split; [simpl; lia|].
  apply (handleImageChange_in_range p _ 1 "c" H). simpl; lia.
Defined.

Lemma image_updaters_throw_witness :
  let p := delete "imagesUrl" addNewProduct in
  p.["imagesUrl"] = JUndefined /\
  handleAddImage p = Throw TypeError /\ handleRemoveImage p = Throw TypeError /\
  forall i v, handleImageChange i v p = Throw TypeError.
Proof.
  intros p. assert (H : p.["imagesUrl"] = JUndefined) by reflexivity.
  split; [exact H|]. exact (image_updaters_throw p H).
Defined.
End DraftStore.
