(* ===== verification/ProductModalView.v ===== *)
(** * ProductModalView: what the create/edit dialog renders, and the
      draft edits its controls can produce

    [ProductModal]'s JSX (src/components/ProductModal.jsx, lines 75-356)
    renders, from [modalMode] and [tempProduct], a title, a list of form
    controls bound to the draft's fields, image previews, and two
    buttons guarded by conditions on [imagesUrl].  This file renders
    that output as data ([view]) and defines the draft events a user can
    cause on it: a change on a rendered control (with the value the
    browser reports for the input's type), a click on a rendered
    button, and the completion of an upload.  Only what is rendered can
    be used: this is where the guards of the add and remove buttons
    protect the draft. *)

From S2P Require Import Prelude JsValue DraftStore.
From Stdlib Require Import QArith_base Ascii Lqa.
From Stdlib Require String.

Local Close Scope Q_scope.
Local Open Scope js_scope.

Module ProductModalView.
Import StringToNumber DraftStore.

(** The page callback a control's [onChange] calls. *)
Inductive handler : Type :=
| OnInputChange
| OnImageChange (index : nat)
| OnUploadImage.

(** A rendered form control: its [type] and [name] attributes, the value
    it is bound to, whether it is checked, and its [onChange]. *)
Record control : Type := {
  c_type : string;
  c_name : string;
  c_value : jsval;
  c_checked : bool;
  c_on : handler
}.

Definition field_control (ty nm : string) (tp : obj) : control :=
  {| c_type := ty; c_name := nm; c_value := tp.[nm]; c_checked := false;
     c_on := OnInputChange |}.

(** One [<input type="url">] per element of [imagesUrl], wired to
    [onImageChange(index, e.target.value)]. *)
Definition image_control (index : nat) (url : jsval) : control :=
  {| c_type := "url"; c_name := ""; c_value := url; c_checked := false;
     c_on := OnImageChange index |}.

(** [tempProduct.imagesUrl?.map(...)]: nothing for [undefined] or
    [null]; a value without a [map] method throws. *)
Definition image_controls (tp : obj) : result (list control) :=
  match tp.["imagesUrl"] with
  | JUndefined | JNull => Ok []
  | JArr xs => Ok (imap image_control xs)
  | _ => Throw TypeError
  end.

(** The two radio buttons of [is_enabled], with their fixed [value]
    attributes and [checked={tempProduct.is_enabled === 1}] / [=== 0]. *)
Definition radio_controls (tp : obj) : list control :=
  [ {| c_type := "radio"; c_name := "is_enabled"; c_value := JStr "1";
       c_checked := js_eq_num (tp.["is_enabled"]) 1; c_on := OnInputChange |};
    {| c_type := "radio"; c_name := "is_enabled"; c_value := JStr "0";
       c_checked := js_eq_num (tp.["is_enabled"]) 0; c_on := OnInputChange |} ].

(** The controls before the image list, in document order. *)
Definition form_controls (tp : obj) : list control :=
  [ field_control "text" "title" tp;
    field_control "textarea" "content" tp;
    field_control "textarea" "description" tp;
    field_control "number" "origin_price" tp;
    field_control "number" "price" tp;
    field_control "text" "unit" tp;
    field_control "text" "category" tp;
    {| c_type := "file"; c_name := "fileUpload"; c_value := JUndefined;
       c_checked := false; c_on := OnUploadImage |};
    field_control "url" "imageUrl" tp ].

(** All the controls of the form, in document order. *)
Definition controls (tp : obj) : result (list control) :=
  imgs ← image_controls tp;
  mret (form_controls tp ++ imgs ++ radio_controls tp).

(** The "add image" button: [tempProduct.imagesUrl?.length < 5 &&
    tempProduct.imagesUrl[tempProduct.imagesUrl.length - 1] !== ""].
    [undefined < 5] is false. *)
Definition canAddImage (tp : obj) : bool :=
  match js_length (tp.["imagesUrl"]) with
  | Some n => (n <? 5)%nat &&
              negb (js_eq_str (js_index (tp.["imagesUrl"]) (Z.of_nat n - 1)) "")
  | None => false
  end.

(** The "remove last image" button: [tempProduct.imagesUrl?.length > 0]. *)
Definition canRemoveImage (tp : obj) : bool :=
  match js_length (tp.["imagesUrl"]) with
  | Some n => (0 <? n)%nat
  | None => false
  end.

(** The dialog's title and submit label: [modalMode === "create"]. *)
Inductive title : Type :=
| TitleCreate
| TitleEdit.

Definition modal_title (modalMode : jsval) : title :=
  if js_eq_str modalMode "create" then TitleCreate else TitleEdit.

(** The buttons outside the form: the header's close button and the
    footer's Cancel call [handleClose], that is [onClose]; the footer's
    confirm button calls [onSubmit] and is labelled by the mode
    ([確認新增] or [確認修改]). *)
Inductive dialog_button : Type :=
| CloseButton
| CancelButton
| ConfirmButton (label : title).

Definition dialog_buttons (modalMode : jsval) : list dialog_button :=
  [CloseButton; CancelButton; ConfirmButton (modal_title modalMode)].

(** [{tempProduct.imageUrl && <img src={tempProduct.imageUrl}>}]. *)
Definition main_preview (tp : obj) : bool := js_truthy (tp.["imageUrl"]).

Record view : Type := {
  v_title : title;
  v_controls : list control;
  v_main_preview : bool;
  v_previews : list bool;
  v_add_button : bool;
  v_remove_button : bool;
  v_buttons : list dialog_button
}.

(** The whole render: the previews are [{tempProduct.imageUrl && <img>}]
    and [{url && <img>}] for each image. *)
Definition render (modalMode : jsval) (tp : obj) : result view :=
  cs ← controls tp;
  mret {| v_title := modal_title modalMode;
          v_controls := cs;
          v_main_preview := main_preview tp;
          v_previews := match tp.["imagesUrl"] with
                        | JArr xs => map js_truthy xs
                        | _ => []
                        end;
          v_add_button := canAddImage tp;
          v_remove_button := canRemoveImage tp;
          v_buttons := dialog_buttons modalMode |}.

(** ** Draft events *)

(** The value an [<input type="number">] reports: the browser's value
    sanitization keeps a valid floating-point number (optional [-],
    digits with an optional fraction of one or more digits, or a
    fraction alone, optional exponent) and reports [""] otherwise. *)
Definition float_body (cs : list ascii) : bool :=
  let '(_, ni, r1) := take_digits 10 cs 0 0 in
  let '(nf, frac_ok, r2) :=
    match r1 with
    | c :: r =>
        if Ascii.eqb c "."%char then
          let '(_, nf, r2) := take_digits 10 r 0 0 in (nf, (0 <? nf)%nat, r2)
        else (0%nat, true, r1)
    | [] => (0%nat, true, [])
    end in
  (0 <? ni + nf)%nat && frac_ok &&
  match exponent_part r2 with Some _ => true | None => false end.

Definition valid_float (s : string) : bool :=
  match String.list_ascii_of_string s with
  | c :: r => if Ascii.eqb c "-"%char then float_body r else float_body (c :: r)
  | [] => float_body []
  end.

(** The value the browser parses from a valid floating-point number:
    the literal's exact value, with its sign. *)
Definition float_value (s : string) : option Q :=
  match String.list_ascii_of_string s with
  | c :: r =>
      if Ascii.eqb c "-"%char then option_map Qopp (StringToNumber.unsigned_decimal r)
      else StringToNumber.unsigned_decimal (c :: r)
  | [] => None
  end.

(** A value that does not round to an infinity. *)
Definition in_double_range (q : Q) : bool :=
  negb (Qle_bool double_overflow q) && negb (Qle_bool q (- double_overflow)).

(** Line feed and carriage return, and the ASCII whitespace of HTML
    (tab, line feed, form feed, carriage return, space). *)
Definition is_newline (c : ascii) : bool :=
  Ascii.eqb c "010"%char || Ascii.eqb c "013"%char.

Definition is_ascii_whitespace (c : ascii) : bool :=
  is_newline c || Ascii.eqb c "009"%char || Ascii.eqb c "012"%char || Ascii.eqb c " "%char.

Fixpoint drop_while (f : ascii -> bool) (cs : list ascii) : list ascii :=
  match cs with
  | c :: r => if f c then drop_while f r else cs
  | [] => []
  end.

Definition strip_newlines (s : string) : string :=
  String.string_of_list_ascii (filter (fun c => negb (is_newline c)) (String.list_ascii_of_string s)).

Definition strip_whitespace (s : string) : string :=
  String.string_of_list_ascii
    (rev (drop_while is_ascii_whitespace
            (rev (drop_while is_ascii_whitespace (String.list_ascii_of_string s))))).

(** The value sanitization of the input types the dialog uses:
    [number] keeps the text when it is a valid floating-point number
    whose value is a finite double and reports [""] otherwise; [text]
    strips newlines; [url] strips newlines and then leading and
    trailing whitespace; a [textarea] has none. *)
Definition sanitize (ty s : string) : string :=
  if String.eqb ty "number" then
    (if valid_float s && default false (in_double_range <$> float_value s) then s else "")
  else if String.eqb ty "url" then strip_whitespace (strip_newlines s)
  else if String.eqb ty "text" then strip_newlines s
  else s.

(** [e.target] when the user changes control [c] to the text [s]; a
    radio button reports its own [value] and becomes checked. *)
Definition event_target (c : control) (s : string) : input_target :=
  if String.eqb (c_type c) "radio" then
    {| name := c_name c;
       value := match c_value c with JStr v => v | _ => "" end;
       type := c_type c; checked := true |}
  else
    {| name := c_name c; value := sanitize (c_type c) s;
       type := c_type c; checked := false |}.

(** What a change on a control does to the draft; a file input calls
    [handleUpload], whose effect on the draft is [Uploaded] below. *)
Definition control_change (c : control) (s : string) (tp : obj) : option (result obj) :=
  match c_on c with
  | OnInputChange => Some (Ok (handleModalInputChange (event_target c s) tp))
  | OnImageChange index => Some (handleImageChange index (sanitize (c_type c) s) tp)
  | OnUploadImage => None
  end.

Inductive draft_event : Type :=
| Change (i : nat) (s : string)
| ClickAdd
| ClickRemove
| Uploaded (url : string).

(** The draft after a user event, or [None] when the dialog does not
    offer it (no such control, a hidden button). *)
Definition ui_apply (tp : obj) (ev : draft_event) : option (result obj) :=
  match ev with
  | Change i s =>
      match controls tp with
      | Ok cs => match cs !! i with
                 | Some c => control_change c s tp
                 | None => None
                 end
      | Throw _ => None
      end
  | ClickAdd => if canAddImage tp then Some (handleAddImage tp) else None
  | ClickRemove => if canRemoveImage tp then Some (handleRemoveImage tp) else None
  | Uploaded url => Some (Ok (setUploadedImage (JStr url) tp))
  end.

(** One draft edit through the dialog. *)
Definition ui_step (tp : obj) (ev : draft_event) (tp' : obj) : Prop :=
  ui_apply tp ev = Some (Ok tp').

(** ** Lemmas *)

Lemma image_controls_ok (p : obj) xs :
  images_of p = Some xs -> image_controls p = Ok (imap image_control xs).
Proof. unfold images_of, image_controls. by destruct (p.["imagesUrl"]); intros; simplify_eq. Qed.

(** A well-formed draft renders. *)
Lemma render_wf (m : jsval) (p : obj) : draft_wf p -> exists v, render m p = Ok v.
Proof.
  intros Hp. destruct (draft_wf_images p Hp) as (xs & Hxs & _).
  unfold render, controls. rewrite (image_controls_ok p xs Hxs). by eexists.
Qed.

(** The value a form event carries for a field is acceptable for it,
    unless it is [is_enabled] with a value other than "1"/"0". *)
Lemma finalValue_ok t :
  name t <> "imagesUrl" ->
  (name t = "is_enabled" -> value t = "1" \/ value t = "0") ->
  field_ok (name t) (finalValue t).
Proof.
  intros Himg Hen. unfold finalValue. case_bool_decide as Hp.
  { apply field_ok_price. apply elem_of_cons in Hp as [Hp|Hp]; [by left|]. apply elem_of_cons in Hp as [Hp|Hp]; [by right|by apply elem_of_nil in Hp]. }
  destruct (String.eqb_spec (name t) "is_enabled") as [He|He].
  { rewrite He. destruct (Hen He) as [-> | ->]; [apply (field_ok_enabled true)|apply (field_ok_enabled false)]. }
  apply field_ok_other; [set_solver|set_solver|done|done].
Qed.

(** A change on a field control: the draft gets the field's final value. *)
Local Ltac field_change_case Hr :=
  injection Hr as <-; eexists; split; [reflexivity|];
  apply draft_wf_insert; [done|];
  first [exact I | by left | by right
        | apply finalValue_ok; cbn; [discriminate|intros ?; discriminate]].

(** Every control the dialog renders for a well-formed draft produces
    a well-formed draft when changed. *)
Lemma control_change_wf (p : obj) xs c s r :
  draft_wf p -> images_of p = Some xs ->
  c ∈ form_controls p ++ imap image_control xs ++ radio_controls p ->
  control_change c s p = Some r -> exists p', r = Ok p' /\ draft_wf p'.
Proof.
  intros Hp Hxs Hc Hr.
  destruct (draft_wf_images p Hp) as (xs' & Hxs' & Hlen & Hstr). rewrite Hxs in Hxs'. simplify_eq.
  apply elem_of_app in Hc as [Hc|Hc]; [|apply elem_of_app in Hc as [Hc|Hc]].
  - repeat (apply elem_of_cons in Hc as [->|Hc]); [..|by apply elem_of_nil in Hc].
    all: cbn in Hr; try discriminate Hr; field_change_case Hr.
  - apply elem_of_lookup_imap in Hc as (i & url & -> & Hi). cbn in Hr. injection Hr as <-.
    rewrite (handleImageChange_ok p xs') by done. eexists; split; [done|].
    apply draft_wf_insert; [done|]. apply field_ok_images.
    + rewrite length_js_array_set_lt; [done|]. by eapply lookup_lt_Some.
    + unfold js_array_set. rewrite decide_True; [|by eapply lookup_lt_Some].
      apply Forall_insert; [done|exact I].
  - repeat (apply elem_of_cons in Hc as [->|Hc]); [..|by apply elem_of_nil in Hc].
    all: cbn in Hr; field_change_case Hr.
Qed.

Lemma images_of_get (p : obj) xs : images_of p = Some xs -> p.["imagesUrl"] = JArr xs.
Proof. unfold images_of. by destruct (p.["imagesUrl"]); intros; simplify_eq. Qed.

Lemma canAddImage_length (p : obj) xs :
  images_of p = Some xs -> canAddImage p = true -> length xs < 5.
Proof.
  intros Hxs Ha. unfold canAddImage in Ha. rewrite (images_of_get p xs Hxs) in Ha.
  simpl in Ha. destruct (length xs <? 5)%nat eqn:E; [by apply Nat.ltb_lt|discriminate].
Qed.

Lemma canRemoveImage_nil (p : obj) : images_of p = Some [] -> canRemoveImage p = false.
Proof. intros H. unfold canRemoveImage. by rewrite (images_of_get p [] H). Qed.

(** What the add button leaves: the spread list and one empty slot. *)
Lemma handleAddImage_shape (p p' : obj) :
  handleAddImage p = Ok p' -> exists ys, p' = <["imagesUrl" := JArr (ys ++ [JStr ""])]> p.
Proof.
  unfold handleAddImage. destruct (js_spread (p.["imagesUrl"])) as [ys|]; [|done].
  intros [= <-]. eauto.
Qed.

(** After an append the add button is hidden: the last slot is empty. *)
Lemma canAddImage_after_add (p : obj) ys :
  canAddImage (<["imagesUrl" := JArr (ys ++ [JStr ""])]> p) = false.
Proof.
  unfold canAddImage. rewrite js_get_insert_eq. simpl. rewrite length_app. simpl.
  replace (Z.of_nat (length ys + 1) - 1)%Z with (Z.of_nat (length ys)) by lia.
  rewrite Nat2Z.id. assert (E : (0 <=? Z.of_nat (length ys))%Z = true) by (apply Z.leb_le; lia).
  rewrite E, lookup_app_r, Nat.sub_diag by lia. simpl. by rewrite ?andb_false_r.
Qed.

(** ** The fields the dialogs show as text *)

Lemma children_ok_insert (p : obj) ks k v :
  react_child v = true -> children_ok p ks = true -> children_ok (<[k := v]> p) ks = true.
Proof.
  unfold children_ok. rewrite !forallb_forall. intros Hv Hp k' Hk'.
  destruct (decide (k = k')) as [->|Hne]; [by rewrite js_get_insert_eq|].
  rewrite js_get_insert_ne by done. by apply Hp.
Qed.

Lemma children_ok_insert_other (p : obj) ks k v :
  k ∉ ks -> children_ok (<[k := v]> p) ks = children_ok p ks.
Proof.
  induction ks as [|k' ks IH]; intros Hk; [done|]. simpl.
  rewrite js_get_insert_ne by set_solver. rewrite IH by set_solver. done.
Qed.

Lemma finalValue_child t : react_child (finalValue t) = true.
Proof. unfold finalValue. by repeat case_match. Qed.

(** A step of the dialog writes strings or numbers into the fields it
    edits, and only touches the image list otherwise. *)
Lemma ui_apply_children (p : obj) ev p' ks :
  "imagesUrl" ∉ ks -> ui_apply p ev = Some (Ok p') ->
  children_ok p ks = true -> children_ok p' ks = true.
Proof.
  intros Hks Hu Hp. destruct ev as [i s| | |url]; simpl in Hu.
  - destruct (controls p) as [cs|]; [|done]. destruct (cs !! i) as [c|]; [|done].
    unfold control_change in Hu. destruct (c_on c); [injection Hu as <-|injection Hu as Hu|done].
    + apply children_ok_insert; [apply finalValue_child|done].
    + unfold handleImageChange in Hu. destruct (js_spread _); simpl in Hu; [injection Hu as <-|done].
      by rewrite children_ok_insert_other.
  - destruct (canAddImage p); [|done]. unfold handleAddImage in Hu. injection Hu as Hu.
    destruct (js_spread _); simpl in Hu; [injection Hu as <-|done]. by rewrite children_ok_insert_other.
  - destruct (canRemoveImage p); [|done]. unfold handleRemoveImage in Hu. injection Hu as Hu.
    destruct (js_spread _); simpl in Hu; [injection Hu as <-|done]. by rewrite children_ok_insert_other.
  - simplify_eq. by apply children_ok_insert.
Qed.

(** One step of the dialog on a well-formed draft succeeds and keeps it
    well formed. *)
Lemma ui_apply_wf (p : obj) ev r :
  draft_wf p -> ui_apply p ev = Some r -> exists p', r = Ok p' /\ draft_wf p'.
Proof.
  intros Hp Hr. destruct (draft_wf_images p Hp) as (xs & Hxs & Hlen & Hstr).
  destruct ev as [i s| | |url]; simpl in Hr.
  - unfold controls in Hr. rewrite (image_controls_ok p xs Hxs) in Hr. simpl in Hr.
    destruct (_ !! i) as [c|] eqn:Hi; [|done].
    eapply control_change_wf; [done|done| |done]. by eapply list_elem_of_lookup_2.
  - destruct (canAddImage p) eqn:Ha; [|done]. injection Hr as <-.
    rewrite (handleAddImage_ok p xs Hxs). eexists; split; [done|].
    apply draft_wf_insert; [done|]. apply field_ok_images.
    + rewrite length_app. simpl. pose proof (canAddImage_length p xs Hxs Ha). lia.
    + apply Forall_app. split; [done|]. by repeat constructor.
  - destruct (canRemoveImage p) eqn:Ha; [|done]. injection Hr as <-.
    rewrite (handleRemoveImage_ok p xs Hxs). eexists; split; [done|].
    apply draft_wf_insert; [done|]. apply field_ok_images.
    + rewrite length_removelast. lia.
    + by apply Forall_removelast.
  - injection Hr as <-. eexists; split; [done|]. apply draft_wf_insert; [done|].
    by apply field_ok_other.
Qed.

(** ** The number inputs never report a value that is not a number *)

Section NumberInput.
Import StringToNumber.

Local Abbreviation nonws := (fun c => is_ws c = false).

(** A digit, a sign, a point or an exponent mark is not white space. *)
Lemma digit_not_ws b c d : digit_value b c = Some d -> is_ws c = false.
Proof.
  intros H. destruct c as [[] [] [] [] [] [] [] []]; try reflexivity; vm_compute in H; discriminate H.
Qed.

(** [take_digits] splits off a run of digits; how many and what is left
    do not depend on the accumulator. *)
Lemma take_digits_split b cs acc k :
  exists ds, cs = ds ++ (take_digits b cs acc k).2 /\ Forall nonws ds.
Proof.
  revert acc k. induction cs as [|c cs IH]; intros acc k; simpl.
  - by exists [].
  - destruct (digit_value b c) as [d|] eqn:Hd; [|by exists []].
    destruct (IH (acc * b + d)%Z (S k)) as (ds & Heq & Hds).
    exists (c :: ds). split; [simpl; by f_equal|]. constructor; [|done]. by eapply digit_not_ws.
Qed.

Lemma take_digits_acc b cs acc acc' k :
  (take_digits b cs acc k).1.2 = (take_digits b cs acc' k).1.2 /\
  (take_digits b cs acc k).2 = (take_digits b cs acc' k).2.
Proof.
  revert acc acc' k. induction cs as [|c cs IH]; intros acc acc' k; simpl; [done|].
  destruct (digit_value b c); [apply IH|done].
Qed.

Lemma digits_only_nonws b cs v : digits_only b cs = Some v -> Forall nonws cs.
Proof.
  unfold digits_only. destruct (take_digits_split b cs 0 0) as (ds & Heq & Hds).
  destruct (take_digits b cs 0 0) as [[v' [|n]] [|c r]]; simpl in Heq; try discriminate.
  intros _. by rewrite Heq, app_nil_r.
Qed.

Lemma exponent_part_nonws cs e : exponent_part cs = Some e -> Forall nonws cs.
Proof.
  destruct cs as [|c cs]; [by constructor|]. simpl.
  destruct (Ascii.eqb c "e" || Ascii.eqb c "E") eqn:Hc; [|discriminate].
  assert (is_ws c = false) as Hcw.
  { apply orb_true_iff in Hc as [->%Ascii.eqb_eq| ->%Ascii.eqb_eq]; reflexivity. }
  destruct cs as [|sg ds]; [discriminate|].
  destruct (Ascii.eqb_spec sg "+") as [->|_];
    [|destruct (Ascii.eqb_spec sg "-") as [->|_]].
  - intros H. constructor; [done|]. constructor; [done|]. by eapply digits_only_nonws.
  - destruct (digits_only 10 ds) eqn:Hd; [|discriminate]. intros _.
    constructor; [done|]. constructor; [done|]. by eapply digits_only_nonws.
  - intros H. constructor; [done|]. by eapply digits_only_nonws.
Qed.

Lemma trim_start_nonws cs : Forall nonws cs -> trim_start cs = cs.
Proof. destruct 1 as [|c cs Hc _]; simpl; [done|]. by rewrite Hc. Qed.

Lemma trim_nonws cs : Forall nonws cs -> trim cs = cs.
Proof.
  intros H. unfold trim. rewrite (trim_start_nonws cs H).
  rewrite trim_start_nonws; [by rewrite reverse_involutive|by rewrite Forall_reverse].
Qed.

Lemma float_body_nonws cs : float_body cs = true -> Forall nonws cs.
Proof.
  unfold float_body. destruct (take_digits_split 10 cs 0 0) as (ds & Heq & Hds).
  destruct (take_digits 10 cs 0 0) as [[ip ni] r1]. simpl in Heq. rewrite Heq.
  intros H. apply Forall_app; split; [done|].
  destruct r1 as [|c r]; [constructor|].
  destruct (Ascii.eqb_spec c "."%char) as [->|Hc].
  - destruct (take_digits_split 10 r 0 0) as (ds2 & Heq2 & Hds2).
    destruct (take_digits 10 r 0 0) as [[x nf] r2]. simpl in Heq2. rewrite Heq2.
    destruct (exponent_part r2) eqn:He; [|by rewrite !andb_false_r in H].
    constructor; [reflexivity|]. apply Forall_app; split; [done|]. by eapply exponent_part_nonws.
  - destruct (exponent_part (c :: r)) eqn:He; [|by rewrite !andb_false_r in H].
    by eapply exponent_part_nonws.
Qed.

Lemma float_body_decimal cs : float_body cs = true -> exists q, unsigned_decimal cs = Some q.
Proof.
  unfold float_body, unsigned_decimal.
  destruct (take_digits 10 cs 0 0) as [[ip ni] r1].
  assert (forall n (e : option Z) (m : Z) (k : nat),
            (0 <? n)%nat && true && match e with Some _ => true | None => false end = true ->
            exists q, (if (n =? 0)%nat then None
                       else match e with Some e' => Some (scale10 m (e' - Z.of_nat k)) | None => None end)
                      = Some q) as Hfin.
  { intros n [e'|] m k H; [|by rewrite andb_false_r in H].
    destruct (Nat.eqb_spec n 0) as [->|]; [discriminate|by eexists]. }
  destruct r1 as [|c r]; [apply Hfin|].
  destruct (Ascii.eqb c "."%char); [|apply Hfin].
  destruct (take_digits_acc 10 r 0 ip 0) as [E1 E2].
  destruct (take_digits 10 r 0 0) as [[x nf] r2], (take_digits 10 r ip 0) as [[m nf'] r2'].
  simpl in E1, E2. subst. intros H. apply Hfin.
  by destruct (0 <? ni + nf')%nat, (0 <? nf')%nat, (exponent_part r2').
Qed.

(** A valid float is not a [0x]/[0o]/[0b] literal: after the [0] comes
    a letter that is neither a point nor an exponent mark. *)
Lemma float_body_non_decimal cs : float_body cs = true -> non_decimal_literal cs = None.
Proof.
  destruct cs as [|z [|x r]]; try reflexivity. simpl.
  destruct (Ascii.eqb z "0"%char) eqn:Hz; [|reflexivity].
  apply Ascii.eqb_eq in Hz as ->.
  destruct (prefix_base x) eqn:Hx; [|reflexivity].
  destruct x as [[] [] [] [] [] [] [] []]; vm_compute in Hx; try discriminate Hx;
    intros H; vm_compute in H; discriminate H.
Qed.

Lemma float_body_plus r : float_body ("+"%char :: r) = false.
Proof. reflexivity. Qed.

Lemma float_body_infinity : float_body infinity_chars = false.
Proof. reflexivity. Qed.

Lemma float_body_literal cs :
  float_body cs = true ->
  exists q, unsigned_decimal cs = Some q /\ unsigned_literal cs = Some (to_double q).
Proof.
  intros H. unfold unsigned_literal. rewrite decide_False; [|intros ->; by rewrite float_body_infinity in H].
  destruct (float_body_decimal cs H) as [q ->]. by exists q.
Qed.

Lemma double_bounds : (0 < double_underflow /\ double_underflow < double_overflow)%Q.
Proof. split; by vm_compute. Qed.

Local Ltac qle_cases :=
  repeat match goal with
  | |- context [Qle_bool ?a ?b] =>
      let E := fresh "E" in
      destruct (Qle_bool a b) eqn:E;
      [apply Qle_bool_iff in E|apply not_true_iff_false in E; rewrite Qle_bool_iff in E]
  end.

(** Rounding to the range of doubles commutes with the sign. *)
Lemma to_double_opp q : jsnum_neg (to_double q) = to_double (- q).
Proof.
  pose proof double_bounds. unfold to_double. qle_cases; simpl; try reflexivity; exfalso; lra.
Qed.

(** What a valid float denotes: the ECMAScript parser and the browser's
    parser agree on its value. *)
Lemma valid_float_value s :
  valid_float s = true -> exists q, float_value s = Some q /\ string_to_number s = to_double q.
Proof.
  unfold valid_float, float_value, string_to_number. destruct (String.list_ascii_of_string s) as [|c r].
  { intros H. by vm_compute in H. }
  destruct (Ascii.eqb_spec c "-"%char) as [->|Hc]; intros H.
  - rewrite trim_nonws by (constructor; [reflexivity|by apply float_body_nonws]).
    destruct (float_body_literal r H) as (q & Hd & Hq). exists (- q)%Q. rewrite Hd.
    split; [done|]. rewrite <- to_double_opp.
    unfold numeric_literal, decimal_literal. simpl. by destruct r; rewrite Hq.
  - rewrite trim_nonws by (by apply float_body_nonws).
    unfold numeric_literal. rewrite float_body_non_decimal by done.
    destruct (float_body_literal _ H) as (q & Hd & Hq). exists q. split; [done|].
    unfold decimal_literal.
    destruct (Ascii.eqb_spec c "+"%char) as [->|Hp]; [by rewrite float_body_plus in H|].
    destruct (Ascii.eqb_spec c "-"%char); [done|]. by rewrite Hq.
Qed.

Lemma in_double_range_finite q : in_double_range q = true -> exists q', to_double q = Fin q'.
Proof.
  unfold in_double_range, to_double. intros [H1 H2]%andb_true_iff.
  apply negb_true_iff in H1, H2. rewrite H1, H2. by case_match; eexists.
Qed.

(** What a number input reports always reads back through [Number] as
    a finite number: a valid float in the range of doubles is one, and
    [""] is 0. *)
Lemma sanitize_number_finite s : exists q, string_to_number (sanitize "number" s) = Fin q.
Proof.
  unfold sanitize. simpl. destruct (valid_float s) eqn:Hv; simpl; [|by exists 0%Q].
  destruct (valid_float_value s Hv) as (q & Hq & Hs). rewrite Hq. simpl.
  destruct (in_double_range q) eqn:Hr; [|by exists 0%Q]. rewrite Hs. by apply in_double_range_finite.
Qed.

(** ** The text a number input shows for an integer *)

Lemma float_body_uint d : NumberToString.uint_chars d <> [] -> float_body (NumberToString.uint_chars d) = true.
Proof.
  intros Hne. unfold float_body. pose proof (NumberToString.take_digits_uint d 0 0) as Ht.
  change (Z.of_nat 0) with 0%Z in Ht. rewrite Ht.
  destruct (length (NumberToString.uint_chars d)) eqn:Hl; [by destruct (NumberToString.uint_chars d)|].
  reflexivity.
Qed.

(** [String(n)] is a valid floating-point number whose value is [n]. *)
Lemma int_text_value n :
  valid_float (NumberToString.int_to_string n) = true /\
  float_value (NumberToString.int_to_string n) = Some (inject_Z n).
Proof.
  unfold valid_float, float_value, NumberToString.int_to_string, NumberToString.int_chars.
  rewrite String.list_ascii_of_string_of_list_ascii.
  remember (Nat.to_uint (Z.abs_nat n)) as d eqn:Ed.
  assert (Hd : Z.of_nat (Nat.of_uint d) = Z.abs n)
    by (subst d; rewrite DecimalNat.Unsigned.of_to; lia).
  assert (Hne : NumberToString.uint_chars d <> []) by (subst d; apply NumberToString.uint_chars_to_uint).
  pose proof (NumberToString.uint_chars_digits d) as Hdig.
  destruct (Z.ltb_spec n 0) as [Hs|Hs]; simpl app.
  - cbn -[float_body unsigned_decimal]. rewrite float_body_uint, NumberToString.unsigned_decimal_uint by done.
    rewrite Hd, Z.abs_neq by lia. split; [done|]. unfold Qopp. simpl. by rewrite Z.opp_involutive.
  - destruct (NumberToString.uint_chars d) as [|c r] eqn:E; [done|].
    apply Forall_cons in Hdig as [(_ & _ & Hc) _].
    destruct (Ascii.eqb_spec c "-"%char) as [->|_]; [by destruct Hc as [? Hc]; vm_compute in Hc|].
    rewrite <- E, float_body_uint, NumberToString.unsigned_decimal_uint by (rewrite E; discriminate).
    rewrite Hd, Z.abs_eq by lia. by split.
Qed.

Lemma in_double_range_Z n : (Z.abs n < 2 ^ 1024 - 2 ^ 970)%Z -> in_double_range (inject_Z n) = true.
Proof.
  intros Hn. unfold in_double_range. apply andb_true_iff.
  split; apply negb_true_iff, not_true_iff_false; rewrite Qle_bool_iff; unfold double_overflow;
    [rewrite <- Zle_Qle|rewrite <- inject_Z_opp, <- Zle_Qle]; lia.
Qed.

(** The browser keeps the text [String(n)] of an integer it prints as
    digits. *)
Lemma sanitize_int n :
  (Z.abs n < 10 ^ 21)%Z -> sanitize "number" (NumberToString.int_to_string n) = NumberToString.int_to_string n.
Proof.
  intros Hn. destruct (int_text_value n) as [Hv Hf]. unfold sanitize. simpl. rewrite Hv, Hf. simpl.
  rewrite in_double_range_Z; [done|].
  enough (10 ^ 21 < 2 ^ 1024 - 2 ^ 970)%Z by lia. by apply Z.ltb_lt.
Qed.

End NumberInput.

(** The two number inputs of the form. *)
Lemma number_control p cs c :
  controls p = Ok cs -> c ∈ cs -> c_name c = "price" \/ c_name c = "origin_price" ->
  c = field_control "number" (c_name c) p.
Proof.
  intros Hcs Hc Hn. unfold controls in Hcs.
  destruct (image_controls p) as [imgs|] eqn:Hi; [|discriminate]. injection Hcs as <-.
  repeat (apply elem_of_cons in Hc as [->|Hc]);
    try (simpl in Hn; destruct Hn as [Hn|Hn]; discriminate Hn); try reflexivity.
  apply elem_of_app in Hc as [Hc|Hc].
  - unfold image_controls in Hi. destruct (p.["imagesUrl"]); simplify_eq; try by apply elem_of_nil in Hc.
    apply elem_of_lookup_imap in Hc as (j & url & -> & _). destruct Hn as [Hn|Hn]; discriminate Hn.
  - repeat (apply elem_of_cons in Hc as [->|Hc]); [..|by apply elem_of_nil in Hc];
      destruct Hn as [Hn|Hn]; discriminate Hn.
Qed.

(** The url input of image slot [j] is the control at [9 + j]. *)
Lemma image_control_at p xs j url :
  images_of p = Some xs -> xs !! j = Some url ->
  controls p = Ok (form_controls p ++ imap image_control xs ++ radio_controls p) /\
  (form_controls p ++ imap image_control xs ++ radio_controls p) !! (9 + j)%nat
    = Some (image_control j url).
Proof.
  intros Hxs Hj. unfold controls. rewrite (image_controls_ok p xs Hxs). split; [done|].
  rewrite lookup_app_r by (simpl; lia). replace (9 + j - length (form_controls p))%nat with j by (simpl; lia).
  rewrite lookup_app_l.
  - by rewrite list_lookup_imap, Hj.
  - rewrite length_imap. by eapply lookup_lt_Some.
Qed.

(** Writing back the value a field already holds changes nothing. *)
Lemma insert_js_get_id (p : obj) k v : p.[k] = v -> v <> JUndefined -> <[k := v]> p = p.
Proof.
  unfold js_get. intros Hk Hv. destruct (p !! k) as [v'|] eqn:E; simpl in Hk; [|done].
  subst v'. by apply insert_id.
Qed.

(** ** Properties of the dialog *)

(** C8: The dialog keeps the draft well formed: starting from a
    well-formed draft, after any sequence of edits the rendered dialog
    offers (typing in a field, choosing a radio button, editing an image
    slot, the add and remove buttons, an upload), both prices are
    numbers, [is_enabled] is 0 or 1 and the image list is an array of at
    most five strings. *)
Theorem ui_trace_preserves_wf (p p' : obj) (evs : list draft_event) :
  draft_wf p -> trace ui_step p evs p' -> draft_wf p'.
Proof.
  intros Hp Ht. revert Ht Hp. apply trace_invariant.
  intros s ev s' Hs Hstep. by destruct (ui_apply_wf s ev _ Hs Hstep) as (? & [= <-] & ?).
Qed.

(** The guards of the dialog keep the image updaters from throwing:
    on a well-formed draft no edit the dialog offers raises an
    exception. *)
Theorem ui_apply_never_throws (p : obj) ev e :
  draft_wf p -> ui_apply p ev <> Some (Throw e).
Proof. intros Hp Hr. by destruct (ui_apply_wf p ev _ Hp Hr) as (? & ? & ?). Qed.

(** C10: Adding an image twice adds one slot: once the add button has
    appended an empty slot, the button is no longer rendered, so a
    second click cannot happen until the new slot is filled. *)
Theorem add_image_twice (p p' : obj) :
  ui_apply p ClickAdd = Some (Ok p') -> ui_apply p' ClickAdd = None.
Proof.
  simpl. destruct (canAddImage p); [|done]. intros [= [ys ->]%handleAddImage_shape].
  simpl. by rewrite canAddImage_after_add.
Qed.

(** C11: Removing from an empty image list: [handleRemoveImage] leaves
    the draft unchanged (no error, no underflow), and the dialog does not
    offer the remove button then. *)
Theorem remove_image_empty (p : obj) :
  images_of p = Some [] -> handleRemoveImage p = Ok p /\ ui_apply p ClickRemove = None.
Proof.
  intros H. split.
  - rewrite (handleRemoveImage_ok p [] H). simpl. by rewrite insert_images_id.
  - simpl. by rewrite canRemoveImage_nil.
Qed.

(** C12: The image inputs are wired to their slots: on a draft whose
    [imagesUrl] is an array, the url input the dialog renders at
    position [9 + j] shows slot [j], and typing [s] into it replaces
    slot [j], and only it, with the text the url input reports; the
    array keeps its length and the other fields are unchanged. *)
Theorem image_input_edits_slot (p : obj) xs j url s :
  images_of p = Some xs -> xs !! j = Some url ->
  (exists cs c, controls p = Ok cs /\ cs !! (9 + j)%nat = Some c /\ c_value c = url) /\
  ui_apply p (Change (9 + j) s) =
    Some (Ok (<["imagesUrl" := JArr (<[j := JStr (sanitize "url" s)]> xs)]> p)).
Proof.
  intros Hxs Hj. destruct (image_control_at p xs j url Hxs Hj) as [Hcs Hc]. split.
  - by exists (form_controls p ++ imap image_control xs ++ radio_controls p), (image_control j url).
  - unfold ui_apply. rewrite Hcs, Hc. cbn [control_change c_on image_control c_type].
    rewrite (handleImageChange_ok p xs) by done. unfold js_array_set.
    by rewrite decide_True by (eapply lookup_lt_Some; exact Hj).
Qed.

(** C33: A price never becomes NaN or an infinity through the dialog:
    whatever text is typed into the price or original-price input, the
    browser reports a valid floating-point number whose value is a
    finite double, or [""] (for "1e400" too), and [Number] of either is
    a finite number, which is what the draft stores. *)
Theorem price_input_never_nan (p : obj) cs c s :
  controls p = Ok cs -> c ∈ cs -> c_name c = "price" \/ c_name c = "origin_price" ->
  exists q, control_change c s p = Some (Ok (<[c_name c := JNum (Fin q)]> p)).
Proof.
  intros Hcs Hc Hn. rewrite (number_control p cs c Hcs Hc Hn).
  destruct (sanitize_number_finite s) as [q Hq]. exists q.
  destruct Hn as [Hn|Hn]; rewrite Hn; cbn -[sanitize];
    rewrite finalValue_price by (cbn; auto); cbn -[sanitize]; by rewrite Hq.
Qed.

(** C4: The price inputs round-trip: a controlled
    [<input type="number">] bound to an integer price [n] shows
    [String(n)]; a change event that reports that text stores [n] back,
    and the draft is exactly as it was.  (For the integers a double
    holds exactly, up to [2^53] in magnitude.) *)
Theorem price_text_roundtrip (p : obj) cs c n :
  controls p = Ok cs -> c ∈ cs -> c_name c = "price" \/ c_name c = "origin_price" ->
  c_value c = JInt n -> (Z.abs n <= 2 ^ 53)%Z ->
  control_change c (NumberToString.int_to_string n) p = Some (Ok p).
Proof.
  intros Hcs Hc Hn Hv Hr. assert (Z.abs n < 10 ^ 21)%Z by lia.
  rewrite (number_control p cs c Hcs Hc Hn) in Hv |- *. simpl in Hv.
  destruct Hn as [Hn|Hn]; rewrite Hn in Hv |- *; cbn -[sanitize];
    rewrite finalValue_price by (cbn; auto); cbn -[sanitize];
    rewrite sanitize_int, NumberToString.string_to_number_int_to_string by done;
    by rewrite (insert_js_get_id p _ (JInt n)).
Qed.

(** ** Witnesses *)

(** A new product: price "35", add a slot, fill it, choose "disabled". *)
Lemma ui_trace_preserves_wf_witness :
  exists p', draft_wf addNewProduct /\
    trace ui_step addNewProduct [Change 4 "35"; ClickAdd; Change 9 "u.png"; Change 11 ""] p' /\
    draft_wf p'.
Proof.
  assert (Ht : exists p', trace ui_step addNewProduct
                 [Change 4 "35"; ClickAdd; Change 9 "u.png"; Change 11 ""] p').
  { eexists. repeat (eapply trace_cons; [reflexivity|]). apply trace_nil. }
  destruct Ht as [p' Ht]. exists p'. split; [apply draft_wf_addNewProduct|]. split; [exact Ht|].
  exact (ui_trace_preserves_wf _ _ _ draft_wf_addNewProduct Ht).
Defined.

Lemma add_image_twice_witness :
  exists p', ui_apply addNewProduct ClickAdd = Some (Ok p') /\ ui_apply p' ClickAdd = None.
Proof.
  eexists. assert (H : ui_apply addNewProduct ClickAdd = Some (Ok _)) by reflexivity.
  split; [exact H|]. exact (add_image_twice _ _ H).
Defined.

Lemma remove_image_empty_witness :
  images_of addNewProduct = Some [] /\
  handleRemoveImage addNewProduct = Ok addNewProduct /\ ui_apply addNewProduct ClickRemove = None.
Proof.
  assert (H : images_of addNewProduct = Some []) by reflexivity.
  split; [exact H|]. exact (remove_image_empty addNewProduct H).
Defined.
Lemma price_input_never_nan_witness :
  exists q, control_change (field_control "number" "price" addNewProduct) "1e400" addNewProduct
            = Some (Ok (<["price" := JNum (Fin q)]> addNewProduct)).
Proof.
  apply (price_input_never_nan addNewProduct
           (form_controls addNewProduct ++ [] ++ radio_controls addNewProduct)).
  - reflexivity.
  - apply (list_elem_of_lookup_2 _ 4). reflexivity.
  - by left.
Defined.

Lemma price_text_roundtrip_witness :
  control_change (field_control "number" "price" (<["price" := JInt 1200]> addNewProduct))
    (NumberToString.int_to_string 1200) (<["price" := JInt 1200]> addNewProduct)
  = Some (Ok (<["price" := JInt 1200]> addNewProduct)).
Proof.
  apply (price_text_roundtrip _ (form_controls (<["price" := JInt 1200]> addNewProduct) ++ []
           ++ radio_controls (<["price" := JInt 1200]> addNewProduct))).
  - reflexivity.
  - apply (list_elem_of_lookup_2 _ 4). reflexivity.
  - by left.
  - reflexivity.
  - lia.
Defined.

Lemma image_input_edits_slot_witness :
  let p0 : obj := <["id" := JInt 7]> (<["imagesUrl" := JArr [JStr "a"; JStr "b"]]> ∅) in
  ui_apply p0 (Change 10 " c.png ") =
    Some (Ok (<["imagesUrl" := JArr [JStr "a"; JStr "c.png"]]> p0)).
Proof.
  intros p0. apply (image_input_edits_slot p0 [JStr "a"; JStr "b"] 1 (JStr "b")); reflexivity.
Defined.

End ProductModalView.
