(* ===== verification/DetailModalView.v ===== *)
(** * DetailModalView: what the read-only detail dialog renders

    [DetailModal]'s JSX (src/components/DetailModal.jsx, lines 65-152)
    renders [tempProduct] read-only: the main image or a placeholder,
    the text fields, and a carousel of the extra images when
    [tempProduct.imagesUrl?.length > 0].  The carousel calls
    [imagesUrl.map], which only arrays have: a non-empty string in
    [imagesUrl] passes the length test and then throws.  This file
    renders the dialog as data ([detail_view]) with the exception as a
    [Throw]; a field shown as text that holds an object makes React
    throw as well.  The dialog's open/close effects are those of
    ProductModal.jsx and are modelled once, in ModalLifecycle.v. *)

From S2P Require Import Prelude JsValue DraftStore.
From Stdlib Require Import QArith_base.
From Stdlib Require String.

Local Close Scope Q_scope.
Local Open Scope js_scope.

Module DetailModalView.
Import DraftStore.

(** The main picture: [tempProduct.imageUrl ? <img src alt> : placeholder]. *)
Inductive picture : Type :=
| Picture (src alt : jsval)
| NoPicture.

Record detail_view : Type := {
  d_picture : picture;
  d_title : jsval;
  d_category : jsval;
  d_content : jsval;
  d_description : jsval;
  d_trending : jsval;
  d_origin_price : jsval;
  d_price : jsval;
  d_slides : option (list jsval)
}.

(** [a || b] on values. *)
Definition js_or (a b : jsval) : jsval := if js_truthy a then a else b.

(** [tempProduct.imagesUrl?.length > 0 ? imagesUrl.map(...) : "無其他圖片"]:
    [?.] reads [undefined] on [undefined] and [null], a value with no
    [length] property gives [undefined > 0], false; [map] exists on
    arrays only. *)
Definition slides (v : jsval) : result (option (list jsval)) :=
  match js_length v with
  | Some n =>
      if (0 <? n)%nat then
        match v with JArr xs => Ok (Some xs) | _ => Throw TypeError end
      else Ok None
  | None => Ok None
  end.

(** The fields the body shows as text ([{tempProduct.title}], ...,
    [{tempProduct.price}]): React throws on an object there. *)
Definition detail_children : list string :=
  ["title"; "category"; "content"; "description"; "trending"; "origin_price"; "price"].

Definition detail_render (tp : obj) : result detail_view :=
  ss ← slides (tp.["imagesUrl"]);
  with_children tp detail_children
       {| d_picture := if js_truthy (tp.["imageUrl"])
                       then Picture (tp.["imageUrl"]) (js_or (tp.["title"]) (JStr "商品圖片"))
                       else NoPicture;
          d_title := tp.["title"]; d_category := tp.["category"];
          d_content := tp.["content"]; d_description := tp.["description"];
          d_trending := tp.["trending"]; d_origin_price := tp.["origin_price"];
          d_price := tp.["price"]; d_slides := ss |}.

(** ** Lemmas *)

Lemma detail_render_slides (tp : obj) :
  (exists v, detail_render tp = Ok v) <->
  (exists ss, slides (tp.["imagesUrl"]) = Ok ss) /\ children_ok tp detail_children = true.
Proof.
  unfold detail_render, with_children. split.
  - intros [v Hv]. destruct (slides _) as [ss|e]; [|done].
    destruct (children_ok _ _); [|discriminate Hv]. split; [by exists ss|done].
  - intros [[ss ->] ->]. by eexists.
Qed.

(** A well-formed draft whose text fields are no objects always
    renders. *)
Lemma detail_render_wf (tp : obj) :
  draft_wf tp -> children_ok tp detail_children = true -> exists v, detail_render tp = Ok v.
Proof.
  intros Hwf Hc. apply detail_render_slides. split; [|done].
  destruct (draft_wf_images tp Hwf) as (xs & Hxs & _).
  unfold images_of in Hxs. unfold slides.
  destruct (tp.["imagesUrl"]); simplify_eq; simpl. case_match; by eexists.
Qed.

(** ** Properties *)

Lemma slides_throw (v : jsval) :
  (exists e, slides v = Throw e) <-> (exists s, v = JStr s /\ s <> ""%string).
Proof.
  unfold slides. destruct v as [| | | |s|xs|]; simpl.
  all: try (split; [intros [? Hd]; discriminate|intros (? & Hd & _); discriminate]).
  - destruct (Nat.ltb_spec 0 (String.length s)) as [Hl|Hl]; simpl.
    + split; [intros _; exists s; split; [done|]; intros ->; simpl in Hl; lia|by eexists].
    + split; [intros [? Hd]; discriminate|]. intros (s' & [= <-] & Hs).
      destruct s; [done|simpl in Hl; lia].
  - split; [|intros (? & Hd & _); discriminate].
    intros [? Hd]. by destruct (0 <? length xs)%nat.
Qed.

(** C31: The detail dialog fails to render exactly when [imagesUrl] is
    a non-empty string ([?.length > 0] lets it through and [map] is not
    a string method) or when one of the fields it shows as text holds
    an object.  Every other draft renders: an array of images as its
    slides, anything else as the "no other images" line. *)
Theorem detail_render_throws (tp : obj) :
  (exists e, detail_render tp = Throw e) <->
  (exists s, tp.["imagesUrl"] = JStr s /\ s <> ""%string) \/
  children_ok tp detail_children = false.
Proof.
  rewrite <- slides_throw. unfold detail_render, with_children.
  destruct (slides _) as [ss|e]; [destruct (children_ok _ _)|]; simpl.
  - split; [intros [? ?]; discriminate|intros [[? ?]|?]; discriminate].
  - split; intros _; [by right|by eexists].
  - split; intros _; [left|]; by eexists.
Qed.


End DetailModalView.
