(* ===== verification/ModalLifecycle.v ===== *)
(** * ModalLifecycle: keeping a React [isOpen] flag and a Bootstrap modal
      in step

    [ProductModal] and [DetailModal] (src/components/ProductModal.jsx
    lines 18-73, src/components/DetailModal.jsx lines 9-59) drive one
    Bootstrap [Modal] widget with three effects:
    - effect 1 ([[]]): build the widget once on the dialog element,
      dispose it on unmount;
    - effect 2 ([[isOpen]]): [show()] or [hide()] the widget;
    - effect 3 ([[isOpen, onClose]]): subscribe [performClose] to the
      widget's [hidden.bs.modal] event; [performClose] calls [onClose]
      only if the [isOpen] it captured is true.
    The parent owns [isOpen] and passes [onClose], which sets it to
    false ([closeModal], [handleCloseDetail]).

    The parent is abstract here: a [binding] gives its [isOpen] and what
    its [onClose] does, with the one law the dialogs rely on.  The
    Bootstrap widget is modelled from its documented behaviour
    ([show]/[hide] start a transition and are ignored while one runs,
    [hidden.bs.modal] fires when the hide transition ends; the backdrop
    and Escape call [hide]).  Every event runs to completion with the
    React re-render and the effects it triggers, as in the spec's
    single-threaded model. *)

From S2P Require Import Prelude.

(** ** The Bootstrap modal widget *)
Module BsModal.

(** Bootstrap's [_isShown] and [_isTransitioning] as four phases. *)
Inductive phase : Type :=
| Hidden
| Showing
| Shown
| Hiding.

#[export] Instance phase_eq_dec : EqDecision phase.
Proof. solve_decision. Defined.

(** [show()] returns at once when shown or transitioning. *)
Definition show (w : phase) : phase :=
  match w with Hidden => Showing | _ => w end.

(** [hide()] returns at once when not shown or transitioning. *)
Definition hide (w : phase) : phase :=
  match w with Shown => Hiding | _ => w end.

(** The end of the running transition; [true] when it dispatches
    [hidden.bs.modal]. *)
Definition transition_end (w : phase) : phase * bool :=
  match w with
  | Showing => (Shown, false)
  | Hiding => (Hidden, true)
  | _ => (w, false)
  end.

(** Whether the dialog is on screen (fading in, shown or fading out). *)
Definition on_screen (w : phase) : bool :=
  match w with Hidden => false | _ => true end.

End BsModal.

(** ** The dialog component *)
Module Lifecycle.
Import BsModal.

(** What the dialog needs of its parent: the [isOpen] it passes and the
    state its [onClose] leaves; [onClose] closes. *)
Record binding (P : Type) : Type := {
  b_open : P -> bool;
  b_close : P -> P
}.
Arguments b_open {P} _ _.
Arguments b_close {P} _ _.

Definition binding_laws {P} (b : binding P) : Prop :=
  forall p, b_open b (b_close b p) = false.

(** The refs and effect state of one mounted dialog: [bsModalRef], the
    [isOpen] captured by the subscribed [performClose], the [isOpen] of
    the last commit (effect 2's dependency), and the number of
    [dispose()] calls. *)
Record comp : Type := {
  c_inst : option phase;
  c_listener : option bool;
  c_prev : option bool;
  c_disposed : nat
}.

Inductive status : Type :=
| Mounted
| Unmounted
| Crashed.

#[export] Instance status_eq_dec : EqDecision status.
Proof. solve_decision. Defined.

Record sys (P : Type) : Type := {
  s_page : P;
  s_comp : comp;
  s_status : status;
  s_notified : nat
}.
Arguments s_page {P} _.
Arguments s_comp {P} _.
Arguments s_status {P} _.
Arguments s_notified {P} _.

(** The events: the parent re-renders with a new state (an intent such
    as [openModal] or [closeModal]), the dialog's own close buttons
    ([handleClose], i.e. [onClose]), a dismissal by backdrop or Escape,
    the end of the widget's transition, the unmount of the page. *)
Inductive event (P : Type) : Type :=
| Render (p : P)
| CloseClick
| Dismiss
| TransitionEnd
| Unmount.
Arguments Render {P} p.
Arguments CloseClick {P}.
Arguments Dismiss {P}.
Arguments TransitionEnd {P}.
Arguments Unmount {P}.

Section Dialog.
Context {P : Type} (b : binding P).

(** Effect 2: [show()] or [hide()] when there is a widget. *)
Definition effect_show_hide (isOpen : bool) (inst : option phase) : option phase :=
  match inst with
  | Some w => Some (if isOpen then show w else hide w)
  | None => None
  end.

(** The effects after a commit with [isOpen]: effect 2 when [isOpen]
    changed (or on mount), effect 3 always, since [onClose] is a new
    function at every render of the parent. *)
Definition commit (isOpen : bool) (c : comp) : comp :=
  {| c_inst := if decide (c_prev c = Some isOpen) then c_inst c
               else effect_show_hide isOpen (c_inst c);
     c_listener := Some isOpen;
     c_prev := Some isOpen;
     c_disposed := c_disposed c |}.

(** Mounting: effect 1 builds the widget when the element exists;
    effect 3 calls [addEventListener] on the element and throws when it
    is [null]. *)
Definition mount (el : bool) (p : P) : sys P :=
  if el then
    {| s_page := p;
       s_comp := commit (b_open b p)
                   {| c_inst := Some Hidden; c_listener := None; c_prev := None;
                      c_disposed := 0 |};
       s_status := Mounted; s_notified := 0 |}
  else
    {| s_page := p;
       s_comp := {| c_inst := None; c_listener := None; c_prev := None; c_disposed := 0 |};
       s_status := Crashed; s_notified := 0 |}.

(** The parent moves to [p] and re-renders the dialog. *)
Definition render (s : sys P) (p : P) : sys P :=
  {| s_page := p; s_comp := commit (b_open b p) (s_comp s);
     s_status := s_status s; s_notified := s_notified s |}.

(** The end of a transition, and [performClose] when it dispatches
    [hidden.bs.modal]: [if (isOpen) onClose()] with the captured
    [isOpen]. *)
Definition transition (s : sys P) : sys P :=
  match c_inst (s_comp s) with
  | Some w =>
      let '(w', hidden) := transition_end w in
      let c := s_comp s in
      let s1 := {| s_page := s_page s;
                   s_comp := {| c_inst := Some w'; c_listener := c_listener c;
                                c_prev := c_prev c; c_disposed := c_disposed c |};
                   s_status := s_status s; s_notified := s_notified s |} in
      if hidden && bool_decide (c_listener c = Some true) then
        let s2 := render s1 (b_close b (s_page s)) in
        {| s_page := s_page s2; s_comp := s_comp s2; s_status := s_status s2;
           s_notified := S (s_notified s2) |}
      else s1
  | None => s
  end.

(** A backdrop click or Escape calls the widget's [hide()]. *)
Definition dismiss (s : sys P) : sys P :=
  let c := s_comp s in
  {| s_page := s_page s;
     s_comp := {| c_inst := option_map hide (c_inst c); c_listener := c_listener c;
                  c_prev := c_prev c; c_disposed := c_disposed c |};
     s_status := s_status s; s_notified := s_notified s |}.

(** The cleanups on unmount: effect 1 disposes the widget, effect 3
    removes the listener. *)
Definition unmount (s : sys P) : sys P :=
  let c := s_comp s in
  {| s_page := s_page s;
     s_comp := {| c_inst := None; c_listener := None; c_prev := c_prev c;
                  c_disposed := match c_inst c with
                                | Some _ => S (c_disposed c)
                                | None => c_disposed c
                                end |};
     s_status := Unmounted; s_notified := s_notified s |}.

(** One event on a mounted dialog; an unmounted or crashed dialog no
    longer reacts. *)
Definition step (s : sys P) (e : event P) : sys P :=
  match s_status s with
  | Mounted =>
      match e with
      | Render p => render s p
      | CloseClick => render s (b_close b (s_page s))
      | Dismiss => dismiss s
      | TransitionEnd => transition s
      | Unmount => unmount s
      end
  | _ => s
  end.

(** The states a dialog mounted with element [el] on parent state [p0]
    can reach. *)
Inductive reachable (el : bool) (p0 : P) : sys P -> Prop :=
| reach_mount : reachable el p0 (mount el p0)
| reach_step s e : reachable el p0 s -> reachable el p0 (step s e).

(** ** Invariants of a mounted dialog *)

(** The subscribed [performClose] is never stale: after every event it
    captured the parent's current [isOpen], and effect 2 last ran for
    it. *)
Definition fresh (s : sys P) : Prop :=
  s_status s = Mounted ->
  c_listener (s_comp s) = Some (b_open b (s_page s)) /\
  c_prev (s_comp s) = Some (b_open b (s_page s)).

Lemma step_not_mounted s e : s_status s <> Mounted -> step s e = s.
Proof. intros H. unfold step. by destruct (s_status s). Qed.

Lemma step_status_mounted s e :
  s_status (step s e) = Mounted -> s_status s = Mounted.
Proof. unfold step. destruct (s_status s) eqn:E; [done|by rewrite E..]. Qed.

Lemma render_fresh s p : fresh (render s p).
Proof. intros _. done. Qed.

Lemma transition_fresh s : fresh s -> fresh (transition s).
Proof.
  unfold transition. intros Hf. repeat case_match; try apply render_fresh; done.
Qed.

Lemma reachable_run el p0 s evs :
  reachable el p0 s -> reachable el p0 (run step s evs).
Proof. revert s. induction evs; intros s Hr; [done|]. apply IHevs. by constructor. Qed.

Lemma reachable_fresh el p0 s : reachable el p0 s -> fresh s.
Proof.
  induction 1 as [|s e Hr IH].
  - unfold mount. destruct el; [by intros _|done].
  - destruct (decide (s_status s = Mounted)) as [Hm|Hm];
      [|by rewrite step_not_mounted].
    unfold step. rewrite Hm.
    destruct e; [apply render_fresh|apply render_fresh|done|by apply transition_fresh|done].
Qed.

(** The hidden event of a dialog whose parent is closed: with a fresh
    listener, [performClose] sees [isOpen = false]. *)
Lemma transition_closed s :
  fresh s -> s_status s = Mounted -> b_open b (s_page s) = false ->
  s_notified (transition s) = s_notified s.
Proof.
  intros Hf Hm Hc. destruct (Hf Hm) as [Hl _]. rewrite Hc in Hl.
  unfold transition. destruct (c_inst (s_comp s)) as [w|]; [|done].
  destruct (transition_end w) as [w' hid]. rewrite Hl.
  by rewrite bool_decide_eq_false_2, andb_false_r.
Qed.

(** ** Properties of the dialog *)

(** C13: The guard in [performClose] breaks the loop: whenever the
    parent already has the dialog closed (a programmatic [closeModal],
    the close buttons), the widget's [hidden.bs.modal] that follows does
    not call [onClose] again. *)
Theorem closed_dialog_never_notifies el p0 s :
  reachable el p0 s -> b_open b (s_page s) = false ->
  s_notified (step s TransitionEnd) = s_notified s.
Proof.
  intros Hr Hc. destruct (decide (s_status s = Mounted)) as [Hm|Hm];
    [|by rewrite step_not_mounted].
  unfold step. rewrite Hm. apply transition_closed; [|done|done].
  by eapply reachable_fresh.
Qed.

(** C14: A dismissal by backdrop or Escape of an open dialog produces
    exactly one [onClose], leaves the parent closed and the widget
    hidden; opening it again afterwards shows it (no state stuck
    closed). *)
Theorem dismiss_then_reopen el p0 s p' :
  binding_laws b -> reachable el p0 s -> s_status s = Mounted ->
  b_open b (s_page s) = true -> c_inst (s_comp s) = Some Shown -> b_open b p' = true ->
  let s1 := run step s [Dismiss; TransitionEnd] in
  let s2 := run step s1 [Render p'; TransitionEnd] in
  s_notified s1 = S (s_notified s) /\ b_open b (s_page s1) = false /\
  c_inst (s_comp s1) = Some Hidden /\
  s_notified s2 = s_notified s1 /\ s_page s2 = p' /\ c_inst (s_comp s2) = Some Shown.
Proof.
  intros Hlaw Hr Hm Ho Hw Ho'. destruct (reachable_fresh _ _ _ Hr Hm) as [Hl Hp].
  destruct s as [pg [inst lis prev disp] st n]; simpl in *; subst.
  rewrite Ho. cbn. rewrite bool_decide_eq_true_2 by done. rewrite (Hlaw pg).
  cbn. split; [done|]. split; [apply Hlaw|].
  unfold transition, render, commit; cbn. rewrite ?Ho'. cbn.
  repeat case_decide; simplify_eq/=; auto.
Qed.

(** ** Widget and parent in step *)

(** The only event that can put them out of step: a close request (the
    parent closes, or a close button) while the widget is fading in,
    when Bootstrap ignores [hide()]. *)
Definition close_during_fade_in (s : sys P) (e : event P) : bool :=
  bool_decide (c_inst (s_comp s) = Some Showing) &&
  match e with
  | Render p => negb (b_open b p)
  | CloseClick => true
  | _ => false
  end.

(** The states reachable from a mounted dialog by events that avoid
    that race. *)
Inductive reachable_ok (p0 : P) : sys P -> Prop :=
| rok_mount : reachable_ok p0 (mount true p0)
| rok_step s e :
    reachable_ok p0 s -> close_during_fade_in s e = false ->
    reachable_ok p0 (step s e).

(** The widget agrees with the parent's [isOpen]: hidden when closed,
    fading in or shown when open; while it fades out either is
    possible (a dismissal not yet reported, or an open request that
    came during the fade-out). *)
Definition synced (s : sys P) : Prop :=
  s_status s = Mounted ->
  match c_inst (s_comp s) with
  | Some Hidden => b_open b (s_page s) = false
  | Some Showing | Some Shown => b_open b (s_page s) = true
  | Some Hiding => True
  | None => False
  end.

Lemma reachable_ok_reachable p0 s : reachable_ok p0 s -> reachable true p0 s.
Proof. induction 1; by constructor. Qed.

Lemma synced_render s p :
  fresh s -> synced s -> s_status s = Mounted ->
  close_during_fade_in s (Render p) = false -> synced (render s p).
Proof.
  intros Hf Hs Hm Hc _. destruct (Hf Hm) as [_ Hp]. specialize (Hs Hm).
  unfold render, commit, close_during_fade_in in *; cbn in *. rewrite Hp.
  destruct (c_inst (s_comp s)) as [[]|]; try done;
    destruct (b_open b p) eqn:E1, (b_open b (s_page s)) eqn:E2;
    cbn in *; try congruence; repeat case_decide; simplify_eq/=; by try congruence.
Qed.

Lemma synced_transition s :
  binding_laws b -> fresh s -> synced s -> s_status s = Mounted -> synced (transition s).
Proof.
  intros Hlaw Hf Hs Hm _. destruct (Hf Hm) as [Hl Hp]. specialize (Hs Hm).
  unfold transition. destruct (c_inst (s_comp s)) as [[]|] eqn:Ei; cbn in *; try done.
  rewrite Hl. destruct (b_open b (s_page s)) eqn:Eo; cbn.
  - rewrite bool_decide_eq_true_2 by done. cbn. rewrite Hp, Hlaw. cbn.
    case_decide; [congruence|done].
  - rewrite bool_decide_eq_false_2 by congruence. done.
Qed.

Lemma reachable_ok_synced p0 s :
  binding_laws b -> reachable_ok p0 s -> synced s.
Proof.
  intros Hlaw Hr. induction Hr as [|s e Hr IH Hc].
  - intros _. unfold mount, commit. cbn. by destruct (b_open b p0).
  - pose proof (reachable_fresh _ _ _ (reachable_ok_reachable _ _ Hr)) as Hf.
    destruct (decide (s_status s = Mounted)) as [Hm|Hm];
      [|by rewrite step_not_mounted].
    unfold step. rewrite Hm. destruct e.
    + by apply synced_render.
    + apply synced_render; [done|done|done|]. unfold close_during_fade_in in *.
      cbn in *. by rewrite Hlaw.
    + intros _. specialize (IH Hm). unfold dismiss. cbn.
      destruct (c_inst (s_comp s)) as [[]|]; done.
    + by apply synced_transition.
    + done.
Qed.

(** C15: The widget and the parent's [isOpen] stay in step: in every
    state a mounted dialog reaches without a close request during the
    fade-in, when the widget is at rest it is shown exactly when the
    parent has the dialog open. *)
Theorem sync_at_rest p0 s :
  binding_laws b -> reachable_ok p0 s -> s_status s = Mounted ->
  c_inst (s_comp s) = Some Hidden \/ c_inst (s_comp s) = Some Shown ->
  c_inst (s_comp s) = Some (if b_open b (s_page s) then Shown else Hidden).
Proof.
  intros Hlaw Hr Hm Hrest. pose proof (reachable_ok_synced p0 s Hlaw Hr Hm) as Hs.
  destruct Hrest as [E|E]; rewrite E in *; by rewrite Hs.
Qed.

(** ** The widget's lifetime *)

Lemma commit_inst_some isOpen c : is_Some (c_inst c) -> is_Some (c_inst (commit isOpen c)).
Proof. intros [w Hw]. unfold commit; cbn. case_decide; [by rewrite Hw|]. by rewrite Hw. Qed.

Lemma reachable_lifetime p0 s :
  reachable true p0 s ->
  (s_status s = Mounted /\ is_Some (c_inst (s_comp s)) /\ c_disposed (s_comp s) = 0) \/
  (s_status s = Unmounted /\ c_disposed (s_comp s) = 1).
Proof.
  induction 1 as [|s e Hr IH].
  - left. unfold mount. split; [done|]. split; [|done]. apply commit_inst_some. by eexists.
  - destruct IH as [(Hm & Hi & Hd)|(Hu & Hd)]; [|right; by rewrite step_not_mounted; [|rewrite Hu]].
    unfold step. rewrite Hm. destruct e.
    + left. cbn. split; [done|]. split; [by apply commit_inst_some|done].
    + left. cbn. split; [done|]. split; [by apply commit_inst_some|done].
    + left. cbn. destruct Hi as [w ->]. split; [done|]. split; [by eexists|done].
    + left. unfold transition. destruct Hi as [w Hw]. rewrite Hw.
      destruct (transition_end w) as [w' hid].
      destruct (hid && _); cbn; (split; [done|]); (split; [|done]);
        repeat case_decide; by eexists.
    + right. cbn. destruct Hi as [w ->]. by rewrite Hd.
Qed.

(** C17: The widget is disposed exactly once: never while the dialog
    is mounted, however often it was opened and closed, and once when it
    is unmounted; an unmounted dialog does nothing more. *)
Theorem dispose_exactly_once p0 s :
  reachable true p0 s ->
  c_disposed (s_comp s) = (if decide (s_status s = Unmounted) then 1 else 0).
Proof.
  intros Hr. destruct (reachable_lifetime p0 s Hr) as [(Hm & _ & Hd)|(Hu & Hd)].
  - by rewrite Hm, Hd.
  - by rewrite Hu, Hd.
Qed.

(** ** Refinement of the spec's dialog

    The spec's controller has two states, CLOSED and OPEN; the owner's
    requests move between them, and a dismissal by the widget is
    reported to the owner (one close notification) only from OPEN. *)
Inductive dstate : Type :=
| CLOSED
| OPEN.

Inductive dlabel : Type :=
| RequestOpen
| RequestClose
| Dismissed.

(** The next abstract state and whether the owner is notified. *)
Definition dstep (d : dstate) (l : dlabel) : dstate * bool :=
  match l, d with
  | RequestOpen, _ => (OPEN, false)
  | RequestClose, _ => (CLOSED, false)
  | Dismissed, OPEN => (CLOSED, true)
  | Dismissed, CLOSED => (CLOSED, false)
  end.

Definition abs_state (s : sys P) : dstate :=
  if b_open b (s_page s) then OPEN else CLOSED.

(** A concrete step simulates an abstract one: it changes nothing the
    owner sees, or it is one abstract transition whose notification is
    exactly the [onClose] calls made. *)
Definition simulates (s s' : sys P) : Prop :=
  (abs_state s' = abs_state s /\ s_notified s' = s_notified s) \/
  exists l, dstep (abs_state s) l =
              (abs_state s', bool_decide (s_notified s' = S (s_notified s))) /\
            (s_notified s' = s_notified s \/ s_notified s' = S (s_notified s)).

Lemma render_simulates s p : simulates s (render s p).
Proof.
  right. unfold abs_state. cbn.
  exists (if b_open b p then RequestOpen else RequestClose).
  rewrite bool_decide_eq_false_2 by lia. split; [|by left].
  by destruct (b_open b p), (b_open b (s_page s)).
Qed.

(** C18: Refinement: every step of a reachable dialog either leaves the
    owner's view unchanged or is one step of the spec's CLOSED/OPEN
    controller, and [onClose] is called by the widget exactly when the
    spec's dismissal from OPEN reports it. *)
Theorem step_refines el p0 s e :
  binding_laws b -> reachable el p0 s -> simulates s (step s e).
Proof.
  intros Hlaw Hr. pose proof (reachable_fresh _ _ _ Hr) as Hf.
  destruct (decide (s_status s = Mounted)) as [Hm|Hm];
    [|rewrite step_not_mounted by done; by left].
  destruct (Hf Hm) as [Hl _]. unfold step. rewrite Hm.
  destruct e; [apply render_simulates|apply render_simulates|by left| |by left].
  unfold transition. destruct (c_inst (s_comp s)) as [w|]; [|by left].
  destruct (transition_end w) as [w' hid]. rewrite Hl.
  destruct hid; cbn; [|by left].
  destruct (b_open b (s_page s)) eqn:Eo; cbn; [|by left].
  right. exists Dismissed. unfold abs_state. simpl. rewrite Eo, ?Hlaw.
  rewrite bool_decide_eq_true_2 by done. split; [done|by right].
Qed.

(** ** A close request during the fade-in *)

(** A mounted dialog whose widget is in phase [w] and whose effects last
    ran, and whose [performClose] was subscribed, for a closed parent. *)
Definition closed_at (w : phase) (s : sys P) : Prop :=
  s_status s = Mounted /\ c_inst (s_comp s) = Some w /\
  c_listener (s_comp s) = Some false /\ c_prev (s_comp s) = Some false.

(** The parent closes the dialog while it fades in: [hide()] is ignored. *)
Lemma render_fading_closed s p :
  s_status s = Mounted -> c_inst (s_comp s) = Some Showing -> b_open b p = false ->
  closed_at Showing (step s (Render p)) /\ s_page (step s (Render p)) = p /\
  s_notified (step s (Render p)) = s_notified s.
Proof.
  intros Hm Hw Hp. unfold step, render, commit, closed_at. rewrite Hm, Hp, Hw. cbn.
  by case_decide.
Qed.

(** Re-rendering a dialog whose effects ran for a closed parent with the
    parent still closed runs no effect. *)
Lemma render_closed w s p :
  closed_at w s -> b_open b p = false ->
  closed_at w (step s (Render p)) /\ s_page (step s (Render p)) = p /\
  s_notified (step s (Render p)) = s_notified s.
Proof.
  intros (Hm & Hw & Hl & Hpv) Hp. unfold step, render, commit, closed_at. rewrite Hm, Hp, Hpv. cbn.
  by rewrite decide_True.
Qed.

(** The fade-in ends: the widget is shown, and [shown.bs.modal] calls
    nothing. *)
Lemma transition_fading_closed s :
  closed_at Showing s ->
  closed_at Shown (step s TransitionEnd) /\ s_page (step s TransitionEnd) = s_page s /\
  s_notified (step s TransitionEnd) = s_notified s.
Proof. intros (Hm & Hw & Hl & Hpv). unfold step, transition, closed_at. rewrite Hm, Hw. cbn. by rewrite Hl, Hpv. Qed.

(** C16: A close request during the fade-in desynchronises the dialog:
    in any state a dialog reaches, when the widget is fading in and the
    parent closes it, Bootstrap ignores the [hide()]; the widget stays on
    screen while the parent has it closed, the end of the fade-in shows
    it without calling [onClose], and from then on neither another
    render with the dialog closed nor its close button hides it (only
    Escape or the backdrop still do). *)
Theorem close_while_fading_in_desyncs el p0 s p :
  binding_laws b -> reachable el p0 s -> s_status s = Mounted ->
  c_inst (s_comp s) = Some Showing -> b_open b p = false ->
  let s1 := step s (Render p) in
  let s2 := step s1 TransitionEnd in
  c_inst (s_comp s1) = Some Showing /\ b_open b (s_page s1) = false /\
  c_inst (s_comp s2) = Some Shown /\ s_page s2 = p /\ s_notified s2 = s_notified s /\
  (forall p', b_open b p' = false -> c_inst (s_comp (step s2 (Render p'))) = Some Shown) /\
  c_inst (s_comp (step s2 CloseClick)) = Some Shown.
Proof.
  intros Hlaw _ Hm Hw Hp. cbv zeta.
  destruct (render_fading_closed s p Hm Hw Hp) as (Hc1 & Hp1 & Hn1).
  set (s1 := step s (Render p)) in *.
  destruct (transition_fading_closed s1 Hc1) as (Hc2 & Hp2 & Hn2).
  set (s2 := step s1 TransitionEnd) in *.
  pose proof Hc1 as (_ & Hw1 & _). pose proof Hc2 as (Hm2 & Hw2 & _).
  split_and!; [done|by rewrite Hp1|done|congruence|congruence| |].
  - intros p' Hp'. by destruct (render_closed Shown s2 p' Hc2 Hp') as ((_ & ? & _) & _).
  - replace (step s2 CloseClick) with (step s2 (Render (b_close b (s_page s2))))
      by (unfold step; by rewrite Hm2).
    by destruct (render_closed Shown s2 _ Hc2 (Hlaw (s_page s2))) as ((_ & ? & _) & _).
Qed.

End Dialog.

(** ** The parent's flag

    [ProductPage] keeps each dialog's [isOpen] in a boolean state
    ([isProductModalOpen], [isDetailModalOpen]) and its [onClose]
    ([closeModal], [handleCloseDetail]) sets it to false. *)
Definition flag_binding : binding bool :=
  {| b_open := fun isOpen => isOpen; b_close := fun _ => false |}.

Lemma flag_binding_laws : binding_laws flag_binding.
Proof. done. Qed.

(** ** Witnesses, on the page's boolean flag *)

Definition opened : sys bool :=
  run (step flag_binding) (mount flag_binding true false) [Render true; TransitionEnd].

Lemma reachable_opened : reachable flag_binding true false opened.
Proof. apply reachable_run. constructor. Qed.

(** Open, then close with the close button: the hidden event that
    follows reports nothing. *)
Lemma closed_dialog_never_notifies_witness :
  let s := step flag_binding opened CloseClick in
  reachable flag_binding true false s /\ b_open flag_binding (s_page s) = false /\
  s_notified (step flag_binding s TransitionEnd) = s_notified s.
Proof.
  intros s. assert (Hr : reachable flag_binding true false s) by (constructor; apply reachable_opened).
  split; [exact Hr|]. split; [reflexivity|].
  exact (closed_dialog_never_notifies flag_binding true false s Hr eq_refl).
Defined.

Lemma dismiss_then_reopen_witness :
  binding_laws flag_binding /\ reachable flag_binding true false opened /\
  s_status opened = Mounted /\ b_open flag_binding (s_page opened) = true /\
  c_inst (s_comp opened) = Some Shown /\ b_open flag_binding true = true /\
  (let s1 := run (step flag_binding) opened [Dismiss; TransitionEnd] in
   let s2 := run (step flag_binding) s1 [Render true; TransitionEnd] in
   s_notified s1 = S (s_notified opened) /\ b_open flag_binding (s_page s1) = false /\
   c_inst (s_comp s1) = Some Hidden /\
   s_notified s2 = s_notified s1 /\ s_page s2 = true /\ c_inst (s_comp s2) = Some Shown).
Proof.
  do 6 (split; [first [exact flag_binding_laws | exact reachable_opened | reflexivity]|]).
  exact (dismiss_then_reopen flag_binding true false opened true flag_binding_laws
           reachable_opened eq_refl eq_refl eq_refl eq_refl).
Defined.

(** Open, let it show, close it, let it hide: at rest and hidden. *)
Lemma sync_at_rest_witness :
  let s := run (step flag_binding) (mount flag_binding true false)
             [Render true; TransitionEnd; CloseClick; TransitionEnd] in
  binding_laws flag_binding /\ reachable_ok flag_binding false s /\ s_status s = Mounted /\
  (c_inst (s_comp s) = Some Hidden \/ c_inst (s_comp s) = Some Shown) /\
  c_inst (s_comp s) = Some (if b_open flag_binding (s_page s) then Shown else Hidden).
Proof.
  intros s. assert (Hr : reachable_ok flag_binding false s).
  { unfold s, run. cbn [fold_left].
    repeat (apply rok_step; [|reflexivity]). apply rok_mount. }
  split; [exact flag_binding_laws|]. split; [exact Hr|]. split; [reflexivity|].
  assert (Hrest : c_inst (s_comp s) = Some Hidden \/ c_inst (s_comp s) = Some Shown)
    by (left; reflexivity).
  split; [exact Hrest|].
  exact (sync_at_rest flag_binding false s flag_binding_laws Hr eq_refl Hrest).
Defined.

Lemma dispose_exactly_once_witness :
  let s := run (step flag_binding) opened [CloseClick; TransitionEnd; Unmount] in
  reachable flag_binding true false s /\
  c_disposed (s_comp s) = (if decide (s_status s = Unmounted) then 1 else 0).
Proof.
  intros s. assert (Hr : reachable flag_binding true false s)
    by (apply reachable_run, reachable_opened).
  split; [exact Hr|]. exact (dispose_exactly_once flag_binding false s Hr).
Defined.

Lemma step_refines_witness :
  let s := step flag_binding opened Dismiss in
  binding_laws flag_binding /\ reachable flag_binding true false s /\
  simulates flag_binding s (step flag_binding s TransitionEnd).
Proof.
  intros s. assert (Hr : reachable flag_binding true false s)
    by (constructor; apply reachable_opened).
  split; [exact flag_binding_laws|]. split; [exact Hr|].
  exact (step_refines flag_binding true false s TransitionEnd flag_binding_laws Hr).
Defined.

Lemma close_while_fading_in_desyncs_witness :
  let s := step flag_binding (mount flag_binding true false) (Render true) in
  let s1 := step flag_binding s (Render false) in
  let s2 := step flag_binding s1 TransitionEnd in
  c_inst (s_comp s1) = Some Showing /\ b_open flag_binding (s_page s1) = false /\
  c_inst (s_comp s2) = Some Shown /\ s_page s2 = false /\ s_notified s2 = s_notified s /\
  (forall p', b_open flag_binding p' = false ->
     c_inst (s_comp (step flag_binding s2 (Render p'))) = Some Shown) /\
  c_inst (s_comp (step flag_binding s2 CloseClick)) = Some Shown.
Proof.
  intros s. apply (close_while_fading_in_desyncs flag_binding true false s false).
  - exact flag_binding_laws.
  - constructor. constructor.
  - reflexivity.
  - reflexivity.
  - reflexivity.
Defined.

End Lifecycle.
