(* ===== verification/ProductPage.v ===== *)
(** * ProductPage: the page's state machine, with the API in flight

    src/pages/ProductPage.jsx keeps the product list, the draft, the two
    dialog flags, the dialog mode, the loading flag and the pagination
    in React state, and changes them from event handlers, several of
    which [await] a call to the remote API.  This file models the page
    together with its environment: the route, the [hexToken] cookie, the
    [Authorization] header, the toasts, and the API requests that are in
    flight, each with the continuation the [await] resumes.  A handler
    is a computation in a small state monad over that world; the
    environment answers a pending request with [Respond], which runs the
    continuation.  The remote API (src/api/Api is not in the sources) is
    modelled from the spec's collaborator table: a request either
    resolves with the data the page reads or rejects. *)

From S2P Require Import Prelude JsValue DraftStore ProductModalView DetailModalView.
From Stdlib Require Import QArith_base.
From Stdlib Require String.

Local Close Scope Q_scope.
Local Open Scope js_scope.

Module ProductPage.
Import DraftStore ProductModalView.

(** ** State *)

(** The React state of [ProductPage] (lines 41-50). *)
Record page : Type := {
  products : list obj;
  tempProduct : obj;
  isProductModalOpen : bool;
  modalMode : jsval;
  isDetailModalOpen : bool;
  isLoading : bool;
  pagination : jsval
}.

Definition initial_page : page :=
  {| products := []; tempProduct := addNewProduct; isProductModalOpen := false;
     modalMode := JNull; isDetailModalOpen := false; isLoading := false;
     pagination := JRef 1 |}.

(** The routes of App.jsx: [/] (login) and [/products]. *)
Inductive route : Type :=
| RLogin
| RProducts.

(** The toasts the page raises, by their message. *)
Inductive message : Type :=
| MsgNotLoggedIn | MsgCheckFailed | MsgFetchFailed | MsgLoggedOut
| MsgDeleted | MsgDeleteFailed | MsgFileTooLarge | MsgUploaded | MsgUploadFailed
| MsgCreated | MsgUpdated | MsgOpFailed.

Inductive toast : Type :=
| Success (m : message)
| Failure (m : message).

(** The API calls of ../api/Api the page makes. *)
Inductive api_call : Type :=
| GetAdminProducts (pg : jsval)
| CheckUserLogin
| DeleteProduct (id : jsval)
| AddProduct (data : obj)
| UpdateProduct (id : jsval) (data : obj)
| AdminLogout
| UploadImage (size : N).

(** Where an [await] resumes: [getData], [checkLogin] (for the mount
    effect's [isAuth], which fetches the list when the session is
    valid, or for the button, which ignores the answer), [handleDelete],
    [handleUpload], [handleModalSubmit] (create or update); the logout
    request is never awaited. *)
Inductive cont : Type :=
| KGetData
| KCheckLogin (then_fetch : bool)
| KDelete
| KUpload
| KSubmit (create : bool)
| KIgnore.

(** What a resolved request carries, as the page reads it: the list and
    its pagination, the URL of an uploaded image, or nothing it uses. *)
Inductive reply : Type :=
| RList (ps : list obj) (pg : jsval)
| RImage (url : jsval)
| RDone.

Inductive outcome : Type :=
| Resolved (r : reply)
| Rejected.

Record request : Type := {
  rq_id : nat;
  rq_call : api_call;
  rq_cont : cont
}.

Record world : Type := {
  w_page : page;
  w_route : route;
  w_cookie : string;
  w_auth : string;
  w_pending : list request;
  w_next : nat;
  w_toasts : list toast;
  w_crashed : bool
}.

(** ** A state monad over the world *)

Definition M (A : Type) : Type := world -> A * world.

#[export] Instance M_ret : MRet M := fun A a w => (a, w).
#[export] Instance M_bind : MBind M :=
  fun A B k m w => let '(a, w') := m w in k a w'.

Definition get_page : M page := fun w => (w_page w, w).

Definition modify (f : world -> world) : M unit := fun w => (tt, f w).

Definition set_page (f : page -> page) : M unit :=
  modify (fun w => {| w_page := f (w_page w); w_route := w_route w; w_cookie := w_cookie w;
                      w_auth := w_auth w; w_pending := w_pending w; w_next := w_next w;
                      w_toasts := w_toasts w; w_crashed := w_crashed w |}).

Definition setIsLoading (b : bool) : M unit :=
  set_page (fun p => {| products := products p; tempProduct := tempProduct p;
    isProductModalOpen := isProductModalOpen p; modalMode := modalMode p;
    isDetailModalOpen := isDetailModalOpen p; isLoading := b; pagination := pagination p |}).

Definition setProducts (ps : list obj) : M unit :=
  set_page (fun p => {| products := ps; tempProduct := tempProduct p;
    isProductModalOpen := isProductModalOpen p; modalMode := modalMode p;
    isDetailModalOpen := isDetailModalOpen p; isLoading := isLoading p; pagination := pagination p |}).

Definition setPagination (pg : jsval) : M unit :=
  set_page (fun p => {| products := products p; tempProduct := tempProduct p;
    isProductModalOpen := isProductModalOpen p; modalMode := modalMode p;
    isDetailModalOpen := isDetailModalOpen p; isLoading := isLoading p; pagination := pg |}).

Definition setTempProduct (f : obj -> obj) : M unit :=
  set_page (fun p => {| products := products p; tempProduct := f (tempProduct p);
    isProductModalOpen := isProductModalOpen p; modalMode := modalMode p;
    isDetailModalOpen := isDetailModalOpen p; isLoading := isLoading p; pagination := pagination p |}).

(** The two dialog flags as updaters of the page: the dialogs' [onClose]
    callbacks are [setIsProductModalOpen(false)] and
    [setIsDetailModalOpen(false)]. *)
Definition with_product_open (b : bool) (p : page) : page :=
  {| products := products p; tempProduct := tempProduct p;
     isProductModalOpen := b; modalMode := modalMode p;
     isDetailModalOpen := isDetailModalOpen p; isLoading := isLoading p; pagination := pagination p |}.

Definition with_detail_open (b : bool) (p : page) : page :=
  {| products := products p; tempProduct := tempProduct p;
     isProductModalOpen := isProductModalOpen p; modalMode := modalMode p;
     isDetailModalOpen := b; isLoading := isLoading p; pagination := pagination p |}.

Definition setIsProductModalOpen (b : bool) : M unit := set_page (with_product_open b).

Definition setModalMode (m : jsval) : M unit :=
  set_page (fun p => {| products := products p; tempProduct := tempProduct p;
    isProductModalOpen := isProductModalOpen p; modalMode := m;
    isDetailModalOpen := isDetailModalOpen p; isLoading := isLoading p; pagination := pagination p |}).

Definition setIsDetailModalOpen (b : bool) : M unit := set_page (with_detail_open b).

(** An updater that throws: React rethrows it while rendering, and with
    no error boundary the page is gone. *)
Definition crash : M unit :=
  modify (fun w => {| w_page := w_page w; w_route := w_route w; w_cookie := w_cookie w;
                      w_auth := w_auth w; w_pending := w_pending w; w_next := w_next w;
                      w_toasts := w_toasts w; w_crashed := true |}).

Definition setTempProductR (f : obj -> result obj) : M unit :=
  fun w => match f (tempProduct (w_page w)) with
           | Ok p => setTempProduct (fun _ => p) w
           | Throw _ => crash w
           end.

Definition raise (t : toast) : M unit :=
  modify (fun w => {| w_page := w_page w; w_route := w_route w; w_cookie := w_cookie w;
                      w_auth := w_auth w; w_pending := w_pending w; w_next := w_next w;
                      w_toasts := w_toasts w ++ [t]; w_crashed := w_crashed w |}).

Definition navigate (r : route) : M unit :=
  modify (fun w => {| w_page := w_page w; w_route := r; w_cookie := w_cookie w;
                      w_auth := w_auth w; w_pending := w_pending w; w_next := w_next w;
                      w_toasts := w_toasts w; w_crashed := w_crashed w |}).

Definition set_session (cookie auth : string) : M unit :=
  modify (fun w => {| w_page := w_page w; w_route := w_route w; w_cookie := cookie;
                      w_auth := auth; w_pending := w_pending w; w_next := w_next w;
                      w_toasts := w_toasts w; w_crashed := w_crashed w |}).

(** Start an API call; the handler stops at its [await]. *)
Definition call (a : api_call) (k : cont) : M unit :=
  modify (fun w => {| w_page := w_page w; w_route := w_route w; w_cookie := w_cookie w;
                      w_auth := w_auth w;
                      w_pending := w_pending w ++ [{| rq_id := w_next w; rq_call := a; rq_cont := k |}];
                      w_next := S (w_next w);
                      w_toasts := w_toasts w; w_crashed := w_crashed w |}).

(** ** Handlers *)

(** [getData(page)], up to its [await]: [setIsLoading(true)] and the
    request. *)
Definition getData (pg : jsval) : M unit :=
  setIsLoading true ;; call (GetAdminProducts pg) KGetData.

(** The rest of [getData]: store the list and the pagination; on
    failure a toast and a redirect to the login route; [finally]
    [setIsLoading(false)].  A reply without a list makes
    [Object.values(res.data.products)] throw, which lands in [catch]. *)
Definition getData_resume (o : outcome) : M unit :=
  match o with
  | Resolved (RList ps pg) => setProducts ps ;; setPagination pg ;; setIsLoading false
  | _ => raise (Failure MsgFetchFailed) ;; navigate RLogin ;; setIsLoading false
  end.

(** [checkLogin()], up to its [await]. *)
Definition checkLogin (then_fetch : bool) : M unit :=
  setIsLoading true ;; call CheckUserLogin (KCheckLogin then_fetch).

(** The rest of [checkLogin], and of [isAuth] when it was the caller:
    [return true] then [finally], after which [isAuth] calls [getData()];
    on failure a toast, a redirect and [return false]. *)
Definition checkLogin_resume (then_fetch : bool) (o : outcome) : M unit :=
  match o with
  | Resolved _ => setIsLoading false ;; (if then_fetch then getData (JInt 1) else mret tt)
  | Rejected => raise (Failure MsgCheckFailed) ;; navigate RLogin ;; setIsLoading false
  end.

(** The mount effect: read [hexToken] from the cookie; without it a
    toast and a redirect; with it set the [Authorization] header and
    run [isAuth]. *)
Definition onMount : M unit :=
  fun w =>
    if String.eqb (w_cookie w) "" then
      (raise (Failure MsgNotLoggedIn) ;; navigate RLogin) w
    else (set_session (w_cookie w) (w_cookie w) ;; checkLogin true) w.

(** [handleLogout]: [adminLogout()] is not awaited; the cookie and the
    header are cleared, a toast, the login route. *)
Definition handleLogout : M unit :=
  call AdminLogout KIgnore ;; set_session "" "" ;;
  raise (Success MsgLoggedOut) ;; navigate RLogin.

(** [handleDelete(id)], up to its [await]. *)
Definition handleDelete (id : jsval) : M unit := call (DeleteProduct id) KDelete.

(** The rest of [handleDelete]: a toast and [getData()] (page 1), or a
    toast alone. *)
Definition handleDelete_resume (o : outcome) : M unit :=
  match o with
  | Resolved _ => raise (Success MsgDeleted) ;; getData (JInt 1)
  | Rejected => raise (Failure MsgDeleteFailed)
  end.

(** [handleUpload(e)] with the chosen file's size, if any: nothing
    without a file, a toast above 3 MiB, otherwise the upload. *)
Definition handleUpload (file : option N) : M unit :=
  match file with
  | None => mret tt
  | Some size =>
      if (3 * 1024 * 1024 <? size)%N then raise (Failure MsgFileTooLarge)
      else call (UploadImage size) KUpload
  end.

(** The rest of [handleUpload]: a toast and
    [setTempProduct((pre) => ({ ...pre, imageUrl: res.data.imageUrl }))]. *)
Definition handleUpload_resume (o : outcome) : M unit :=
  match o with
  | Resolved r =>
      raise (Success MsgUploaded) ;;
      setTempProduct (setUploadedImage (match r with RImage url => url | _ => JUndefined end))
  | Rejected => raise (Failure MsgUploadFailed)
  end.

(** [openModal(mode, product)]. *)
Definition openModal (mode : string) (product : obj) : M unit :=
  setModalMode (JStr mode) ;;
  (if String.eqb mode "create" then setTempProduct (fun _ => addNewProduct)
   else setTempProduct (fun _ => product)) ;;
  setIsProductModalOpen true.

Definition closeModal : M unit := setIsProductModalOpen false.

Definition handleOpenDetail (product : obj) : M unit :=
  setTempProduct (fun _ => product) ;; setIsDetailModalOpen true.

Definition handleCloseDetail : M unit := setIsDetailModalOpen false.

(** [handleModalSubmit()], up to its [await]: create in create mode,
    otherwise update [tempProduct.id]; the payload is the draft. *)
Definition handleModalSubmit : M unit :=
  p ← get_page;
  if js_eq_str (modalMode p) "create" then
    call (AddProduct (tempProduct p)) (KSubmit true)
  else call (UpdateProduct ((tempProduct p).["id"]) (tempProduct p)) (KSubmit false).

(** The rest of [handleModalSubmit]: a toast, [closeModal()] and
    [getData()] (page 1, not awaited), or a toast; [finally]
    [setIsLoading(false)] in both cases. *)
Definition handleModalSubmit_resume (create : bool) (o : outcome) : M unit :=
  match o with
  | Resolved _ =>
      raise (Success (if create then MsgCreated else MsgUpdated)) ;;
      closeModal ;; getData (JInt 1) ;; setIsLoading false
  | Rejected => raise (Failure MsgOpFailed) ;; setIsLoading false
  end.

Definition resume (k : cont) (o : outcome) : M unit :=
  match k with
  | KGetData => getData_resume o
  | KCheckLogin then_fetch => checkLogin_resume then_fetch o
  | KDelete => handleDelete_resume o
  | KUpload => handleUpload_resume o
  | KSubmit create => handleModalSubmit_resume create o
  | KIgnore => mret tt
  end.

(** ** Events *)

(** What the user and the network do once the page is mounted.  The
    buttons of the page: [重整資料] ([onClick={getData}], so the click
    event is the page argument), [驗證登入狀態] ([onClick={checkLogin}]),
    [建立新的商品], the row buttons by row index, [登出], the pagination
    widget's [onChangePage] (its page number).  Inside the product
    dialog: a draft edit of ProductModalView, a file chosen in the file
    input (its size, or none), [確認新增]/[確認修改], and the dialog's
    [onClose].  The detail dialog's [onClose].  The network answers a
    pending request by its id. *)
Inductive page_event : Type :=
| ClickRefresh (ev : positive)
| ClickCheckLogin
| ClickCreate
| ClickEdit (i : nat)
| ClickDetail (i : nat)
| ClickDelete (i : nat)
| ClickLogout
| ChangePage (n : Z)
| Draft (e : draft_event)
| PickFile (file : option N)
| Submit
| CloseProductModal
| CloseDetail
| Respond (id : nat) (o : outcome).

(** The row a row button reads, or nothing for a row that is not on
    screen. *)
Definition with_row (i : nat) (k : obj -> M unit) : M unit :=
  p ← get_page;
  match products p !! i with
  | Some item => k item
  | None => mret tt
  end.

(** A draft edit: [ui_apply] says whether the dialog offers it and what
    the updater returns.  The upload path goes through [PickFile]. *)
Definition draft_edit (e : draft_event) : M unit :=
  p ← get_page;
  match e with
  | Uploaded _ => mret tt
  | _ => match ui_apply (tempProduct p) e with
         | Some r => setTempProductR (fun _ => r)
         | None => mret tt
         end
  end.

(** The world without its [n]-th pending request. *)
Definition drop_request (n : nat) (w : world) : world :=
  {| w_page := w_page w; w_route := w_route w; w_cookie := w_cookie w;
     w_auth := w_auth w; w_pending := delete n (w_pending w); w_next := w_next w;
     w_toasts := w_toasts w; w_crashed := w_crashed w |}.

(** Take the pending request [id] out of the world, if there is one. *)
Definition take_request (id : nat) (w : world) : option (request * world) :=
  match list_find (fun rq => rq_id rq = id) (w_pending w) with
  | Some (n, rq) => Some (rq, drop_request n w)
  | None => None
  end.

(** What the user can reach on screen: the page's own buttons (no
    dialog in front of them), the product dialog's controls, the detail
    dialog's close button. *)
Record screen : Type := {
  sc_page : bool;
  sc_product : bool;
  sc_detail : bool
}.

(** The screen as the page's flags describe it: a dialog is on screen
    when its flag is set.  (PageDialogs.v reads it off the widgets.) *)
Definition flag_screen (p : page) : screen :=
  {| sc_page := negb (isProductModalOpen p) && negb (isDetailModalOpen p);
     sc_product := isProductModalOpen p; sc_detail := isDetailModalOpen p |}.

(** The handler an event runs, if the screen offers it. *)
Definition dispatch (sc : screen) (ev : page_event) : M unit :=
  let idle := sc_page sc in
  let editing := sc_product sc in
  match ev with
  | ClickRefresh e => if idle then getData (JRef e) else mret tt
  | ClickCheckLogin => if idle then checkLogin false else mret tt
  | ClickCreate => if idle then openModal "create" ∅ else mret tt
  | ClickEdit i => if idle then with_row i (openModal "edit") else mret tt
  | ClickDetail i => if idle then with_row i handleOpenDetail else mret tt
  | ClickDelete i => if idle then with_row i (fun item => handleDelete (item.["id"])) else mret tt
  | ClickLogout => if idle then handleLogout else mret tt
  | ChangePage n => if idle then getData (JInt n) else mret tt
  | Draft e => if editing then draft_edit e else mret tt
  | PickFile f => if editing then handleUpload f else mret tt
  | Submit => if editing then handleModalSubmit else mret tt
  | CloseProductModal => if editing then closeModal else mret tt
  | CloseDetail => if sc_detail sc then handleCloseDetail else mret tt
  | Respond _ _ => mret tt
  end.

(** The handler of an event.  A reply resumes its [await] whatever the
    route (the toasts and redirects of a late reply still happen); every
    other event needs the page on screen. *)
Definition handle_on (sc : screen) (w : world) (ev : page_event) : world :=
  match ev with
  | Respond id o =>
      match take_request id w with
      | Some (rq, w') => snd (resume (rq_cont rq) o w')
      | None => w
      end
  | _ =>
      if w_crashed w then w
      else match w_route w with
           | RProducts => snd (dispatch sc ev w)
           | RLogin => w
           end
  end.

Definition handle (w : world) (ev : page_event) : world :=
  handle_on (flag_screen (w_page w)) w ev.

(** A row of the table (lines 272-283): the title, the popularity and
    both prices as text, and [item.is_enabled ? 啟用 : 未啟用]. *)
Record row_view : Type := {
  r_title : jsval;
  r_trending : jsval;
  r_origin_price : jsval;
  r_price : jsval;
  r_enabled : bool
}.

Definition row_children : list string := ["title"; "trending"; "origin_price"; "price"].

Definition row_render (item : obj) : result row_view :=
  with_children item row_children
    {| r_title := item.["title"]; r_trending := item.["trending"];
       r_origin_price := item.["origin_price"]; r_price := item.["price"];
       r_enabled := js_truthy (item.["is_enabled"]) |}.

(** [products.map((item) => <tr key={item.id}>...</tr>)]. *)
Fixpoint table_render (ps : list obj) : result (list row_view) :=
  match ps with
  | [] => Ok []
  | item :: ps' => r ← row_render item; rs ← table_render ps'; mret (r :: rs)
  end.

(** What the page renders: the table, and the product dialog and the
    detail dialog, which are both always mounted and both render
    [tempProduct]. *)
Definition renders (p : page) : bool :=
  match table_render (products p), render (modalMode p) (tempProduct p),
        DetailModalView.detail_render (tempProduct p) with
  | Ok _, Ok _, Ok _ => true
  | _, _, _ => false
  end.

(** React re-renders the mounted page after the handler; a render that
    throws takes the page down (there is no error boundary). *)
Definition commit (w : world) : world :=
  match w_route w with
  | RProducts => if renders (w_page w) then w else snd (crash w)
  | RLogin => w
  end.

(** One step of the world: the handler, then the render. *)
Definition step_on (sc : screen) (w : world) (ev : page_event) : world :=
  commit (handle_on sc w ev).

Definition step (w : world) (ev : page_event) : world := step_on (flag_screen (w_page w)) w ev.

(** The page as App.jsx mounts it on [/products], with the cookie the
    browser holds, after the mount effect has run. *)
Definition initial_world (cookie : string) : world :=
  {| w_page := initial_page; w_route := RProducts; w_cookie := cookie; w_auth := "";
     w_pending := []; w_next := 0; w_toasts := []; w_crashed := false |}.

Definition start (cookie : string) : world := snd (onMount (initial_world cookie)).

(** The spec's create flow: the session check and the list come back,
    the user opens the create dialog, types "Pen" as the title and "35"
    as the price, and submits. *)
Definition create_flow : list page_event :=
  [Respond 0 (Resolved RDone); Respond 1 (Resolved (RList [] (JInt 1)));
   ClickCreate; Draft (Change 0 "Pen"); Draft (Change 4 "35"); Submit].

(** ** Invariants of the world, handler by handler *)

(** A property of the world that every primitive effect keeps is kept
    by every handler and by every step.  The primitives are the React
    state setters ([set_page]), the toast, the redirect, the session
    update, the API call, the crash and the removal of an answered
    request. *)
Section Keeps.
Context (P : world -> Prop).

Definition keeps {A} (m : M A) : Prop := forall w, P w -> P (snd (m w)).

Hypothesis keeps_set_page : forall f, keeps (set_page f).
Hypothesis keeps_raise : forall t, keeps (raise t).
Hypothesis keeps_navigate : keeps (navigate RLogin).
Hypothesis keeps_set_session : forall c a, keeps (set_session c a).
Hypothesis keeps_call : forall a k, keeps (call a k).
Hypothesis keeps_crash : keeps crash.
Hypothesis keeps_drop : forall n w, P w -> P (drop_request n w).

Lemma keeps_ret {A} (a : A) : keeps (mret a).
Proof. by intros w. Qed.

Lemma keeps_bind {A B} (m : M A) (k : A -> M B) :
  keeps m -> (forall a, keeps (k a)) -> keeps (m ≫= k).
Proof.
  intros Hm Hk w Hw. unfold mbind, M_bind. destruct (m w) as [a w'] eqn:E.
  apply Hk. change w' with (snd (a, w')). rewrite <- E. by apply Hm.
Qed.

Lemma keeps_get_page : keeps get_page.
Proof. by intros w. Qed.

Lemma keeps_setTempProductR f : keeps (setTempProductR f).
Proof. intros w Hw. unfold setTempProductR. case_match; [by apply keeps_set_page|by apply keeps_crash]. Qed.

Local Ltac keeps_tac :=
  repeat (intros || match goal with
  | |- keeps (_ ≫= _) => apply keeps_bind
  | |- keeps (mret _) => apply keeps_ret
  | |- keeps get_page => apply keeps_get_page
  | |- keeps (raise _) => apply keeps_raise
  | |- keeps (navigate _) => apply keeps_navigate
  | |- keeps (set_session _ _) => apply keeps_set_session
  | |- keeps (call _ _) => apply keeps_call
  | |- keeps (setTempProductR _) => apply keeps_setTempProductR
  | |- keeps (set_page _) => apply keeps_set_page
  | |- keeps (match ?x with _ => _ end) => destruct x
  | |- keeps _ => progress unfold setIsLoading, setProducts, setPagination,
      setTempProduct, setIsProductModalOpen, setModalMode, setIsDetailModalOpen,
      getData, checkLogin, handleLogout, handleDelete, handleUpload, openModal,
      closeModal, handleOpenDetail, handleCloseDetail, handleModalSubmit,
      with_row, draft_edit
  end).

Lemma keeps_resume k o : keeps (resume k o).
Proof.
  destruct k; simpl; [unfold getData_resume|unfold checkLogin_resume|unfold handleDelete_resume
  |unfold handleUpload_resume|unfold handleModalSubmit_resume|]; keeps_tac.
Qed.

Lemma keeps_dispatch sc ev : keeps (dispatch sc ev).
Proof. destruct ev; simpl; keeps_tac. Qed.

Lemma keeps_onMount : keeps onMount.
Proof.
  intros w Hw. unfold onMount.
  assert (keeps (raise (Failure MsgNotLoggedIn) ;; navigate RLogin)) as H1 by keeps_tac.
  assert (forall c, keeps (set_session c c ;; checkLogin true)) as H2 by keeps_tac.
  destruct (String.eqb (w_cookie w) ""); [apply H1|apply H2]; done.
Qed.

Lemma keeps_step_on sc w ev : P w -> P (step_on sc w ev).
Proof.
  intros Hw. unfold step_on. assert (P (handle_on sc w ev)) as Hh; last first.
  { unfold commit. destruct (w_route _); [done|]. destruct (renders _); [done|by apply keeps_crash]. }
  unfold handle_on. destruct ev;
    try (destruct (w_crashed w); [done|]; destruct (w_route w); [done|by apply keeps_dispatch]).
  unfold take_request. destruct (list_find _ _) as [[n rq]|]; [|done].
  apply keeps_resume. by apply keeps_drop.
Qed.

Lemma keeps_step w ev : P w -> P (step w ev).
Proof. apply keeps_step_on. Qed.

End Keeps.

(** The worlds the page can reach from its mount. *)
Inductive reachable : world -> Prop :=
| reachable_start cookie : reachable (start cookie)
| reachable_step sc w ev : reachable w -> reachable (step_on sc w ev).

(** Pending requests have distinct ids, all below the next id. *)
Definition ids_ok (w : world) : Prop :=
  Forall (fun rq => rq_id rq < w_next w) (w_pending w) /\ NoDup (rq_id <$> w_pending w).

Lemma ids_ok_keeps_call a k : keeps ids_ok (call a k).
Proof.
  intros w [Hlt Hnd]. unfold ids_ok, call, modify; cbn [snd w_pending w_next]. split.
  - apply Forall_app; split; [|by repeat constructor; simpl; lia].
    eapply Forall_impl; [done|]; simpl; lia.
  - rewrite fmap_app. apply NoDup_app; split_and!; [done| |by apply NoDup_singleton].
    intros x Hx Hx2. simpl in Hx2. apply list_elem_of_singleton in Hx2. apply list_elem_of_fmap in Hx as (rq & Hx & Hrq). subst.
    rewrite Forall_forall in Hlt. specialize (Hlt rq Hrq); simpl in Hlt; lia.
Qed.

Lemma ids_ok_drop n w : ids_ok w -> ids_ok (drop_request n w).
Proof.
  intros [Hlt Hnd]; split; simpl.
  - by apply Forall_delete.
  - rewrite list_fmap_delete. eapply sublist_NoDup; [done|apply sublist_delete].
Qed.

Lemma ids_ok_step sc w ev : ids_ok w -> ids_ok (step_on sc w ev).
Proof.
  apply keeps_step_on; first
    [apply ids_ok_keeps_call|apply ids_ok_drop|by intros ? ? []|by intros ? []|by intros ? ? ? []].
Qed.

(** Every reachable world keeps the ids of its requests in flight
    distinct and below the next id, whatever screens the events came
    from: a reply resumes exactly one [await]. *)
Lemma reachable_ids_ok w : reachable w -> ids_ok w.
Proof.
  induction 1 as [c|sc w ev _ IH]; [|by apply ids_ok_step].
  unfold start. apply (keeps_onMount ids_ok); first
    [apply ids_ok_keeps_call|apply ids_ok_drop|by intros ? ? []|by intros ? []|split; constructor].
Qed.

(** ** How a step reads *)

(** The page is on screen and alive. *)
Definition live (w : world) : Prop := w_crashed w = false /\ w_route w = RProducts.

Definition is_reply (ev : page_event) : bool :=
  match ev with Respond _ _ => true | _ => false end.

Lemma handle_on_live sc w ev :
  live w -> is_reply ev = false -> handle_on sc w ev = snd (dispatch sc ev w).
Proof. intros [Hc Hr] He. unfold handle_on. rewrite Hc, Hr. by destruct ev. Qed.

Lemma handle_live w ev :
  live w -> is_reply ev = false -> handle w ev = snd (dispatch (flag_screen (w_page w)) ev w).
Proof. apply handle_on_live. Qed.

Lemma handle_not_live sc w ev : ~ live w -> is_reply ev = false -> handle_on sc w ev = w.
Proof.
  intros Hl He. unfold handle_on. destruct ev; try done;
    destruct (w_crashed w) eqn:Hc; try done;
    destruct (w_route w) eqn:Hr; done || (exfalso; by apply Hl).
Qed.

(** Answering a pending request runs the continuation of its [await] on
    the world without it. *)
Lemma handle_respond sc w rq o :
  ids_ok w -> rq ∈ w_pending w ->
  exists n, w_pending w !! n = Some rq /\
    handle_on sc w (Respond (rq_id rq) o) = snd (resume (rq_cont rq) o (drop_request n w)).
Proof.
  intros [_ Hnd] Hin. unfold handle_on, take_request.
  destruct (list_find_elem_of (fun r => rq_id r = rq_id rq) _ rq Hin eq_refl) as [[n x] Hf].
  rewrite Hf. apply list_find_Some in Hf as (Hn & Hid & _).
  apply list_elem_of_lookup_1 in Hin as [j Hj].
  assert (n = j) as ->.
  { eapply NoDup_lookup; [done| |]; rewrite list_lookup_fmap; [rewrite Hn|rewrite Hj]; simpl;
      [by rewrite Hid|done]. }
  rewrite Hj in Hn. simplify_eq. by exists j.
Qed.

(** The render neither changes the page nor the environment: it can
    only take the page down. *)
Lemma commit_page w : w_page (commit w) = w_page w.
Proof. unfold commit. by repeat case_match. Qed.
Lemma commit_route w : w_route (commit w) = w_route w.
Proof. unfold commit. by repeat case_match. Qed.
Lemma commit_pending w : w_pending (commit w) = w_pending w.
Proof. unfold commit. by repeat case_match. Qed.
Lemma commit_next w : w_next (commit w) = w_next w.
Proof. unfold commit. by repeat case_match. Qed.
Lemma commit_toasts w : w_toasts (commit w) = w_toasts w.
Proof. unfold commit. by repeat case_match. Qed.
Lemma commit_session w : w_cookie (commit w) = w_cookie w /\ w_auth (commit w) = w_auth w.
Proof. unfold commit. by repeat case_match. Qed.

#[export] Hint Rewrite commit_page commit_route commit_pending commit_next commit_toasts : admin_rw.

(** A reply to a pending request, as the world sees it after the
    render. *)
Lemma step_on_respond sc w rq o :
  ids_ok w -> rq ∈ w_pending w ->
  exists n, w_pending w !! n = Some rq /\
    step_on sc w (Respond (rq_id rq) o) = commit (snd (resume (rq_cont rq) o (drop_request n w))).
Proof.
  intros Hok Hin. destruct (handle_respond sc w rq o Hok Hin) as (n & Hn & Hh).
  exists n. unfold step_on. by rewrite Hh.
Qed.

Lemma step_respond w rq o :
  ids_ok w -> rq ∈ w_pending w ->
  exists n, w_pending w !! n = Some rq /\
    step w (Respond (rq_id rq) o) = commit (snd (resume (rq_cont rq) o (drop_request n w))).
Proof. apply step_on_respond. Qed.

(** Take a reply step apart: the request's position, the continuation
    it runs, and the fields of the world after the render. *)
Ltac respond_step w rq o Hok Hin :=
  let n := fresh "n" in let Hn := fresh "Hn" in let Hs := fresh "Hs" in
  destruct (step_respond w rq o Hok Hin) as (n & Hn & Hs); rewrite Hs;
  autorewrite with admin_rw.

(** The render reads the draft and the mode only. *)
Lemma renders_ext p p' :
  products p = products p' -> tempProduct p = tempProduct p' -> modalMode p = modalMode p' ->
  renders p = renders p'.
Proof. unfold renders. by intros -> -> ->. Qed.

Lemma commit_id w : live w -> renders (w_page w) = true -> commit w = w.
Proof. intros [_ Hr] Hd. unfold commit. by rewrite Hr, Hd. Qed.

(** After every step a page on screen has rendered. *)
Lemma commit_renders w : live (commit w) -> renders (w_page (commit w)) = true.
Proof.
  unfold commit, live. destruct (w_route w) eqn:Hr; [intros [_ ?]; congruence|].
  destruct (renders _) eqn:Hd; [done|intros [Hc _]; discriminate Hc].
Qed.

Lemma start_renders cookie : renders (w_page (start cookie)) = true.
Proof. unfold start, onMount. destruct (String.eqb _ _); simpl; vm_compute; reflexivity. Qed.

Lemma reachable_renders w : reachable w -> live w -> renders (w_page w) = true.
Proof. destruct 1; [intros _; apply start_renders|apply commit_renders]. Qed.

(** A step on the page on screen whose handler keeps the page on screen
    and rendering is the handler. *)
Lemma step_live w ev :
  live w -> is_reply ev = false ->
  live (snd (dispatch (flag_screen (w_page w)) ev w)) ->
  renders (w_page (snd (dispatch (flag_screen (w_page w)) ev w))) = true ->
  step w ev = snd (dispatch (flag_screen (w_page w)) ev w).
Proof. intros Hl He Hl' Hd. unfold step, step_on. rewrite handle_on_live by done. by apply commit_id. Qed.

(** Off the products route only replies do anything. *)
Lemma run_logged_out w evs :
  w_route w = RLogin -> Forall (fun ev => is_reply ev = false) evs -> run step w evs = w.
Proof.
  intros Hr Hevs. induction Hevs as [|ev evs He _ IH]; [done|].
  rewrite run_cons. unfold step, step_on. rewrite handle_not_live; [|intros [_ ?]; congruence|done].
  unfold commit. by rewrite Hr.
Qed.

Lemma commit_id_if w : (w_route w = RProducts -> renders (w_page w) = true) -> commit w = w.
Proof. unfold commit. destruct (w_route w); [done|]. intros Hd. by rewrite Hd. Qed.

(** A step on the page on screen is its handler, when the handler
    leaves a page that renders. *)
Lemma step_dispatch w ev :
  live w -> is_reply ev = false ->
  (w_route (snd (dispatch (flag_screen (w_page w)) ev w)) = RProducts ->
   renders (w_page (snd (dispatch (flag_screen (w_page w)) ev w))) = true) ->
  step w ev = snd (dispatch (flag_screen (w_page w)) ev w).
Proof. intros Hl He Hd. unfold step, step_on. rewrite handle_on_live by done. by apply commit_id_if. Qed.

(** A submit in the dialog on screen runs [handleModalSubmit] and
    nothing else. *)
Lemma step_submit w :
  live w -> renders (w_page w) = true -> isProductModalOpen (w_page w) = true ->
  step w Submit = snd (handleModalSubmit w).
Proof.
  intros [Hc Hrt] Hd Ho. unfold step, step_on, handle_on. rewrite Hc, Hrt. simpl dispatch. rewrite Ho.
  unfold handleModalSubmit, mbind, M_bind, get_page.
  destruct (js_eq_str _ _); unfold commit; simpl; by rewrite Hrt, Hd.
Qed.

(** A submit in the create dialog on screen only sends the create
    request. *)
Lemma step_submit_create w :
  live w -> renders (w_page w) = true -> isProductModalOpen (w_page w) = true ->
  modalMode (w_page w) = JStr "create" ->
  step w Submit = snd (call (AddProduct (tempProduct (w_page w))) (KSubmit true) w).
Proof.
  intros Hl Hd Ho Hm. rewrite step_submit by done.
  unfold handleModalSubmit, mbind, M_bind, get_page. by rewrite Hm.
Qed.

Lemma reachable_run_page w evs : reachable w -> reachable (run step w evs).
Proof. revert w. induction evs as [|ev evs IH]; intros w Hw; [done|]. apply IH. by constructor. Qed.

#[export] Instance ids_ok_dec w : Decision (ids_ok w).
Proof. unfold ids_ok. apply _. Defined.

(** ** Properties of the page *)

(** C19: After a successful create or update, the dialog closes and the
    list is refetched from page 1 — and the loading spinner is off while
    that refetch is in flight: [getData()] is not awaited, so the
    [finally] of [handleModalSubmit] turns off the flag [getData] has
    just turned on. *)
Theorem submit_success_refetch_spinner_off w rq create r :
  ids_ok w -> rq ∈ w_pending w -> rq_cont rq = KSubmit create ->
  let w' := step w (Respond (rq_id rq) (Resolved r)) in
  isProductModalOpen (w_page w') = false /\ isLoading (w_page w') = false /\
  {| rq_id := w_next w; rq_call := GetAdminProducts (JInt 1); rq_cont := KGetData |} ∈ w_pending w' /\
  w_toasts w' = w_toasts w ++ [Success (if create then MsgCreated else MsgUpdated)].
Proof.
  intros Hok Hin Hk w'. subst w'. respond_step w rq (Resolved r) Hok Hin. rewrite Hk. simpl.
  split_and!; [done|done|by apply elem_of_app; right; left|done].
Qed.

(** C20: A rejected create or update keeps the dialog open with the
    draft as it was, makes no new request, and shows one error toast;
    the spinner is off. *)
Theorem submit_failure_keeps_draft w rq create :
  ids_ok w -> rq ∈ w_pending w -> rq_cont rq = KSubmit create ->
  let w' := step w (Respond (rq_id rq) Rejected) in
  tempProduct (w_page w') = tempProduct (w_page w) /\
  isProductModalOpen (w_page w') = isProductModalOpen (w_page w) /\
  isLoading (w_page w') = false /\ w_next w' = w_next w /\ w_route w' = w_route w /\
  w_toasts w' = w_toasts w ++ [Failure MsgOpFailed].
Proof.
  intros Hok Hin Hk w'. subst w'. respond_step w rq Rejected Hok Hin. rewrite Hk. simpl.
  by split_and!.
Qed.

(** C21: A successful delete refetches page 1, whatever page the list
    shows: [getData()] is called without an argument. *)
Theorem delete_success_refetches_first_page w rq r :
  ids_ok w -> rq ∈ w_pending w -> rq_cont rq = KDelete ->
  let w' := step w (Respond (rq_id rq) (Resolved r)) in
  {| rq_id := w_next w; rq_call := GetAdminProducts (JInt 1); rq_cont := KGetData |} ∈ w_pending w' /\
  isLoading (w_page w') = true /\ pagination (w_page w') = pagination (w_page w) /\
  w_toasts w' = w_toasts w ++ [Success MsgDeleted].
Proof.
  intros Hok Hin Hk w'. subst w'. respond_step w rq (Resolved r) Hok Hin. rewrite Hk. simpl.
  split_and!; [by apply elem_of_app; right; left|done..].
Qed.

(** C22: A rejected delete only shows a toast: no redirect to the login
    route and no refetch, whatever the reason of the rejection (an
    expired session included). *)
Theorem delete_failure_no_redirect w rq :
  ids_ok w -> rq ∈ w_pending w -> rq_cont rq = KDelete ->
  let w' := step w (Respond (rq_id rq) Rejected) in
  w_route w' = w_route w /\ w_page w' = w_page w /\ w_next w' = w_next w /\
  w_toasts w' = w_toasts w ++ [Failure MsgDeleteFailed].
Proof.
  intros Hok Hin Hk w'. subst w'. respond_step w rq Rejected Hok Hin. rewrite Hk. simpl.
  by split_and!.
Qed.

(** C23: A failed fetch of the list redirects to the login route with an
    error toast, keeps the list and its pagination, and turns the
    spinner off.  A reply without a list counts as a failure:
    [Object.values(undefined)] throws inside the [try]. *)
Theorem fetch_failure_redirects w rq o :
  ids_ok w -> rq ∈ w_pending w -> rq_cont rq = KGetData ->
  (forall ps pg, o <> Resolved (RList ps pg)) ->
  let w' := step w (Respond (rq_id rq) o) in
  w_route w' = RLogin /\ products (w_page w') = products (w_page w) /\
  pagination (w_page w') = pagination (w_page w) /\ isLoading (w_page w') = false /\
  w_toasts w' = w_toasts w ++ [Failure MsgFetchFailed].
Proof.
  intros Hok Hin Hk Ho w'. subst w'. respond_step w rq o Hok Hin. rewrite Hk. simpl.
  destruct o as [[ps pg| |]|]; [by destruct (Ho ps pg)|by split_and!..].
Qed.

(** A successful fetch replaces the list and its pagination
    wholesale and turns the spinner off. *)
Theorem fetch_success_replaces w rq ps pg :
  ids_ok w -> rq ∈ w_pending w -> rq_cont rq = KGetData ->
  let w' := step w (Respond (rq_id rq) (Resolved (RList ps pg))) in
  products (w_page w') = ps /\ pagination (w_page w') = pg /\
  isLoading (w_page w') = false /\ w_route w' = w_route w /\ w_toasts w' = w_toasts w.
Proof.
  intros Hok Hin Hk w'. subst w'. respond_step w rq (Resolved (RList ps pg)) Hok Hin.
  rewrite Hk. simpl. by split_and!.
Qed.

(** C25: A finished upload writes its URL into whatever draft the page
    holds when the reply arrives, not the draft it was chosen for: the
    updater reads [pre], the current [tempProduct]. *)
Theorem upload_writes_current_draft w rq url :
  ids_ok w -> rq ∈ w_pending w -> rq_cont rq = KUpload ->
  let w' := step w (Respond (rq_id rq) (Resolved (RImage url))) in
  tempProduct (w_page w') = <["imageUrl" := url]> (tempProduct (w_page w)) /\
  w_toasts w' = w_toasts w ++ [Success MsgUploaded].
Proof.
  intros Hok Hin Hk w'. subst w'. respond_step w rq (Resolved (RImage url)) Hok Hin.
  rewrite Hk. simpl. by split_and!.
Qed.

(** C26: Nothing stops a second submit while the first is in flight:
    two clicks on the submit button of the create dialog send two
    create requests with the same payload. *)
Theorem double_submit_two_creates w :
  reachable w -> live w -> isProductModalOpen (w_page w) = true ->
  modalMode (w_page w) = JStr "create" ->
  w_pending (run step w [Submit; Submit]) =
    w_pending w ++
    [{| rq_id := w_next w; rq_call := AddProduct (tempProduct (w_page w)); rq_cont := KSubmit true |};
     {| rq_id := S (w_next w); rq_call := AddProduct (tempProduct (w_page w)); rq_cont := KSubmit true |}].
Proof.
  intros Hr Hl Ho Hm. pose proof (reachable_renders w Hr Hl) as Hd.
  rewrite !run_cons, run_nil, (step_submit_create w) by done.
  rewrite step_submit_create by (by destruct Hl).
  simpl. by rewrite <- app_assoc.
Qed.

(** C27: The refresh button passes its click event to [getData] as the
    page number ([onClick={getData}]): the list request it sends asks
    for the event object, not for a page. *)
Theorem refresh_passes_click_event w e :
  reachable w -> live w -> isProductModalOpen (w_page w) = false ->
  isDetailModalOpen (w_page w) = false ->
  let w' := step w (ClickRefresh e) in
  isLoading (w_page w') = true /\
  w_pending w' = w_pending w ++
    [{| rq_id := w_next w; rq_call := GetAdminProducts (JRef e); rq_cont := KGetData |}].
Proof.
  intros Hr Hl Ho Hd w'. subst w'. pose proof (reachable_renders w Hr Hl) as Hrd.
  rewrite step_dispatch; [|done|done|]; simpl; rewrite Ho, Hd; simpl; [done|].
  intros _. by rewrite <- Hrd.
Qed.

(** C28: A file over 3 MiB is refused before any request: the page
    shows one error toast and nothing else changes. *)
Theorem upload_too_large_no_request w size :
  reachable w -> live w -> isProductModalOpen (w_page w) = true ->
  (3 * 1024 * 1024 < size)%N ->
  let w' := step w (PickFile (Some size)) in
  w_pending w' = w_pending w /\ w_next w' = w_next w /\ w_page w' = w_page w /\
  w_toasts w' = w_toasts w ++ [Failure MsgFileTooLarge].
Proof.
  intros Hr Hl Ho Hs w'. subst w'. pose proof (reachable_renders w Hr Hl) as Hrd.
  apply N.ltb_lt in Hs.
  rewrite step_dispatch; [|done|done|]; simpl; rewrite Ho; simpl; rewrite Hs; simpl; [done|].
  by intros _.
Qed.

(** C29: Logging out clears the cookie and the [Authorization] header,
    sends the logout request without waiting for it, and leaves for the
    login route; from then on no user event changes anything. *)
Theorem logout_ends_session w :
  reachable w -> live w -> isProductModalOpen (w_page w) = false ->
  isDetailModalOpen (w_page w) = false ->
  let w' := step w ClickLogout in
  w_route w' = RLogin /\ w_cookie w' = "" /\ w_auth w' = "" /\
  {| rq_id := w_next w; rq_call := AdminLogout; rq_cont := KIgnore |} ∈ w_pending w' /\
  w_toasts w' = w_toasts w ++ [Success MsgLoggedOut] /\
  (forall evs, Forall (fun ev => is_reply ev = false) evs -> run step w' evs = w').
Proof.
  intros Hr Hl Ho Hd w'. subst w'.
  rewrite step_dispatch; [|done|done|]; simpl; rewrite Ho, Hd; simpl; [|done].
  split_and!; [done..|by apply elem_of_app; right; left|done|].
  intros evs Hevs. by apply run_logged_out.
Qed.

(** ** Crash freedom *)

(** A product the page can show: a well-formed draft with no object in
    a field the table or the detail dialog shows as text. *)
Definition product_ok (item : obj) : Prop :=
  draft_wf item /\ children_ok item DetailModalView.detail_children = true.

(** The page that always renders: a product as the draft, and a list of
    products to open it from. *)
Definition page_ok (p : page) : Prop :=
  product_ok (tempProduct p) /\ Forall product_ok (products p).

(** What the API's create and update calls expect: a product, here a
    well-formed draft. *)
Definition payload_ok (a : api_call) : Prop :=
  match a with
  | AddProduct d | UpdateProduct _ d => draft_wf d
  | _ => True
  end.

Definition safe (w : world) : Prop :=
  w_crashed w = false /\ page_ok (w_page w) /\ Forall (fun rq => payload_ok (rq_call rq)) (w_pending w).

(** The server sends rows the page can show. *)
Definition server_ok (ev : page_event) : Prop :=
  match ev with
  | Respond _ (Resolved (RList ps _)) => Forall product_ok ps
  | _ => True
  end.

(** Neither image field is shown as text. *)
Lemma detail_children_images :
  ("imagesUrl" ∉ DetailModalView.detail_children) /\ ("imageUrl" ∉ DetailModalView.detail_children).
Proof. split; apply (bool_decide_unpack _); by vm_compute. Qed.

Lemma product_ok_addNewProduct : product_ok addNewProduct.
Proof. split; [apply draft_wf_addNewProduct|by vm_compute]. Qed.

Lemma product_ok_upload tp url : product_ok tp -> product_ok (setUploadedImage url tp).
Proof.
  intros [Hd Hc]. unfold setUploadedImage. split.
  - apply draft_wf_insert; [exact Hd|]. by apply field_ok_other.
  - by rewrite children_ok_insert_other by apply detail_children_images.
Qed.

Lemma product_ok_ui_apply tp e tp' : product_ok tp -> ui_apply tp e = Some (Ok tp') -> product_ok tp'.
Proof.
  intros [Hd Hc] Hu. destruct (ui_apply_wf _ _ _ Hd Hu) as (p' & [= <-] & Hp').
  split; [done|]. eapply ui_apply_children; [apply detail_children_images|done|done].
Qed.

Lemma children_ok_sub (o : obj) ks ks' :
  ks' ⊆ ks -> children_ok o ks = true -> children_ok o ks' = true.
Proof.
  unfold children_ok. rewrite !forallb_forall. intros Hs Hc k Hk.
  apply Hc, list_elem_of_In, Hs, list_elem_of_In, Hk.
Qed.

Lemma table_render_ok ps : Forall product_ok ps -> exists rs, table_render ps = Ok rs.
Proof.
  induction 1 as [|item ps [_ Hc] _ [rs IH]]; [by eexists|]. simpl.
  unfold row_render, with_children.
  rewrite (children_ok_sub item DetailModalView.detail_children);
    [|apply (bool_decide_unpack _); by vm_compute|done].
  rewrite IH. by eexists.
Qed.

Lemma keeps_safe_set_page f : (forall p, page_ok p -> page_ok (f p)) -> keeps safe (set_page f).
Proof. intros Hf w (Hc & Hp & Hq). split_and!; [done|by apply Hf|done]. Qed.

Lemma keeps_safe_modify f :
  (forall w, w_crashed (f w) = w_crashed w /\ w_page (f w) = w_page w /\ w_pending (f w) = w_pending w) ->
  keeps safe (modify f).
Proof.
  intros Hf w (Hc & Hp & Hq). destruct (Hf w) as (H1 & H2 & H3).
  split_and!; simpl; [by rewrite H1|by rewrite H2|by rewrite H3].
Qed.

Lemma keeps_get_page_bind {A} (k : page -> M A) :
  (forall w, safe w -> safe (snd (k (w_page w) w))) -> keeps safe (get_page ≫= k).
Proof. intros Hk w Hw. by apply Hk. Qed.

Lemma keeps_safe_setTempProduct f :
  (forall tp, product_ok tp -> product_ok (f tp)) -> keeps safe (setTempProduct f).
Proof. intros Hf. apply keeps_safe_set_page. intros p [Hd Hps]. split; [by apply Hf|done]. Qed.

Lemma keeps_safe_call a k : payload_ok a -> keeps safe (call a k).
Proof.
  intros Ha w (Hc & Hp & Hq). split_and!; [done|done|]. simpl.
  apply Forall_app. by split; [|constructor].
Qed.

Lemma safe_drop n w : safe w -> safe (drop_request n w).
Proof. intros (Hc & Hp & Hq). split_and!; [done|done|by apply Forall_delete]. Qed.

Local Ltac safe_tac :=
  repeat (intros || match goal with
  | |- keeps _ (get_page ≫= _) => apply keeps_get_page_bind
  | |- keeps _ (_ ≫= _) => apply keeps_bind
  | |- keeps _ (mret _) => apply keeps_ret
  | |- keeps _ (setTempProduct _) => apply keeps_safe_setTempProduct
  | |- keeps _ (setProducts _) => apply keeps_safe_set_page; intros ? [? ?]; split
  | |- keeps _ (set_page _) => apply keeps_safe_set_page; by intros ? [? ?]
  | |- keeps _ (modify _) => apply keeps_safe_modify; by intros
  | |- keeps _ (match ?x with _ => _ end) => destruct x
  | |- safe (snd ((if ?b then _ else _) _)) => destruct b
  | Hw : safe ?w |- safe (snd (call ?a ?k ?w)) =>
      apply (keeps_safe_call a k); [destruct Hw as (_ & [[? _] _] & _); done|exact Hw]
  | |- keeps _ (call _ _) => apply keeps_safe_call; done
  | |- keeps _ _ => progress unfold setIsLoading, setPagination, setIsProductModalOpen,
      setModalMode, setIsDetailModalOpen, raise, navigate, set_session,
      getData, checkLogin, handleLogout, handleDelete, handleUpload, closeModal,
      handleCloseDetail, handleModalSubmit
  end).

Lemma keeps_safe_resume k o :
  (forall ps pg, o = Resolved (RList ps pg) -> Forall product_ok ps) -> keeps safe (resume k o).
Proof.
  intros Ho. destruct k; simpl; [unfold getData_resume|unfold checkLogin_resume|unfold handleDelete_resume
  |unfold handleUpload_resume|unfold handleModalSubmit_resume|]; safe_tac; try done.
  - by eapply Ho.
  - by apply product_ok_upload.
Qed.

Lemma keeps_safe_with_row i (k : obj -> M unit) :
  (forall item, product_ok item -> keeps safe (k item)) -> keeps safe (with_row i k).
Proof.
  intros Hk. unfold with_row. apply keeps_get_page_bind. intros w Hw.
  destruct (products (w_page w) !! i) eqn:Hi; [|done]. apply Hk; [|done].
  destruct Hw as (_ & (_ & Hps) & _). by eapply Forall_lookup_1.
Qed.

Lemma keeps_safe_openModal mode item :
  (String.eqb mode "create" = false -> product_ok item) -> keeps safe (openModal mode item).
Proof.
  intros Hi. unfold openModal. destruct (String.eqb mode "create") eqn:E; safe_tac.
  - apply product_ok_addNewProduct.
  - by apply Hi.
Qed.

Lemma keeps_safe_draft_edit e : keeps safe (draft_edit e).
Proof.
  unfold draft_edit. apply keeps_get_page_bind. intros w (Hc & [Hd Hps] & Hq).
  destruct e; try done;
    (destruct (ui_apply _ _) as [r|] eqn:Hu; [|done]);
    destruct (ui_apply_wf _ _ r (proj1 Hd) Hu) as (p' & -> & _);
    (apply keeps_safe_setTempProduct; [intros; exact (product_ok_ui_apply _ _ _ Hd Hu)|done]).
Qed.

Lemma keeps_safe_dispatch sc ev : keeps safe (dispatch sc ev).
Proof.
  destruct ev; simpl; repeat case_match;
    try apply keeps_safe_draft_edit;
    try (apply keeps_safe_openModal; intros Hc; by vm_compute in Hc);
    try (apply keeps_safe_with_row; intros item Hitem;
         try (apply keeps_safe_openModal; by intros); unfold handleOpenDetail);
    safe_tac; done.
Qed.

Lemma safe_handle sc w ev : safe w -> server_ok ev -> safe (handle_on sc w ev).
Proof.
  intros Hw Hev. unfold handle_on. destruct ev as [| | | | | | | | | | | | |id o];
    try (destruct (w_crashed w); [done|]; destruct (w_route w); [done|by apply keeps_safe_dispatch]).
  unfold take_request. destruct (list_find _ _) as [[n rq]|]; [|done].
  apply keeps_safe_resume; [|by apply safe_drop]. intros ps pg ->. done.
Qed.

Lemma renders_ok p : page_ok p -> renders p = true.
Proof.
  intros [[Hd Hc] Hps]. unfold renders.
  destruct (table_render_ok _ Hps) as [rs ->].
  destruct (render_wf (modalMode p) _ Hd) as [v ->].
  by destruct (DetailModalView.detail_render_wf _ Hd Hc) as [v' ->].
Qed.

Lemma safe_commit w : safe w -> commit w = w.
Proof. intros (Hc & Hp & _). apply commit_id_if. intros _. by apply renders_ok. Qed.

Lemma safe_start cookie : safe (start cookie).
Proof.
  assert (safe (initial_world cookie)) as Hi.
  { split_and!; [done|split; [apply product_ok_addNewProduct|constructor]|constructor]. }
  assert (keeps safe (raise (Failure MsgNotLoggedIn) ;; navigate RLogin)) as H1 by safe_tac.
  assert (forall c, keeps safe (set_session c c ;; checkLogin true)) as H2 by safe_tac.
  unfold start, onMount. destruct (String.eqb _ _); [by apply H1|by apply H2].
Qed.

(** Every run of the page from its mount on rows it can show keeps it
    safe. *)
Lemma run_safe cookie evs : Forall server_ok evs -> safe (run step (start cookie) evs).
Proof.
  intros Hevs. apply (run_invariant step safe (fun ev _ => server_ok ev)).
  - intros w ev Hw Hev. unfold step, step_on. rewrite safe_commit; by apply safe_handle.
  - apply safe_start.
  - intros n ev Hn. by eapply Forall_lookup_1.
Qed.

(** C30: If the server only sends rows the page can show (well formed,
    and no object in a field the table or the detail dialog shows as
    text), the page never goes down: after any sequence of events no
    handler and no render has thrown, and the draft is still well
    formed. *)
Theorem page_never_crashes cookie evs :
  Forall server_ok evs ->
  let w := run step (start cookie) evs in
  w_crashed w = false /\ draft_wf (tempProduct (w_page w)).
Proof. intros Hevs w. by destruct (run_safe cookie evs Hevs) as (Hc & [[Hd _] _] & _). Qed.

(** C9: The page sends the API what it expects: if the server only
    sends rows the page can show, every create ([addProduct]) and update
    ([updateProduct]) request in flight carries a well-formed product,
    with numbers for both prices, 0 or 1 for [is_enabled] and an array
    of at most five strings for [imagesUrl]. *)
Theorem requests_carry_products cookie evs rq d :
  Forall server_ok evs -> rq ∈ w_pending (run step (start cookie) evs) ->
  (rq_call rq = AddProduct d \/ exists id, rq_call rq = UpdateProduct id d) ->
  draft_wf d.
Proof.
  intros Hevs Hin Hd. destruct (run_safe cookie evs Hevs) as (_ & _ & Hq).
  rewrite Forall_forall in Hq. specialize (Hq rq Hin).
  destruct Hd as [Hd|[id Hd]]; by rewrite Hd in Hq.
Qed.

(** C32: A submit in the edit dialog sends one update request: for
    the id the draft holds, with the draft as payload, whose answer
    resumes [handleModalSubmit] in edit mode; nothing else of the world
    changes (the dialog stays open, the draft is kept). *)
Theorem submit_edit_sends_update w :
  reachable w -> live w -> isProductModalOpen (w_page w) = true ->
  js_eq_str (modalMode (w_page w)) "create" = false ->
  step w Submit =
    snd (call (UpdateProduct ((tempProduct (w_page w)).["id"]) (tempProduct (w_page w))) (KSubmit false) w).
Proof.
  intros Hr Hl Ho Hm. rewrite step_submit by (done || by apply reachable_renders).
  unfold handleModalSubmit, mbind, M_bind, get_page. by rewrite Hm.
Qed.

(** C34: The mount effect without a [hexToken] cookie shows a toast and
    leaves for the login route without any request; with one it sets
    the [Authorization] header to the token, turns the spinner on and
    sends the session check, whose answer will fetch the list. *)
Theorem mount_checks_session cookie :
  let w := start cookie in
  (cookie = "" -> w_route w = RLogin /\ w_pending w = [] /\ w_toasts w = [Failure MsgNotLoggedIn]) /\
  (cookie <> "" -> w_route w = RProducts /\ w_auth w = cookie /\ isLoading (w_page w) = true /\
     w_pending w = [{| rq_id := 0; rq_call := CheckUserLogin; rq_cont := KCheckLogin true |}]).
Proof.
  unfold start, onMount. simpl. split; intros Hc.
  - subst cookie. by split_and!.
  - destruct (String.eqb_spec cookie "") as [->|_]; [done|]. by split_and!.
Qed.

(** C35: The answer to the mount's session check: a valid session turns
    the spinner off and on again for the fetch of page 1; an invalid one
    shows a toast, leaves for the login route and fetches nothing. *)
Theorem session_check_outcome cookie o :
  cookie <> "" ->
  let w := step (start cookie) (Respond 0 o) in
  (forall r, o = Resolved r ->
     w_route w = RProducts /\ isLoading (w_page w) = true /\
     w_pending w = [{| rq_id := 1; rq_call := GetAdminProducts (JInt 1); rq_cont := KGetData |}]) /\
  (o = Rejected ->
     w_route w = RLogin /\ isLoading (w_page w) = false /\ w_pending w = [] /\
     w_toasts w = [Failure MsgCheckFailed]).
Proof.
  intros Hc w. subst w. unfold start, onMount.
  simpl. rewrite (proj2 (String.eqb_neq cookie "") Hc).
  split; [intros r ->|intros ->]; unfold step; autorewrite with admin_rw; simpl; by split_and!.
Qed.

(** The "check login" button ignores a valid answer: the spinner
    goes off and nothing is fetched, unlike the same check on mount. *)
Theorem check_button_ignores_valid_session w rq r :
  ids_ok w -> rq ∈ w_pending w -> rq_cont rq = KCheckLogin false ->
  let w' := step w (Respond (rq_id rq) (Resolved r)) in
  isLoading (w_page w') = false /\ w_next w' = w_next w /\ w_route w' = w_route w /\
  w_toasts w' = w_toasts w.
Proof.
  intros Hok Hin Hk w'. subst w'. respond_step w rq (Resolved r) Hok Hin. rewrite Hk. simpl.
  by split_and!.
Qed.

(** ** Witnesses *)

Local Ltac ids_ok_by_eval w := apply (bool_decide_unpack (ids_ok w)); by vm_compute.
Local Ltac pending_by_eval i := apply (list_elem_of_lookup_2 _ i); by vm_compute.
Local Ltac live_by_eval := split; by vm_compute.

Lemma submit_success_refetch_spinner_off_witness :
  let w := run step (start "tok") create_flow in
  let w' := step w (Respond 2 (Resolved RDone)) in
  isProductModalOpen (w_page w') = false /\ isLoading (w_page w') = false /\
  {| rq_id := w_next w; rq_call := GetAdminProducts (JInt 1); rq_cont := KGetData |} ∈ w_pending w' /\
  w_toasts w' = w_toasts w ++ [Success MsgCreated].
Proof.
  intros w w'.
  apply (submit_success_refetch_spinner_off w
           {| rq_id := 2; rq_call := AddProduct (tempProduct (w_page w)); rq_cont := KSubmit true |}
           true RDone).
  - ids_ok_by_eval w.
  - pending_by_eval 0.
  - reflexivity.
Defined.

Lemma submit_failure_keeps_draft_witness :
  let w := run step (start "tok") create_flow in
  let w' := step w (Respond 2 Rejected) in
  tempProduct (w_page w') = tempProduct (w_page w) /\
  isProductModalOpen (w_page w') = isProductModalOpen (w_page w) /\
  isLoading (w_page w') = false /\ w_next w' = w_next w /\ w_route w' = w_route w /\
  w_toasts w' = w_toasts w ++ [Failure MsgOpFailed].
Proof.
  intros w w'.
  apply (submit_failure_keeps_draft w
           {| rq_id := 2; rq_call := AddProduct (tempProduct (w_page w)); rq_cont := KSubmit true |} true).
  - ids_ok_by_eval w.
  - pending_by_eval 0.
  - reflexivity.
Defined.

Lemma delete_success_refetches_first_page_witness :
  let row := <["id" := JStr "p1"]> addNewProduct in
  let w := run step (start "tok")
             [Respond 0 (Resolved RDone); Respond 1 (Resolved (RList [row] (JInt 3))); ClickDelete 0] in
  let w' := step w (Respond 2 (Resolved RDone)) in
  {| rq_id := w_next w; rq_call := GetAdminProducts (JInt 1); rq_cont := KGetData |} ∈ w_pending w' /\
  isLoading (w_page w') = true /\ pagination (w_page w') = pagination (w_page w) /\
  w_toasts w' = w_toasts w ++ [Success MsgDeleted].
Proof.
  intros row w w'.
  apply (delete_success_refetches_first_page w
           {| rq_id := 2; rq_call := DeleteProduct (JStr "p1"); rq_cont := KDelete |} RDone).
  - ids_ok_by_eval w.
  - pending_by_eval 0.
  - reflexivity.
Defined.

Lemma delete_failure_no_redirect_witness :
  let row := <["id" := JStr "p1"]> addNewProduct in
  let w := run step (start "tok")
             [Respond 0 (Resolved RDone); Respond 1 (Resolved (RList [row] (JInt 1))); ClickDelete 0] in
  let w' := step w (Respond 2 Rejected) in
  w_route w' = w_route w /\ w_page w' = w_page w /\ w_next w' = w_next w /\
  w_toasts w' = w_toasts w ++ [Failure MsgDeleteFailed].
Proof.
  intros row w w'.
  apply (delete_failure_no_redirect w
           {| rq_id := 2; rq_call := DeleteProduct (JStr "p1"); rq_cont := KDelete |}).
  - ids_ok_by_eval w.
  - pending_by_eval 0.
  - reflexivity.
Defined.

Lemma fetch_failure_redirects_witness :
  let w := run step (start "tok") [Respond 0 (Resolved RDone)] in
  let w' := step w (Respond 1 Rejected) in
  w_route w' = RLogin /\ products (w_page w') = products (w_page w) /\
  pagination (w_page w') = pagination (w_page w) /\ isLoading (w_page w') = false /\
  w_toasts w' = w_toasts w ++ [Failure MsgFetchFailed].
Proof.
  intros w w'.
  apply (fetch_failure_redirects w
           {| rq_id := 1; rq_call := GetAdminProducts (JInt 1); rq_cont := KGetData |} Rejected).
  - ids_ok_by_eval w.
  - pending_by_eval 0.
  - reflexivity.
  - intros ps pg; discriminate.
Defined.

(** The upload is chosen in the create dialog, the dialog is closed and
    an existing row is opened for editing before the reply arrives: the
    URL lands in that row's draft. *)
Lemma upload_writes_current_draft_witness :
  let row := <["id" := JStr "p1"]> addNewProduct in
  let w := run step (start "tok")
             [Respond 0 (Resolved RDone); Respond 1 (Resolved (RList [row] (JInt 1)));
              ClickCreate; PickFile (Some 1000%N); CloseProductModal; ClickEdit 0] in
  let w' := step w (Respond 2 (Resolved (RImage (JStr "u.png")))) in
  (tempProduct (w_page w)).["id"] = JStr "p1" /\
  tempProduct (w_page w') = <["imageUrl" := JStr "u.png"]> (tempProduct (w_page w)) /\
  w_toasts w' = w_toasts w ++ [Success MsgUploaded].
Proof.
  intros row w w'. split; [by vm_compute|].
  apply (upload_writes_current_draft w
           {| rq_id := 2; rq_call := UploadImage 1000; rq_cont := KUpload |} (JStr "u.png")).
  - ids_ok_by_eval w.
  - pending_by_eval 0.
  - reflexivity.
Defined.

Lemma double_submit_two_creates_witness :
  let w := run step (start "tok")
             [Respond 0 (Resolved RDone); Respond 1 (Resolved (RList [] (JInt 1))); ClickCreate] in
  w_pending (run step w [Submit; Submit]) =
    w_pending w ++
    [{| rq_id := w_next w; rq_call := AddProduct (tempProduct (w_page w)); rq_cont := KSubmit true |};
     {| rq_id := S (w_next w); rq_call := AddProduct (tempProduct (w_page w)); rq_cont := KSubmit true |}].
Proof.
  intros w. apply double_submit_two_creates.
  - apply reachable_run_page, reachable_start.
  - live_by_eval.
  - by vm_compute.
  - by vm_compute.
Defined.

Lemma refresh_passes_click_event_witness :
  let w := run step (start "tok") [Respond 0 (Resolved RDone); Respond 1 (Resolved (RList [] (JInt 1)))] in
  let w' := step w (ClickRefresh 7) in
  isLoading (w_page w') = true /\
  w_pending w' = w_pending w ++
    [{| rq_id := w_next w; rq_call := GetAdminProducts (JRef 7); rq_cont := KGetData |}].
Proof.
  intros w w'. apply refresh_passes_click_event.
  - apply reachable_run_page, reachable_start.
  - live_by_eval.
  - by vm_compute.
  - by vm_compute.
Defined.

Lemma upload_too_large_no_request_witness :
  let w := run step (start "tok")
             [Respond 0 (Resolved RDone); Respond 1 (Resolved (RList [] (JInt 1))); ClickCreate] in
  let w' := step w (PickFile (Some 4000000%N)) in
  w_pending w' = w_pending w /\ w_next w' = w_next w /\ w_page w' = w_page w /\
  w_toasts w' = w_toasts w ++ [Failure MsgFileTooLarge].
Proof.
  intros w w'. apply upload_too_large_no_request.
  - apply reachable_run_page, reachable_start.
  - live_by_eval.
  - by vm_compute.
  - by vm_compute.
Defined.

Lemma logout_ends_session_witness :
  let w := run step (start "tok") [Respond 0 (Resolved RDone); Respond 1 (Resolved (RList [] (JInt 1)))] in
  let w' := step w ClickLogout in
  w_route w' = RLogin /\ w_cookie w' = "" /\ w_auth w' = "" /\
  {| rq_id := w_next w; rq_call := AdminLogout; rq_cont := KIgnore |} ∈ w_pending w' /\
  w_toasts w' = w_toasts w ++ [Success MsgLoggedOut] /\
  (forall evs, Forall (fun ev => is_reply ev = false) evs -> run step w' evs = w').
Proof.
  intros w w'. apply logout_ends_session.
  - apply reachable_run_page, reachable_start.
  - live_by_eval.
  - by vm_compute.
  - by vm_compute.
Defined.

Lemma requests_carry_products_witness :
  let w := run step (start "tok") create_flow in draft_wf (tempProduct (w_page w)).
Proof.
  intros w. apply (requests_carry_products "tok" create_flow
    {| rq_id := 2; rq_call := AddProduct (tempProduct (w_page w)); rq_cont := KSubmit true |}).
  - repeat constructor.
  - apply (list_elem_of_lookup_2 _ 0). by vm_compute.
  - by left.
Defined.

Lemma page_never_crashes_witness :
  let w := run step (start "tok") create_flow in
  w_crashed w = false /\ draft_wf (tempProduct (w_page w)).
Proof. apply page_never_crashes. unfold create_flow. by repeat constructor. Defined.

Lemma mount_checks_session_witness :
  let w := start "tok" in
  w_route w = RProducts /\ w_auth w = "tok" /\ isLoading (w_page w) = true /\
  w_pending w = [{| rq_id := 0; rq_call := CheckUserLogin; rq_cont := KCheckLogin true |}].
Proof. apply (proj2 (mount_checks_session "tok")). discriminate. Defined.

Lemma session_check_outcome_witness :
  let w := step (start "tok") (Respond 0 (Resolved RDone)) in
  w_route w = RProducts /\ isLoading (w_page w) = true /\
  w_pending w = [{| rq_id := 1; rq_call := GetAdminProducts (JInt 1); rq_cont := KGetData |}].
Proof. apply (proj1 (session_check_outcome "tok" (Resolved RDone) ltac:(discriminate)) RDone). done. Defined.

Lemma submit_edit_sends_update_witness :
  let w := run step (start "tok")
             [Respond 0 (Resolved RDone);
              Respond 1 (Resolved (RList [<["id" := JStr "p1"]> addNewProduct] (JInt 1))); ClickEdit 0] in
  step w Submit =
    snd (call (UpdateProduct ((tempProduct (w_page w)).["id"]) (tempProduct (w_page w))) (KSubmit false) w).
Proof.
  intros w. apply submit_edit_sends_update.
  - apply reachable_run_page, reachable_start.
  - live_by_eval.
  - by vm_compute.
  - by vm_compute.
Defined.

End ProductPage.
