(* ===== verification/PageDialogs.v ===== *)
(** * PageDialogs: the page with its two dialogs mounted

    ProductPage.jsx renders [<ProductModal isOpen={isProductModalOpen}
    onClose={closeModal} ...>] and [<DetailModal
    isOpen={isDetailModalOpen} onClose={handleCloseDetail} ...>]
    (lines 311-330).  This file puts the page of ProductPage.v and two
    dialogs of ModalLifecycle.v together.  The parent of each dialog is
    the page, through a [binding]: its flag is [isOpen], and its
    [onClose] clears the flag.  Every page step re-renders both dialogs.
    When the page leaves [/products] or crashes, both are unmounted.  A
    widget event runs the dialog's effect; when [performClose] calls
    [onClose], the page's state changes, and the page renders again.
    The last section shows that when every animation is let to finish
    the page with its dialogs is exactly the page model of
    ProductPage.v, which reads the screen off the flags. *)

From S2P Require Import Prelude JsValue DraftStore ProductModalView DetailModalView.
From S2P Require Import ModalLifecycle ProductPage.
From Stdlib Require String.

Module PageDialogs.
Import BsModal DraftStore ProductPage.

(** ** The dialogs' parent *)

Definition product_binding : Lifecycle.binding page :=
  {| Lifecycle.b_open := isProductModalOpen; Lifecycle.b_close := with_product_open false |}.

Definition detail_binding : Lifecycle.binding page :=
  {| Lifecycle.b_open := isDetailModalOpen; Lifecycle.b_close := with_detail_open false |}.

(** [<DetailModal isOpen={isDetailModalOpen} onClose={handleCloseDetail}>]:
    DetailModal.jsx runs the same three effects and [handleClose] as
    ProductModal.jsx, which [Lifecycle.step] models once; here they are
    bound to the page's detail flag and close callback. *)
Definition detail_modal (s : Lifecycle.sys page) (e : Lifecycle.event page) : Lifecycle.sys page :=
  Lifecycle.step detail_binding s e.

(** ** The page with its dialogs *)

Record app : Type := {
  a_world : world;
  a_product : Lifecycle.sys page;
  a_detail : Lifecycle.sys page
}.

(** The page is on screen: on [/products] and not crashed. *)
Definition mounted (w : world) : bool :=
  negb (w_crashed w) && match w_route w with RProducts => true | RLogin => false end.

(** After a change of the world: re-render both dialogs with the new
    page, or unmount them with the page. *)
Definition sync (w : world) (a : app) : app :=
  if mounted w then
    {| a_world := w;
       a_product := Lifecycle.step product_binding (a_product a) (Lifecycle.Render (w_page w));
       a_detail := detail_modal (a_detail a) (Lifecycle.Render (w_page w)) |}
  else
    {| a_world := w;
       a_product := Lifecycle.step product_binding (a_product a) Lifecycle.Unmount;
       a_detail := detail_modal (a_detail a) Lifecycle.Unmount |}.

(** What is on screen is what the widgets show, whatever the flags say:
    a dialog's controls can be used while its widget is on screen, the
    page's buttons while neither is (the backdrop covers them). *)
Definition on_screen_of (s : Lifecycle.sys page) : bool :=
  match Lifecycle.c_inst (Lifecycle.s_comp s) with Some ph => on_screen ph | None => false end.

Definition app_screen (a : app) : screen :=
  {| sc_page := negb (on_screen_of (a_product a)) && negb (on_screen_of (a_detail a));
     sc_product := on_screen_of (a_product a); sc_detail := on_screen_of (a_detail a) |}.

(** [performClose] calls [onClose] directly, from inside the dialog. *)
Definition dialog_screen : screen := {| sc_page := false; sc_product := true; sc_detail := true |}.

Inductive widget_event : Type :=
| WDismiss
| WTransitionEnd.

Definition widget_label (e : widget_event) : Lifecycle.event page :=
  match e with WDismiss => Lifecycle.Dismiss | WTransitionEnd => Lifecycle.TransitionEnd end.

Inductive app_event : Type :=
| Page (ev : page_event)
| ProductWidget (e : widget_event)
| DetailWidget (e : widget_event).

(** A widget event on the product dialog.  When [performClose] calls
    [onClose], that is the dialog's close callback [closeModal]: the
    page's state changes and the page re-renders, both dialogs
    included. *)
Definition product_widget (a : app) (e : widget_event) : app :=
  let s' := Lifecycle.step product_binding (a_product a) (widget_label e) in
  let a1 := {| a_world := a_world a; a_product := s'; a_detail := a_detail a |} in
  if Nat.eqb (Lifecycle.s_notified s') (Lifecycle.s_notified (a_product a)) then a1
  else sync (step_on dialog_screen (a_world a) CloseProductModal) a1.

(** The same for the detail dialog, whose [onClose] is
    [handleCloseDetail]. *)
Definition detail_widget (a : app) (e : widget_event) : app :=
  let s' := detail_modal (a_detail a) (widget_label e) in
  let a1 := {| a_world := a_world a; a_product := a_product a; a_detail := s' |} in
  if Nat.eqb (Lifecycle.s_notified s') (Lifecycle.s_notified (a_detail a)) then a1
  else sync (step_on dialog_screen (a_world a) CloseDetail) a1.

Definition app_step (a : app) (e : app_event) : app :=
  match e with
  | Page ev => sync (step_on (app_screen a) (a_world a) ev) a
  | ProductWidget e => product_widget a e
  | DetailWidget e => detail_widget a e
  end.

(** The mount: the dialogs' effects run first (children before the
    parent), then the page's mount effect, then the render it causes. *)
Definition app_start (cookie : string) : app :=
  sync (start cookie)
    {| a_world := initial_world cookie;
       a_product := Lifecycle.mount product_binding true initial_page;
       a_detail := Lifecycle.mount detail_binding true initial_page |}.

(** The user lets every animation finish: after a page event both
    widgets get to the end of their transition. *)
Definition settle (a : app) : app :=
  app_step (app_step a (ProductWidget WTransitionEnd)) (DetailWidget WTransitionEnd).

Definition settled_step (a : app) (ev : page_event) : app := settle (app_step a (Page ev)).

Inductive app_reachable : app -> Prop :=
| app_reachable_start cookie : app_reachable (app_start cookie)
| app_reachable_step a e : app_reachable a -> app_reachable (app_step a e).

(** ** The page leaves the screen for good *)

Lemma mounted_live w : mounted w = true <-> live w.
Proof.
  unfold mounted, live. destruct (w_crashed w), (w_route w); simpl; split; try done;
    intros [? ?]; done.
Qed.

Lemma unmounted_step sc w ev : mounted w = false -> mounted (step_on sc w ev) = false.
Proof.
  apply (keeps_step_on (fun w => mounted w = false)); unfold keeps, mounted; simpl;
    clear; intros; rewrite ?andb_false_r; done.
Qed.

Lemma mounted_step sc w ev : mounted (step_on sc w ev) = true -> mounted w = true.
Proof. intros H. destruct (mounted w) eqn:Hw; [done|]. by rewrite unmounted_step in H. Qed.

(** ** What a dialog step does to its status and page *)

Section DialogSteps.
Context (b : Lifecycle.binding page).

Lemma dialog_status_widget s e :
  Lifecycle.s_status (Lifecycle.step b s (widget_label e)) = Lifecycle.s_status s.
Proof.
  unfold Lifecycle.step. destruct (Lifecycle.s_status s) eqn:Hs; [|done..].
  destruct e; simpl; [done|]. unfold Lifecycle.transition. repeat case_match; simpl; congruence.
Qed.

Lemma dialog_page_widget s e :
  Lifecycle.s_notified (Lifecycle.step b s (widget_label e)) = Lifecycle.s_notified s ->
  Lifecycle.s_page (Lifecycle.step b s (widget_label e)) = Lifecycle.s_page s.
Proof.
  unfold Lifecycle.step. destruct (Lifecycle.s_status s); [|done..].
  destruct e; simpl; [done|]. unfold Lifecycle.transition. repeat case_match; simpl; [lia|done..].
Qed.

Lemma dialog_status_render s p :
  Lifecycle.s_status s = Lifecycle.Mounted ->
  Lifecycle.s_status (Lifecycle.step b s (Lifecycle.Render p)) = Lifecycle.Mounted /\
  Lifecycle.s_page (Lifecycle.step b s (Lifecycle.Render p)) = p.
Proof. intros Hs. unfold Lifecycle.step. by rewrite Hs. Qed.

Lemma dialog_status_unmount s :
  Lifecycle.s_status (Lifecycle.step b s Lifecycle.Unmount) <> Lifecycle.Mounted.
Proof. unfold Lifecycle.step. by destruct (Lifecycle.s_status s) eqn:Hs; rewrite ?Hs. Qed.

End DialogSteps.

(** ** The invariant of the page with its dialogs *)

(** Both dialogs are mounted exactly while the page is, and then they
    were last rendered with the page's current state. *)
Definition statuses_ok (a : app) : Prop :=
  (Lifecycle.s_status (a_product a) = Lifecycle.Mounted <-> mounted (a_world a) = true) /\
  (Lifecycle.s_status (a_detail a) = Lifecycle.Mounted <-> mounted (a_world a) = true).

Definition app_inv (a : app) : Prop :=
  statuses_ok a /\
  (mounted (a_world a) = true ->
   Lifecycle.s_page (a_product a) = w_page (a_world a) /\
   Lifecycle.s_page (a_detail a) = w_page (a_world a)).

Lemma sync_inv w a :
  statuses_ok a -> (mounted w = true -> mounted (a_world a) = true) -> app_inv (sync w a).
Proof.
  intros [Hp Hd] Hmono. unfold sync, detail_modal. destruct (mounted w) eqn:Hw.
  - specialize (Hmono eq_refl).
    destruct (dialog_status_render product_binding (a_product a) (w_page w)) as [Hp1 Hp2]; [by apply Hp|].
    destruct (dialog_status_render detail_binding (a_detail a) (w_page w)) as [Hd1 Hd2]; [by apply Hd|].
    unfold app_inv, statuses_ok; simpl. rewrite Hw, Hp1, Hd1, Hp2, Hd2. naive_solver.
  - pose proof (dialog_status_unmount product_binding (a_product a)).
    pose proof (dialog_status_unmount detail_binding (a_detail a)).
    unfold app_inv, statuses_ok; simpl. rewrite Hw. naive_solver.
Qed.

Lemma widget_inv (a : app) (s' : Lifecycle.sys page) :
  app_inv a -> Lifecycle.s_status s' = Lifecycle.s_status (a_product a) ->
  Lifecycle.s_page s' = Lifecycle.s_page (a_product a) ->
  app_inv {| a_world := a_world a; a_product := s'; a_detail := a_detail a |}.
Proof. intros [[Hp Hd] Hpg] Hs Hg. split; [split|]; simpl; rewrite ?Hs, ?Hg; done. Qed.

Lemma widget_inv_detail (a : app) (s' : Lifecycle.sys page) :
  app_inv a -> Lifecycle.s_status s' = Lifecycle.s_status (a_detail a) ->
  Lifecycle.s_page s' = Lifecycle.s_page (a_detail a) ->
  app_inv {| a_world := a_world a; a_product := a_product a; a_detail := s' |}.
Proof. intros [[Hp Hd] Hpg] Hs Hg. split; [split|]; simpl; rewrite ?Hs, ?Hg; done. Qed.

(** Everything the page with its dialogs can reach: the page's world is
    a world of ProductPage.v, each dialog is a dialog of
    ModalLifecycle.v bound to the page, and the invariant holds. *)
Definition app_ok (a : app) : Prop :=
  reachable (a_world a) /\
  Lifecycle.reachable product_binding true initial_page (a_product a) /\
  Lifecycle.reachable detail_binding true initial_page (a_detail a) /\
  app_inv a.

Lemma app_ok_sync w a :
  Lifecycle.reachable product_binding true initial_page (a_product a) ->
  Lifecycle.reachable detail_binding true initial_page (a_detail a) ->
  statuses_ok a -> reachable w -> (mounted w = true -> mounted (a_world a) = true) ->
  app_ok (sync w a).
Proof.
  intros Hp Hd Hst Hw' Hmono. split_and!.
  - unfold sync, detail_modal. by destruct (mounted w).
  - unfold sync, detail_modal. destruct (mounted w); by constructor.
  - unfold sync, detail_modal. destruct (mounted w); by constructor.
  - by apply sync_inv.
Qed.

Lemma app_ok_start cookie : app_ok (app_start cookie).
Proof.
  unfold app_start. split_and!.
  - unfold sync, detail_modal. destruct (mounted (start cookie)); constructor.
  - unfold sync, detail_modal. destruct (mounted (start cookie)); by repeat constructor.
  - unfold sync, detail_modal. destruct (mounted (start cookie)); by repeat constructor.
  - apply sync_inv; [|by intros _]. by split.
Qed.

Lemma app_ok_step a e : app_ok a -> app_ok (app_step a e).
Proof.
  intros (Hw & Hp & Hd & Hinv). destruct e as [ev|e|e]; simpl.
  - apply app_ok_sync; [done|done|apply Hinv|by constructor|apply mounted_step].
  - unfold product_widget.
    destruct (Nat.eqb_spec (Lifecycle.s_notified (Lifecycle.step product_binding (a_product a) (widget_label e)))
                (Lifecycle.s_notified (a_product a))) as [Hn|Hn].
    + split_and!; [done|by constructor|done|]. apply widget_inv; [done|apply dialog_status_widget|].
      by apply dialog_page_widget.
    + destruct Hinv as [[Hsp Hsd] _].
      apply app_ok_sync; [by constructor|done| |by constructor|apply mounted_step].
      split; simpl; [|done]. by rewrite dialog_status_widget.
  - unfold detail_widget, detail_modal.
    destruct (Nat.eqb_spec (Lifecycle.s_notified (Lifecycle.step detail_binding (a_detail a) (widget_label e)))
                (Lifecycle.s_notified (a_detail a))) as [Hn|Hn].
    + split_and!; [done|done|by constructor|]. apply widget_inv_detail; [done|apply dialog_status_widget|].
      by apply dialog_page_widget.
    + destruct Hinv as [[Hsp Hsd] _].
      apply app_ok_sync; [done|by constructor| |by constructor|apply mounted_step].
      split; simpl; [done|]. by rewrite dialog_status_widget.
Qed.

Lemma app_reachable_ok a : app_reachable a -> app_ok a.
Proof. induction 1; [apply app_ok_start|by apply app_ok_step]. Qed.

(** A dialog whose parent has it closed never calls [onClose]. *)
Lemma closed_dialog_silent (b : Lifecycle.binding page) p0 s e :
  Lifecycle.reachable b true p0 s ->
  (Lifecycle.s_status s = Lifecycle.Mounted -> Lifecycle.b_open b (Lifecycle.s_page s) = false) ->
  Lifecycle.s_notified (Lifecycle.step b s (widget_label e)) = Lifecycle.s_notified s.
Proof.
  intros Hr Hc. unfold Lifecycle.step. destruct (Lifecycle.s_status s) eqn:Hs; [|done..].
  destruct e; [done|]. apply Lifecycle.transition_closed; [|done|by apply Hc].
  by eapply Lifecycle.reachable_fresh.
Qed.


(** ** The page model is the page with its dialogs at rest *)

(** A dialog at rest: its widget is shown exactly when the parent has it
    open, and its effects last ran for that [isOpen]. *)
Definition rest_ok (b : Lifecycle.binding page) (s : Lifecycle.sys page) : Prop :=
  Lifecycle.s_status s = Lifecycle.Mounted ->
  Lifecycle.c_inst (Lifecycle.s_comp s) = Some (if Lifecycle.b_open b (Lifecycle.s_page s) then Shown else Hidden) /\
  Lifecycle.c_listener (Lifecycle.s_comp s) = Some (Lifecycle.b_open b (Lifecycle.s_page s)) /\
  Lifecycle.c_prev (Lifecycle.s_comp s) = Some (Lifecycle.b_open b (Lifecycle.s_page s)).

Lemma rest_on_screen b s :
  rest_ok b s -> Lifecycle.s_status s = Lifecycle.Mounted ->
  on_screen_of s = Lifecycle.b_open b (Lifecycle.s_page s).
Proof.
  intros Hr Hm. destruct (Hr Hm) as (Hi & _). unfold on_screen_of. rewrite Hi.
  by destruct (Lifecycle.b_open b _).
Qed.

(** A re-render of a dialog at rest, followed by the end of the
    transition it started, leaves it at rest with the new state and
    without calling [onClose]. *)
Lemma render_settle b s p :
  rest_ok b s -> Lifecycle.s_status s = Lifecycle.Mounted ->
  let s2 := Lifecycle.step b (Lifecycle.step b s (Lifecycle.Render p)) Lifecycle.TransitionEnd in
  Lifecycle.s_notified s2 = Lifecycle.s_notified (Lifecycle.step b s (Lifecycle.Render p)) /\
  Lifecycle.s_status s2 = Lifecycle.Mounted /\
  Lifecycle.s_page s2 = p /\ rest_ok b s2.
Proof.
  intros Hr Hm. destruct (Hr Hm) as (Hi & _ & Hp). unfold Lifecycle.step. rewrite Hm. cbn.
  unfold Lifecycle.transition, Lifecycle.commit. cbn. rewrite Hi, Hp.
  destruct (Lifecycle.b_open b (Lifecycle.s_page s)), (Lifecycle.b_open b p) eqn:E;
    repeat (case_decide; simplify_eq/=); rewrite ?Hm; cbn; rewrite ?E; cbn;
    repeat case_decide; simplify_eq/=; rewrite ?E; cbn;
    (split_and!; [done..|]); intros _; cbn; by rewrite E.
Qed.

(** Off screen the page ignores what is on screen. *)
Lemma step_on_unmounted sc sc' w ev : mounted w = false -> step_on sc w ev = step_on sc' w ev.
Proof.
  intros Hm. unfold step_on, handle_on, mounted in *.
  destruct ev; try done; destruct (w_crashed w), (w_route w); done.
Qed.

Definition settled_inv (a : app) : Prop :=
  app_ok a /\ rest_ok product_binding (a_product a) /\ rest_ok detail_binding (a_detail a).

(** While the page is on screen and its dialogs are at rest, the screen
    the widgets show is the one the flags describe. *)
Lemma settled_screen a : settled_inv a -> mounted (a_world a) = true ->
  app_screen a = flag_screen (w_page (a_world a)).
Proof.
  intros (Hok & Hp & Hd) Hm. destruct Hok as (_ & _ & _ & [[Hsp Hsd] Hpg]).
  destruct (Hpg Hm) as [Hpp Hdp]. apply Hsp in Hm as Hmp. apply Hsd in Hm as Hmd.
  unfold app_screen, flag_screen.
  rewrite (rest_on_screen _ _ Hp Hmp), (rest_on_screen _ _ Hd Hmd), Hpp, Hdp. done.
Qed.

Lemma app_step_page a ev : settled_inv a -> app_step a (Page ev) = sync (step (a_world a) ev) a.
Proof.
  intros Hinv. simpl. f_equal. destruct (mounted (a_world a)) eqn:Hm.
  - unfold step. by rewrite settled_screen.
  - by apply step_on_unmounted.
Qed.

(** A widget event that does not call [onClose] only moves its
    widget. *)
Lemma widget_quiet_product a e :
  Lifecycle.s_notified (Lifecycle.step product_binding (a_product a) (widget_label e)) =
    Lifecycle.s_notified (a_product a) ->
  app_step a (ProductWidget e) =
    {| a_world := a_world a; a_product := Lifecycle.step product_binding (a_product a) (widget_label e);
       a_detail := a_detail a |}.
Proof. intros Hn. simpl. unfold product_widget. by rewrite Hn, Nat.eqb_refl. Qed.

Lemma widget_quiet_detail a e :
  Lifecycle.s_notified (Lifecycle.step detail_binding (a_detail a) (widget_label e)) =
    Lifecycle.s_notified (a_detail a) ->
  app_step a (DetailWidget e) =
    {| a_world := a_world a; a_product := a_product a;
       a_detail := Lifecycle.step detail_binding (a_detail a) (widget_label e) |}.
Proof. intros Hn. simpl. unfold detail_widget, detail_modal. by rewrite Hn, Nat.eqb_refl. Qed.

Lemma widget_idle a :
  Lifecycle.s_status (a_product a) <> Lifecycle.Mounted ->
  Lifecycle.s_status (a_detail a) <> Lifecycle.Mounted -> settle a = a.
Proof.
  intros Hp Hd. unfold settle.
  rewrite widget_quiet_product by (by rewrite Lifecycle.step_not_mounted).
  rewrite widget_quiet_detail by (simpl; by rewrite Lifecycle.step_not_mounted).
  simpl. rewrite !Lifecycle.step_not_mounted by done. by destruct a.
Qed.

(** A page event on the page with its dialogs at rest, once the
    animations are over, as a change of each part. *)
Lemma settled_step_mounted a ev :
  settled_inv a -> mounted (step (a_world a) ev) = true ->
  let w1 := step (a_world a) ev in
  settled_step a ev =
    {| a_world := w1;
       a_product := Lifecycle.step product_binding
         (Lifecycle.step product_binding (a_product a) (Lifecycle.Render (w_page w1))) Lifecycle.TransitionEnd;
       a_detail := Lifecycle.step detail_binding
         (Lifecycle.step detail_binding (a_detail a) (Lifecycle.Render (w_page w1))) Lifecycle.TransitionEnd |}.
Proof.
  intros Hinv Hm1 w1. pose proof Hinv as (Hok & Hp & Hd).
  destruct Hok as (_ & _ & _ & [[Hsp Hsd] _]). apply mounted_step in Hm1 as Hm0.
  unfold settled_step, settle. subst w1. rewrite app_step_page by done. unfold sync, detail_modal. rewrite Hm1.
  rewrite widget_quiet_product by (apply (render_settle _ _ _ Hp), Hsp, Hm0).
  rewrite widget_quiet_detail by (simpl; apply (render_settle _ _ _ Hd), Hsd, Hm0). done.
Qed.

Lemma settled_step_unmounted a ev :
  settled_inv a -> mounted (step (a_world a) ev) = false ->
  settled_step a ev = sync (step (a_world a) ev) a.
Proof.
  intros Hinv Hm1. unfold settled_step. rewrite app_step_page by done. apply widget_idle;
    unfold sync, detail_modal; rewrite Hm1; apply dialog_status_unmount.
Qed.

(** A page event followed by the end of the animations is the page
    model's step, and leaves the dialogs at rest. *)
Lemma settled_step_spec a ev :
  settled_inv a -> a_world (settled_step a ev) = step (a_world a) ev /\ settled_inv (settled_step a ev).
Proof.
  intros Hinv.
  assert (app_ok (settled_step a ev)) as Hok'
    by (unfold settled_step, settle; repeat apply app_ok_step; apply Hinv).
  destruct (mounted (step (a_world a) ev)) eqn:Hm1.
  - pose proof Hinv as (Hok & Hp & Hd). destruct Hok as (_ & _ & _ & [[Hsp Hsd] _]).
    apply mounted_step in Hm1 as Hm0. apply Hsp in Hm0 as Hmp. apply Hsd in Hm0 as Hmd.
    rewrite (settled_step_mounted a ev Hinv Hm1) in *. simpl.
    destruct (render_settle _ _ (w_page (step (a_world a) ev)) Hp Hmp) as (_ & _ & _ & Hr1).
    destruct (render_settle _ _ (w_page (step (a_world a) ev)) Hd Hmd) as (_ & _ & _ & Hr2).
    unfold settled_inv. by split_and!.
  - rewrite (settled_step_unmounted a ev Hinv Hm1) in *. unfold sync, detail_modal in *. rewrite Hm1 in Hok' |- *.
    unfold settled_inv. simpl. split_and!; [done|done| |]; intros Hm; by apply dialog_status_unmount in Hm.
Qed.

Lemma settled_start cookie : settled_inv (app_start cookie).
Proof.
  split; [apply app_ok_start|]. unfold app_start, sync, start, onMount.
  destruct (String.eqb _ _); cbn; split; intros H; first [discriminate|by split_and!].
Qed.

Lemma settled_run a evs :
  settled_inv a -> a_world (run settled_step a evs) = run step (a_world a) evs.
Proof.
  revert a. induction evs as [|ev evs IH]; intros a Hinv; [done|].
  rewrite !run_cons. destruct (settled_step_spec a ev Hinv) as [Hw Hinv'].
  rewrite <- Hw. by apply IH.
Qed.

(** ** What a dialog's [onClose] does to the page *)

Lemma sync_world w a : a_world (sync w a) = w.
Proof. unfold sync. by destruct (mounted w). Qed.

Lemma notified_mounted (b : Lifecycle.binding page) s e :
  Lifecycle.s_notified (Lifecycle.step b s e) <> Lifecycle.s_notified s ->
  Lifecycle.s_status s = Lifecycle.Mounted.
Proof.
  intros Hn. destruct (Lifecycle.s_status s) eqn:Hs; [done|..];
    by rewrite Lifecycle.step_not_mounted in Hn by (rewrite Hs; discriminate).
Qed.

(** When the product widget calls [onClose], the page runs
    [closeModal]. *)
Lemma product_widget_close a e :
  app_inv a ->
  Lifecycle.s_notified (Lifecycle.step product_binding (a_product a) (widget_label e)) <>
    Lifecycle.s_notified (a_product a) ->
  w_page (a_world (app_step a (ProductWidget e))) = with_product_open false (w_page (a_world a)).
Proof.
  intros [[Hsp _] _] Hn. simpl. unfold product_widget.
  pose proof Hn as Hm. apply notified_mounted, Hsp, mounted_live in Hm.
  rewrite (proj2 (Nat.eqb_neq _ _) Hn), sync_world. unfold step_on.
  by rewrite commit_page, handle_on_live.
Qed.

(** When the detail widget calls [onClose], the page runs
    [handleCloseDetail]. *)
Lemma detail_widget_close a e :
  app_inv a ->
  Lifecycle.s_notified (detail_modal (a_detail a) (widget_label e)) <>
    Lifecycle.s_notified (a_detail a) ->
  w_page (a_world (app_step a (DetailWidget e))) = with_detail_open false (w_page (a_world a)).
Proof.
  intros [[_ Hsd] _] Hn. simpl. unfold detail_widget.
  pose proof Hn as Hm. apply notified_mounted, Hsd, mounted_live in Hm.
  rewrite (proj2 (Nat.eqb_neq _ _) Hn), sync_world. unfold step_on.
  by rewrite commit_page, handle_on_live.
Qed.

(** ** The product dialog stuck on screen *)





(** ** Properties of the page with its dialogs *)

(** C37: The page drives its two dialogs as ModalLifecycle.v says a
    parent does, each with its own flag and close callback: in every
    reachable state the product dialog and the detail dialog are states
    of the dialog model reached from their mount; while the page is on
    screen they are mounted, were last rendered with the page's current
    state, and the [performClose] each has subscribed captured
    [isProductModalOpen] and [isDetailModalOpen] respectively; when the
    product widget calls [onClose] the page runs [closeModal] (the
    binding's close, [isProductModalOpen] cleared) and when the detail
    widget does the page runs [handleCloseDetail]; once the page has
    left they are unmounted. *)
Theorem dialogs_refine_lifecycle a :
  app_reachable a ->
  Lifecycle.reachable product_binding true initial_page (a_product a) /\
  Lifecycle.reachable detail_binding true initial_page (a_detail a) /\
  (mounted (a_world a) = true ->
   Lifecycle.s_status (a_product a) = Lifecycle.Mounted /\
   Lifecycle.s_status (a_detail a) = Lifecycle.Mounted /\
   Lifecycle.s_page (a_product a) = w_page (a_world a) /\
   Lifecycle.s_page (a_detail a) = w_page (a_world a) /\
   Lifecycle.c_listener (Lifecycle.s_comp (a_product a)) = Some (isProductModalOpen (w_page (a_world a))) /\
   Lifecycle.c_listener (Lifecycle.s_comp (a_detail a)) = Some (isDetailModalOpen (w_page (a_world a)))) /\
  (forall e, Lifecycle.s_notified (Lifecycle.step product_binding (a_product a) (widget_label e)) <>
               Lifecycle.s_notified (a_product a) ->
   w_page (a_world (app_step a (ProductWidget e))) = Lifecycle.b_close product_binding (w_page (a_world a)) /\
   w_page (a_world (app_step a (ProductWidget e))) = with_product_open false (w_page (a_world a))) /\
  (forall e, Lifecycle.s_notified (detail_modal (a_detail a) (widget_label e)) <>
               Lifecycle.s_notified (a_detail a) ->
   w_page (a_world (app_step a (DetailWidget e))) = Lifecycle.b_close detail_binding (w_page (a_world a)) /\
   w_page (a_world (app_step a (DetailWidget e))) = with_detail_open false (w_page (a_world a))) /\
  (mounted (a_world a) = false ->
   Lifecycle.s_status (a_product a) <> Lifecycle.Mounted /\
   Lifecycle.s_status (a_detail a) <> Lifecycle.Mounted).
Proof.
  intros Ha. destruct (app_reachable_ok a Ha) as (_ & Hp & Hd & Hinv).
  pose proof Hinv as [[Hsp Hsd] Hpg]. split_and!; [done|done| | | |].
  - intros Hm. destruct (Hpg Hm) as [Epp Epd]. apply Hsp in Hm as Hmp. apply Hsd in Hm as Hmd.
    destruct (Lifecycle.reachable_fresh _ _ _ _ Hp Hmp) as [Hlp _].
    destruct (Lifecycle.reachable_fresh _ _ _ _ Hd Hmd) as [Hld _].
    rewrite Epp in Hlp. rewrite Epd in Hld. by split_and!.
  - intros e Hn. by rewrite (product_widget_close a e Hinv Hn).
  - intros e Hn. by rewrite (detail_widget_close a e Hinv Hn).
  - intros Hm. split; [intros H; apply Hsp in H|intros H; apply Hsd in H]; congruence.
Qed.

(** The loop breaker at the page's level: when the page has the
    product dialog closed, no event of its widget (a backdrop click,
    Escape, the end of a transition) changes the page. *)
Theorem closed_product_dialog_keeps_page a e :
  app_reachable a -> isProductModalOpen (w_page (a_world a)) = false ->
  a_world (app_step a (ProductWidget e)) = a_world a.
Proof.
  intros Ha Hc. destruct (app_reachable_ok a Ha) as (_ & Hp & _ & [[Hsp _] Hpg]).
  simpl. unfold product_widget.
  rewrite (closed_dialog_silent _ _ _ e Hp), Nat.eqb_refl; [done|].
  intros Hm. apply Hsp in Hm. destruct (Hpg Hm) as [-> _]. done.
Qed.

(** C38: The page model of ProductPage.v, which reads what is on screen
    off the page's two flags, is the page with its two dialogs when the
    user lets every animation finish: from the mount, any sequence of
    page events, each followed by the end of both widgets' transitions,
    leaves the page's world exactly where [ProductPage.step] leaves
    it.  (Without the waits they differ: C39.) *)
Theorem settled_app_is_page_model cookie evs :
  a_world (run settled_step (app_start cookie) evs) = run step (start cookie) evs.
Proof.
  rewrite settled_run by apply settled_start.
  unfold app_start, sync. by destruct (mounted (start cookie)).
Qed.


(** ** Witnesses *)

Lemma dialogs_refine_lifecycle_witness :
  let a := app_start "tok" in
  Lifecycle.reachable product_binding true initial_page (a_product a) /\
  Lifecycle.reachable detail_binding true initial_page (a_detail a) /\
  (mounted (a_world a) = true ->
   Lifecycle.s_status (a_product a) = Lifecycle.Mounted /\
   Lifecycle.s_status (a_detail a) = Lifecycle.Mounted /\
   Lifecycle.s_page (a_product a) = w_page (a_world a) /\
   Lifecycle.s_page (a_detail a) = w_page (a_world a) /\
   Lifecycle.c_listener (Lifecycle.s_comp (a_product a)) = Some (isProductModalOpen (w_page (a_world a))) /\
   Lifecycle.c_listener (Lifecycle.s_comp (a_detail a)) = Some (isDetailModalOpen (w_page (a_world a)))) /\
  (forall e, Lifecycle.s_notified (Lifecycle.step product_binding (a_product a) (widget_label e)) <>
               Lifecycle.s_notified (a_product a) ->
   w_page (a_world (app_step a (ProductWidget e))) = Lifecycle.b_close product_binding (w_page (a_world a)) /\
   w_page (a_world (app_step a (ProductWidget e))) = with_product_open false (w_page (a_world a))) /\
  (forall e, Lifecycle.s_notified (detail_modal (a_detail a) (widget_label e)) <>
               Lifecycle.s_notified (a_detail a) ->
   w_page (a_world (app_step a (DetailWidget e))) = Lifecycle.b_close detail_binding (w_page (a_world a)) /\
   w_page (a_world (app_step a (DetailWidget e))) = with_detail_open false (w_page (a_world a))) /\
  (mounted (a_world a) = false ->
   Lifecycle.s_status (a_product a) <> Lifecycle.Mounted /\
   Lifecycle.s_status (a_detail a) <> Lifecycle.Mounted).
Proof. intros a. apply dialogs_refine_lifecycle. constructor. Defined.



End PageDialogs.
