(* ===== verification/PageRequests.v ===== *)
(** * PageRequests: the spinner and the requests in flight

    ProductPage.jsx shows [<LoadingSpinner />] while [isLoading] is set
    (line 236).  [getData] and [checkLogin] set it before their [await]
    and clear it in their [finally]; [handleModalSubmit] clears it too
    without ever setting it.  This file shows that the spinner is on
    only while a fetch or a session check is in flight (an invariant of
    every reachable world), that the requests in flight can always be
    answered to the end (each answer removes one request and adds at
    most a lighter one, so the total weight of the pending requests is
    a variant) and that, once they are, the spinner is off, whatever the
    server answers. *)

From S2P Require Import Prelude JsValue DraftStore ProductModalView ProductPage.
From Stdlib Require Import QArith_base.
From Stdlib Require String.

Local Close Scope Q_scope.

Module PageRequests.
Import DraftStore ProductPage.

(** [{isLoading && <LoadingSpinner />}]. *)
Definition spinner_visible (p : page) : bool := isLoading p.

(** The continuations that clear the spinner: [getData]'s and
    [checkLogin]'s [finally]. *)
Definition clears_spinner (k : cont) : bool :=
  match k with KGetData | KCheckLogin _ => true | _ => false end.

(** [isLoading] is set only while a request that will clear it is in
    flight. *)
Definition spinner_ok (w : world) : Prop :=
  isLoading (w_page w) = true ->
  exists rq, rq ∈ w_pending w /\ clears_spinner (rq_cont rq) = true.

(** ** Draining the requests in flight *)

(** How much work a continuation can still cause: a session check that
    fetches, a delete and a submit each send one more [getData]. *)
Definition cont_weight (k : cont) : nat :=
  match k with
  | KCheckLogin true | KDelete | KSubmit _ => 2
  | _ => 1
  end.

Definition weight (rqs : list request) : nat :=
  sum_list_with (fun rq => cont_weight (rq_cont rq)) rqs.

(** The server answers the oldest request in flight with [answer], until
    none is left or the fuel runs out. *)
Fixpoint drain (fuel : nat) (answer : request -> outcome) (w : world) : option world :=
  match w_pending w with
  | [] => Some w
  | rq :: _ =>
      match fuel with
      | O => None
      | S fuel' => drain fuel' answer (step w (Respond (rq_id rq) (answer rq)))
      end
  end.

(** ** The spinner invariant, handler by handler *)

Lemma keeps_spin_set_page f :
  (forall p, isLoading (f p) = true -> isLoading p = true) -> keeps spinner_ok (set_page f).
Proof. intros Hf w Hw Hl. apply Hw. by apply Hf. Qed.

Lemma keeps_spin_modify f :
  (forall w, w_page (f w) = w_page w /\ w_pending w ⊆ w_pending (f w)) -> keeps spinner_ok (modify f).
Proof.
  intros Hf w Hw Hl. destruct (Hf w) as [Hp Hs]. simpl in *. rewrite Hp in Hl.
  destruct (Hw Hl) as (rq & Hin & Hk). exists rq. split; [by apply Hs|done].
Qed.

(** [getData] and [checkLogin] turn the spinner on together with the
    request that turns it off. *)
Lemma spinner_ok_call_loading w k a :
  clears_spinner k = true ->
  spinner_ok (snd ((setIsLoading true ;; call a k) w)).
Proof. intros Hk _. eexists. split; [apply elem_of_app; right; by left|done]. Qed.

Lemma keeps_spin_getData pg : keeps spinner_ok (getData pg).
Proof. intros w _. by apply spinner_ok_call_loading. Qed.

Lemma keeps_spin_checkLogin b : keeps spinner_ok (checkLogin b).
Proof. intros w _. by apply spinner_ok_call_loading. Qed.

Lemma keeps_spin_setTempProductR f : keeps spinner_ok (setTempProductR f).
Proof.
  intros w Hw. unfold setTempProductR. case_match;
    [by apply keeps_spin_set_page|by apply keeps_spin_modify].
Qed.

Local Ltac spin_tac :=
  repeat (intros || match goal with
  | |- keeps _ (getData _) => apply keeps_spin_getData
  | |- keeps _ (checkLogin _) => apply keeps_spin_checkLogin
  | |- keeps _ (setTempProductR _) => apply keeps_spin_setTempProductR
  | |- keeps _ (_ ≫= _) => apply keeps_bind
  | |- keeps _ (mret _) => apply keeps_ret
  | |- keeps _ get_page => apply keeps_get_page
  | |- keeps _ (setIsLoading false) => apply keeps_spin_set_page; by intros
  | |- keeps _ (set_page _) => apply keeps_spin_set_page; by intros
  | |- keeps _ (modify _) => apply keeps_spin_modify; intros; split; [done|simpl; set_solver]
  | |- keeps _ (match ?x with _ => _ end) => destruct x
  | |- keeps _ _ => progress unfold setProducts, setPagination, setTempProduct,
      setIsProductModalOpen, setModalMode, setIsDetailModalOpen, raise, navigate,
      set_session, call, handleLogout, handleDelete, handleUpload, openModal,
      closeModal, handleOpenDetail, handleCloseDetail, handleModalSubmit,
      with_row, draft_edit
  end).

Lemma keeps_spin_dispatch sc ev : keeps spinner_ok (dispatch sc ev).
Proof. destruct ev; simpl; spin_tac. Qed.

Lemma keeps_spin_resume k o : clears_spinner k = false -> keeps spinner_ok (resume k o).
Proof.
  destruct k; simpl; intros Hk; try discriminate;
    [unfold handleDelete_resume|unfold handleUpload_resume|unfold handleModalSubmit_resume|];
    spin_tac.
Qed.

(** The continuation of a fetch or a session check leaves the spinner
    consistent from any world: it clears the spinner, then at most
    starts a fetch. *)
Lemma spin_resume_clears k o w : clears_spinner k = true -> spinner_ok (snd (resume k o w)).
Proof.
  destruct k as [|[]| | | |]; intros Hk; try discriminate;
    destruct o as [[]|]; simpl; first [discriminate|intros _];
    eexists; (split; [apply elem_of_app; right; by left|done]).
Qed.

(** Dropping a request that does not clear the spinner keeps one that
    does. *)
Lemma spinner_ok_drop w n rq :
  spinner_ok w -> w_pending w !! n = Some rq -> clears_spinner (rq_cont rq) = false ->
  spinner_ok (drop_request n w).
Proof.
  intros Hw Hn Hk Hl. destruct (Hw Hl) as (rq' & Hin & Hk').
  exists rq'. split; [|done]. simpl.
  rewrite (delete_Permutation _ _ _ Hn), elem_of_cons in Hin.
  destruct Hin as [->|]; [congruence|done].
Qed.

Lemma spinner_ok_commit w : spinner_ok (commit w) <-> spinner_ok w.
Proof. unfold spinner_ok. by rewrite commit_page, commit_pending. Qed.

Lemma spinner_step sc w ev : spinner_ok w -> spinner_ok (step_on sc w ev).
Proof.
  intros Hw. unfold step_on. apply spinner_ok_commit. unfold handle_on. destruct ev;
    try (destruct (w_crashed w); [done|]; destruct (w_route w); [done|by apply keeps_spin_dispatch]).
  unfold take_request. destruct (list_find _ _) as [[n rq]|] eqn:Hf; [|done].
  apply list_find_Some in Hf as (Hn & _).
  destruct (clears_spinner (rq_cont rq)) eqn:Hk; [by apply spin_resume_clears|].
  apply keeps_spin_resume; [done|]. by eapply spinner_ok_drop.
Qed.

Lemma spinner_start cookie : spinner_ok (start cookie).
Proof.
  unfold start, onMount. destruct (String.eqb _ _); simpl; [discriminate|intros _].
  eexists. split; [by left|done].
Qed.

Lemma reachable_spinner w : reachable w -> spinner_ok w.
Proof. induction 1; [apply spinner_start|by apply spinner_step]. Qed.

(** ** The weight of the requests in flight decreases *)

Lemma cont_weight_pos k : 1 <= cont_weight k.
Proof. destruct k as [|[]| | | |]; simpl; lia. Qed.

(** A continuation adds requests lighter than its own. *)
Lemma resume_weight k o w :
  exists new, w_pending (snd (resume k o w)) = w_pending w ++ new /\ weight new < cont_weight k.
Proof.
  destruct k as [|[]| | | |]; destruct o as [[]|]; simpl;
    first [exists []; split; [by rewrite app_nil_r|simpl; lia]
          |eexists; split; [reflexivity|simpl; lia]].
Qed.

Lemma weight_app l1 l2 : weight (l1 ++ l2) = weight l1 + weight l2.
Proof. apply sum_list_with_app. Qed.

Lemma weight_delete l n rq :
  l !! n = Some rq -> weight l = cont_weight (rq_cont rq) + weight (delete n l).
Proof. intros Hn. unfold weight. by rewrite (delete_Permutation _ _ _ Hn) at 1. Qed.

(** Answering a request in flight makes the pending requests lighter. *)
Lemma step_weight w rq o :
  ids_ok w -> rq ∈ w_pending w ->
  weight (w_pending (step w (Respond (rq_id rq) o))) < weight (w_pending w).
Proof.
  intros Hok Hin. destruct (step_respond w rq o Hok Hin) as (n & Hn & ->).
  rewrite commit_pending. destruct (resume_weight (rq_cont rq) o (drop_request n w)) as (new & -> & Hlt).
  rewrite weight_app, (weight_delete _ _ _ Hn). simpl. lia.
Qed.

Section Drain.
Context (answer : request -> outcome) (P : world -> Prop).
Hypothesis P_step : forall w ev, P w -> P (step w ev).

(** With as much fuel as the weight of the requests in flight, the
    drain answers them all, and keeps every invariant of a step. *)
Lemma drain_spec fuel : forall w,
  ids_ok w -> P w -> weight (w_pending w) <= fuel ->
  exists w', drain fuel answer w = Some w' /\ w_pending w' = [] /\ P w'.
Proof.
  induction fuel as [|fuel IH]; intros w Hok Hp Hwt; simpl;
    destruct (w_pending w) as [|rq rqs] eqn:Hpend; [by exists w| |by exists w|].
  - unfold weight in Hwt. simpl in Hwt. pose proof (cont_weight_pos (rq_cont rq)). lia.
  - apply IH; [by apply ids_ok_step|by apply P_step|].
    assert (rq ∈ w_pending w) as Hin by (rewrite Hpend; left).
    pose proof (step_weight w rq (answer rq) Hok Hin). rewrite Hpend in *. lia.
Qed.

End Drain.

Lemma reachable_step_page w ev : reachable w -> reachable (step w ev).
Proof. apply reachable_step. Qed.

(** ** Properties *)

(** C40: The spinner is on only while a fetch or a session check is in
    flight: in every reachable world, whatever screens the events came
    from, [isLoading] implies a pending request whose continuation
    clears it. *)
Theorem spinner_only_while_loading w :
  reachable w -> spinner_visible (w_page w) = true ->
  exists rq, rq ∈ w_pending w /\ clears_spinner (rq_cont rq) = true.
Proof. intros Hr. by apply reachable_spinner. Qed.

(** C36: From any reachable world the server can answer the requests in
    flight to the end, whatever it answers: at most [weight] answers
    (one per request, two for a request whose continuation fetches
    again) leave a reachable world with no request in flight. *)
Theorem requests_drain w answer :
  reachable w ->
  exists w', drain (weight (w_pending w)) answer w = Some w' /\ w_pending w' = [] /\ reachable w'.
Proof.
  intros Hr. apply drain_spec; [apply reachable_step_page|by apply reachable_ids_ok|done|done].
Qed.

(** C24: The spinner always goes away: once the server has answered the
    requests in flight, whatever it answered, the spinner is off. *)
Theorem spinner_eventually_off w answer :
  reachable w ->
  exists w', drain (weight (w_pending w)) answer w = Some w' /\ spinner_visible (w_page w') = false.
Proof.
  intros Hr. destruct (drain_spec answer reachable reachable_step_page (weight (w_pending w)) w)
    as (w' & Hd & Hp & Hr'); [by apply reachable_ids_ok|done|done|].
  exists w'. split; [done|]. destruct (spinner_visible _) eqn:E; [|done].
  destruct (reachable_spinner w' Hr' E) as (rq & Hin & _). rewrite Hp in Hin. set_solver.
Qed.

(** ** Witnesses *)

Lemma spinner_only_while_loading_witness :
  exists rq, rq ∈ w_pending (start "tok") /\ clears_spinner (rq_cont rq) = true.
Proof. apply spinner_only_while_loading; [constructor|reflexivity]. Defined.

Lemma requests_drain_witness :
  exists w', drain (weight (w_pending (start "tok"))) (fun _ => Rejected) (start "tok") = Some w' /\
    w_pending w' = [] /\ reachable w'.
Proof. apply requests_drain. constructor. Defined.

Lemma spinner_eventually_off_witness :
  exists w', drain (weight (w_pending (start "tok"))) (fun _ => Resolved RDone) (start "tok") = Some w' /\
    spinner_visible (w_page w') = false.
Proof. apply spinner_eventually_off. constructor. Defined.

End PageRequests.
